(** * teqp multi-fluid model: a shallow embedding of [multifluid.hpp]

    The mixture model of [include/teqp/models/multifluid.hpp] is embedded
    function by function.  C++ templates over the numeric type become
    definitions over a [Scalar] interface; exceptions become values of a
    [result] type; [for] loops become folds over the index range they visit;
    [nlohmann::json] documents become values of an inductive type [json]. *)

From Stdlib Require Import List String Ascii Bool Arith ZArith Lia.
From Stdlib Require Import QArith Qreduction Qabs.
From Stdlib Require Import Reals Lra.
From Stdlib Require Import DecimalString.
Import ListNotations.

Set Implicit Arguments.
Set Warnings "-register-all".
Local Open Scope nat_scope.

(** ** Scalars

    The evaluation code is generic in its numeric type (plain [double]s or
    automatic-differentiation numbers).  [Scalar] lists the operations the
    header uses.  [of_int] is the conversion [int -> double], [to_int] the
    truncating cast [double -> int] of [cast<int>()]. *)

Class Scalar (K : Type) : Type := {
  zero : K;
  one : K;
  add : K -> K -> K;
  sub : K -> K -> K;
  mul : K -> K -> K;
  div : K -> K -> K;
  neg : K -> K;
  sqrt_ : K -> K;
  cbrt : K -> K;
  abs_ : K -> K;
  ltb : K -> K -> bool;
  of_int : Z -> K;
  to_int : K -> Z
}.

Declare Scope scalar_scope.
Delimit Scope scalar_scope with K.
Notation "x + y" := (add x y) : scalar_scope.
Notation "x - y" := (sub x y) : scalar_scope.
Notation "x * y" := (mul x y) : scalar_scope.
Notation "x / y" := (div x y) : scalar_scope.
Notation "- x" := (neg x) : scalar_scope.

(** *** Real numbers: the idealised reading of [double]

    Rounding is left out.  A division by zero, which gives an infinity or a
    NaN in [double], has the value [0] in [R]: where a property would rest
    on that value, its statement assumes the divisor not zero. *)

Definition Rltb (a b : R) : bool := if Rlt_dec a b then true else false.

Definition Rtrunc (r : R) : Z :=
  if Rle_dec 0 r then Int_part r else (- Int_part (- r))%Z.

Definition Rcbrt (r : R) : R :=
  if Rlt_dec 0 r then Rpower r (/ 3)
  else if Rlt_dec r 0 then (- Rpower (- r) (/ 3))%R
  else 0%R.

#[global] Instance Scalar_R : Scalar R := {|
  zero := 0%R; one := 1%R;
  add := Rplus; sub := Rminus; mul := Rmult; div := Rdiv; neg := Ropp;
  sqrt_ := sqrt; cbrt := Rcbrt; abs_ := Rabs;
  ltb := Rltb; of_int := IZR; to_int := Rtrunc
|}.

(** *** Rationals in lowest terms: an executable exact arithmetic

    Every operation reduces its result, so that equal values are equal terms.
    Square and cube roots are the integer roots of numerator and denominator:
    exact on rational squares and cubes, which is what the examples use. *)

Fixpoint icbrt_up (fuel : nat) (r n : Z) : Z :=
  match fuel with
  | O => r
  | S fuel' =>
      if ((r + 1) * (r + 1) * (r + 1) <=? n)%Z then icbrt_up fuel' (r + 1)%Z n else r
  end.

Definition Zcbrt (n : Z) : Z :=
  if (0 <=? n)%Z then icbrt_up (Z.to_nat n) 0%Z n
  else (- icbrt_up (Z.to_nat (- n)) 0%Z (- n))%Z.

Definition Qsqrt (q : Q) : Q :=
  Qred (Z.sqrt (Qnum q) # Pos.sqrt (Qden q)).

Definition Qcbrt (q : Q) : Q :=
  Qred (Zcbrt (Qnum q) # Z.to_pos (Zcbrt (Zpos (Qden q)))).

Definition Qltb (a b : Q) : bool :=
  match Qcompare a b with Lt => true | _ => false end.

Definition Qtrunc (q : Q) : Z := Z.quot (Qnum q) (Zpos (Qden q)).

#[global] Instance Scalar_Q : Scalar Q := {|
  zero := 0%Q; one := 1%Q;
  add := fun a b => Qred (a + b)%Q;
  sub := fun a b => Qred (a - b)%Q;
  mul := fun a b => Qred (a * b)%Q;
  div := fun a b => Qred (a / b)%Q;
  neg := fun a => Qred (- a)%Q;
  sqrt_ := Qsqrt; cbrt := Qcbrt;
  abs_ := fun a => Qred (Qabs a);
  ltb := Qltb; of_int := inject_Z; to_int := Qtrunc
|}.

(** ** Exceptions

    [std::invalid_argument] is thrown by the header itself; [type_error] and
    [out_of_range] are the exceptions of [nlohmann::json]
    (conversion of a value of the wrong type, [at] on a missing key);
    [assertion_failure] stands for the library's assertion on a missing key
    under the [const] subscript operator. *)

Inductive exn : Type :=
| invalid_argument (msg : string)
| type_error
| out_of_range
| assertion_failure.

Inductive result (A : Type) : Type :=
| Ok (a : A)
| Err (e : exn).

Arguments Ok {A} a.
Arguments Err {A} e.

Definition bind {A B : Type} (r : result A) (k : A -> result B) : result B :=
  match r with
  | Ok a => k a
  | Err e => Err e
  end.

Notation "x <- c ;; k" := (bind c (fun x => k))
  (at level 61, c at next level, right associativity).
Notation "' p <- c ;; k" := (bind c (fun x => let p := x in k))
  (at level 61, p pattern, c at next level, right associativity).

Definition is_ok {A : Type} (r : result A) : bool :=
  match r with Ok _ => true | Err _ => false end.

(** ** Loops

    [for (auto i = lo; i < hi; ++i) body] visits [lo, lo+1, ..., hi-1] and
    nothing when [hi <= lo].  [for_range] threads the loop's variables through
    the visits; [for_rangeM] does the same for a body that may throw, and
    stops at the first exception. *)

Definition for_range {S : Type} (lo hi : nat) (body : nat -> S -> S) (s : S) : S :=
  fold_left (fun s i => body i s) (seq lo (hi - lo)) s.

Fixpoint foldM {I S : Type} (body : I -> S -> result S) (l : list I) (s : S)
  : result S :=
  match l with
  | [] => Ok s
  | i :: l' => s' <- body i s ;; foldM body l' s'
  end.

Definition for_rangeM {S : Type} (lo hi : nat) (body : nat -> S -> result S) (s : S)
  : result S :=
  foldM body (seq lo (hi - lo)) s.

(** ** Dense matrices

    An [Eigen::MatrixXd] (and a [vector<vector<T>>] used as a matrix) is read
    and written by index pair; the embedding keeps the entries as a function
    and the dimension where the code keeps it.  Entries outside the dimension
    are never read by the code. *)

Definition Matrix (A : Type) : Type := nat -> nat -> A.

Definition mconst {A : Type} (a : A) : Matrix A := fun _ _ => a.

Definition mset {A : Type} (M : Matrix A) (i j : nat) (v : A) : Matrix A :=
  fun a b => if (a =? i) && (b =? j) then v else M a b.

(** ** JSON documents

    [nlohmann::json] values.  An object is an association list, searched from
    the front; numbers are scalars (the code converts every number it reads to
    [double] or [int]). *)

Section Json.
Context {K : Type} {SK : Scalar K}.

Inductive json : Type :=
| JNull
| JBool (b : bool)
| JNum (x : K)
| JStr (s : string)
| JArr (l : list json)
| JObj (m : list (string * json)).

Fixpoint assoc (m : list (string * json)) (key : string) : option json :=
  match m with
  | [] => None
  | (k, v) :: m' => if String.eqb k key then Some v else assoc m' key
  end.

(** [j.contains(key)]: false on anything but an object. *)
Definition contains (j : json) (key : string) : bool :=
  match j with
  | JObj m => match assoc m key with Some _ => true | None => false end
  | _ => false
  end.

(** [j.at(key)]: [out_of_range] on a missing key, [type_error] on a value
    that is not an object. *)
Definition at_ (j : json) (key : string) : result json :=
  match j with
  | JObj m => match assoc m key with Some v => Ok v | None => Err out_of_range end
  | _ => Err type_error
  end.

(** [j[key]] on a [const] document: the key must be there. *)
Definition subscript_const (j : json) (key : string) : result json :=
  match j with
  | JObj m => match assoc m key with Some v => Ok v | None => Err assertion_failure end
  | _ => Err type_error
  end.

(** [j[key]] on a document the caller owns: a missing key is created with
    the value null, and null itself becomes an object first.  [subscript]
    is the value read, [touched] the document after the access. *)
Definition subscript (j : json) (key : string) : result json :=
  match j with
  | JObj m => match assoc m key with Some v => Ok v | None => Ok JNull end
  | JNull => Ok JNull
  | _ => Err type_error
  end.

Definition touched (j : json) (key : string) : json :=
  match j with
  | JObj m => match assoc m key with Some _ => j | None => JObj (m ++ [(key, JNull)]) end
  | JNull => JObj [(key, JNull)]
  | _ => j
  end.

(** [j.size()] and [j.empty()]. *)
Definition size (j : json) : nat :=
  match j with
  | JNull => 0
  | JArr l => List.length l
  | JObj m => List.length m
  | _ => 1
  end.

Definition empty (j : json) : bool := size j =? 0.

(** The elements a range-[for] over [j] visits. *)
Definition items (j : json) : list json :=
  match j with
  | JNull => []
  | JArr l => l
  | JObj m => map snd m
  | _ => [j]
  end.

(** Conversions to C++ values; each throws [type_error] on a value of
    another type. *)
Definition get_double (j : json) : result K :=
  match j with
  | JNum x => Ok x
  | _ => Err type_error
  end.

Definition get_int (j : json) : result Z :=
  match j with
  | JNum x => Ok (to_int x)
  | JBool b => Ok (if b then 1%Z else 0%Z)
  | _ => Err type_error
  end.

Definition get_string (j : json) : result string :=
  match j with
  | JStr s => Ok s
  | _ => Err type_error
  end.

Fixpoint get_doubles (l : list json) : result (list K) :=
  match l with
  | [] => Ok []
  | j :: l' => x <- get_double j ;; xs <- get_doubles l' ;; Ok (x :: xs)
  end.

Definition get_vector_double (j : json) : result (list K) :=
  match j with
  | JArr l => get_doubles l
  | _ => Err type_error
  end.

(** [s == j] for a [std::string] [s]: true exactly on the same string. *)
Definition string_eq_json (s : string) (j : json) : bool :=
  match j with
  | JStr s' => String.eqb s s'
  | _ => false
  end.

End Json.

Arguments json K : clear implicits.

(** ** Strings *)

(** [::toupper] in the C locale, applied to every character. *)
Definition toupper_char (c : ascii) : ascii :=
  let n := nat_of_ascii c in
  if (97 <=? n) && (n <=? 122) then ascii_of_nat (n - 32) else c.

Fixpoint toupper (s : string) : string :=
  match s with
  | EmptyString => EmptyString
  | String c s' => String (toupper_char c) (toupper s')
  end.

(** [std::to_string(i)] for a non-negative index. *)
Definition to_string (i : nat) : string :=
  NilEmpty.string_of_uint (Nat.to_uint i).

(** [a + b] on [std::string]. *)
Definition concat2 (a b : string) : string := String.append a b.

(** Whether [needle] occurs in [hay] as a contiguous substring. *)
Fixpoint occurs_in (needle hay : string) : bool :=
  if String.prefix needle hay then true
  else match hay with
       | EmptyString => false
       | String _ hay' => occurs_in needle hay'
       end.

(** ** Interfaces of the class templates

    [CorrespondingStatesContribution], [DepartureContribution] and
    [MultiFluid] are templates: the first two take any collection of objects
    with a method [alphar(tau, delta)], the last any reducing function with
    [get_Tr] and [get_rhor]. *)

Class EOS (K E : Type) : Type :=
  eos_alphar : E -> K -> K -> K.

Class ReducingFunction (K RF : Type) : Type := {
  get_Tr : RF -> list K -> K;
  get_rhor : RF -> list K -> K
}.

(** [forceeval] collapses a lazy expression to its value; on a value it is
    the identity. *)
Definition forceeval {K : Type} (x : K) : K := x.

(** [std::accumulate(begin, end, init)]. *)
Definition accumulate {K : Type} {SK : Scalar K} (v : list K) (init : K) : K :=
  fold_left add v init.

Module CorrespondingStatesContribution.
Section Def.
Context {K : Type} {SK : Scalar K} {E : Type} {EE : EOS K E}.

Record t : Type := make { EOSs : list E }.

(** [EOSs[i].alphar(tau, delta)].  The code reads [EOSs[i]] only for
    [i < molefracs.size()], which callers keep within [EOSs]; outside, where
    C++ leaves the read undefined, the embedding reads 0. *)
Definition alphari (c : t) (tau delta : K) (i : nat) : K :=
  match nth_error (EOSs c) i with
  | Some e => eos_alphar e tau delta
  | None => zero
  end.

Definition alphar (c : t) (tau delta : K) (molefracs : list K) : K :=
  let N := List.length molefracs in
  for_range 0 N
    (fun i alphar => (alphar + nth i molefracs zero * alphari c tau delta i)%K)
    zero.

Definition get_EOS (c : t) (i : nat) : option E := nth_error (EOSs c) i.
End Def.
Arguments t E : clear implicits.
End CorrespondingStatesContribution.

Module DepartureContribution.
Section Def.
Context {K : Type} {SK : Scalar K} {E : Type} {EE : EOS K E}.

Record t : Type := make { F : Matrix K; funcs : Matrix E }.

Definition alphar (d : t) (tau delta : K) (molefracs : list K) : K :=
  let N := List.length molefracs in
  for_range 0 N
    (fun i =>
       for_range (i + 1) N
         (fun j alphar =>
            (alphar + nth i molefracs zero * nth j molefracs zero * F d i j
                      * eos_alphar (funcs d i j) tau delta)%K))
    zero.
End Def.
Arguments t K E : clear implicits.
End DepartureContribution.

Module MultiFluid.
Section Def.
Context {K : Type} {SK : Scalar K}.
Context {RF : Type} {RFI : ReducingFunction K RF}.
Context {E1 : Type} {EE1 : EOS K E1} {E2 : Type} {EE2 : EOS K E2}.

Record t : Type := make_with_meta {
  meta : string;
  redfunc : RF;
  corr : CorrespondingStatesContribution.t E1;
  dep : DepartureContribution.t K E2
}.

(** The constructor: the metadata string starts empty. *)
Definition make (redfunc : RF) (corr : CorrespondingStatesContribution.t E1)
    (dep : DepartureContribution.t K E2) : t :=
  make_with_meta EmptyString redfunc corr dep.

Definition set_meta (m : t) (s : string) : t :=
  make_with_meta s (redfunc m) (corr m) (dep m).

Definition get_meta (m : t) : string := meta m.

(** [alphar(T, rho, molefrac)]. *)
Definition alphar (m : t) (T rho : K) (molefrac : list K) : K :=
  let Tred := forceeval (get_Tr (redfunc m) molefrac) in
  let rhored := forceeval (get_rhor (redfunc m) molefrac) in
  let delta := forceeval (rho / rhored)%K in
  let tau := forceeval (Tred / T)%K in
  let val :=
    (CorrespondingStatesContribution.alphar (corr m) tau delta molefrac
     + DepartureContribution.alphar (dep m) tau delta molefrac)%K in
  forceeval val.

(** [alphar(T, rhovec, rhotot)], [rhotot] optional. *)
Definition alphar_rhovec (m : t) (T : K) (rhovec : list K) (rhotot : option K) : K :=
  let rhotot_ :=
    match rhotot with
    | Some r => r
    | None => accumulate rhovec zero
    end in
  let molefrac := map (fun r => (r / rhotot_)%K) rhovec in
  alphar m T rhotot_ molefrac.
End Def.
Arguments t K RF E1 E2 : clear implicits.
End MultiFluid.

(** ** The dummy model of the header *)

Inductive DummyEOS : Type := mkDummyEOS.

#[global] Instance DummyEOS_alphar {K : Type} {SK : Scalar K} : EOS K DummyEOS :=
  fun _ tau delta => (tau * delta)%K.

Inductive DummyReducingFunction : Type := mkDummyReducingFunction.

#[global] Instance DummyReducingFunction_red {K : Type} {SK : Scalar K}
  : ReducingFunction K DummyReducingFunction := {|
  get_Tr := fun _ molefracs => nth 0 molefracs zero;
  get_rhor := fun _ molefracs => nth 0 molefracs zero
|}.

Definition build_dummy_multifluid_model {K : Type} {SK : Scalar K}
    (components : list string)
  : MultiFluid.t K DummyReducingFunction DummyEOS DummyEOS :=
  let EOSs := [mkDummyEOS; mkDummyEOS] in
  let funcs : Matrix DummyEOS := mconst mkDummyEOS in
  let F : Matrix K := mconst zero in
  let redfunc := mkDummyReducingFunction in
  MultiFluid.make redfunc (CorrespondingStatesContribution.make EOSs)
    (DepartureContribution.make F funcs).

(** ** The asymmetric (GERG-style) reducing function *)

Module MultiFluidReducingFunction.
Section Def.
Context {K : Type} {SK : Scalar K}.

Local Notation "v [[ i ]]" := (nth i v zero) (at level 1, format "v [[ i ]]").

Record t : Type := mk {
  YT : Matrix K;
  Yv : Matrix K;
  betaT : Matrix K;
  gammaT : Matrix K;
  betaV : Matrix K;
  gammaV : Matrix K;
  Tc : list K;
  vc : list K
}.

Definition cube (x : K) : K := (x * x * x)%K.
Definition square (x : K) : K := (x * x)%K.

(** The constructor: [YT] and [Yv] are zeroed, then filled pair by pair. *)
Definition make (betaT gammaT betaV gammaV : Matrix K) (Tc vc : list K) : t :=
  let N := List.length Tc in
  let '(YT, Yv) :=
    for_range 0 N
      (fun i =>
         for_range (i + 1) N
           (fun j '(YT, Yv) =>
              let YT := mset YT i j (betaT i j * gammaT i j * sqrt_ (Tc[[i]] * Tc[[j]]))%K in
              let YT := mset YT j i (betaT j i * gammaT j i * sqrt_ (Tc[[i]] * Tc[[j]]))%K in
              let Yv := mset Yv i j (one / of_int 8 * betaV i j * gammaV i j
                                     * cube (cbrt vc[[i]] + cbrt vc[[j]]))%K in
              let Yv := mset Yv j i (one / of_int 8 * betaV j i * gammaV j i
                                     * cube (cbrt vc[[i]] + cbrt vc[[j]]))%K in
              (YT, Yv)))
      (mconst zero, mconst zero) in
  mk YT Yv betaT gammaT betaV gammaV Tc vc.

(** [Y(z, Yc, beta, Yij)].  The outer bound of the second loop is [N-1] on
    the signed size of an Eigen array: no pair is visited when [N] is 0. *)
Definition Y (z : list K) (Yc : list K) (beta Yij : Matrix K) : K :=
  let N := List.length z in
  let sum1 :=
    for_range 0 N (fun i sum1 => (sum1 + square z[[i]] * Yc[[i]])%K) zero in
  let sum2 :=
    for_range 0 (N - 1)
      (fun i =>
         for_range (i + 1) N
           (fun j sum2 =>
              (sum2 + of_int 2 * z[[i]] * z[[j]] * (z[[i]] + z[[j]])
                      / (square (beta i j) * z[[i]] + z[[j]]) * Yij i j)%K))
      zero in
  (sum1 + sum2)%K.

Definition get_Tr_ (r : t) (molefracs : list K) : K :=
  Y molefracs (Tc r) (betaT r) (YT r).

Definition get_rhor_ (r : t) (molefracs : list K) : K :=
  (one / Y molefracs (vc r) (betaV r) (Yv r))%K.

(** *** Binary-parameter resolution *)

(** The object built under the "estimate" flag, its keys in the order
    [std::map] keeps them. *)
Definition estimate_default : json K :=
  JObj [("F", JNum zero); ("betaT", JNum one); ("betaV", JNum one);
        ("gammaT", JNum one); ("gammaV", JNum one)]%string.

(** The body of the range-[for] over the catalog, and the [throw] after
    it. *)
Fixpoint find_pair (comp0 comp1 : string) (els : list (json K)) : result (json K) :=
  match els with
  | [] => Err (invalid_argument "Can't match this binary pair")
  | el :: rest =>
      j1 <- subscript_const el "Name1" ;;
      s1 <- get_string j1 ;;
      let name1 := toupper s1 in
      j2 <- subscript_const el "Name2" ;;
      s2 <- get_string j2 ;;
      let name2 := toupper s2 in
      if String.eqb comp0 name1 && String.eqb comp1 name2 then Ok el
      else if String.eqb comp0 name2 && String.eqb comp1 name1 then Ok el
      else find_pair comp0 comp1 rest
  end.

(** [components] holds two names at every call site; [components[0]] and
    [components[1]] are read without a bounds check. *)
Definition get_BIPdep (collection : json K) (components : list string)
    (flags : json K) : result (json K) :=
  if contains flags "estimate" then Ok estimate_default
  else
    let comp0 := toupper (nth 0 components EmptyString) in
    let comp1 := toupper (nth 1 components EmptyString) in
    find_pair comp0 comp1 (items collection).

Definition get_binary_interaction_double (collection : json K)
    (components : list string) (flags : json K) : result (K * K * K * K) :=
  el <- get_BIPdep collection components flags ;;
  betaT <- (j <- subscript el "betaT" ;; get_double j) ;;
  gammaT <- (j <- subscript el "gammaT" ;; get_double j) ;;
  betaV <- (j <- subscript el "betaV" ;; get_double j) ;;
  gammaV <- (j <- subscript el "gammaV" ;; get_double j) ;;
  (* Backwards order of components, flip beta values *)
  name2 <- subscript el "Name2" ;;
  backwards <-
    (if string_eq_json (nth 0 components EmptyString) name2
     then name1 <- subscript el "Name1" ;;
          Ok (string_eq_json (nth 1 components EmptyString) name1)
     else Ok false) ;;
  if backwards : bool
  then Ok (one / betaT, gammaT, one / betaV, gammaV)%K
  else Ok (betaT, gammaT, betaV, gammaV).

Definition BIP_matrices : Type := Matrix K * Matrix K * Matrix K * Matrix K.

(** The body of the loops of [get_BIP_matrices] for the pair [(i, j)]. *)
Definition BIP_matrices_body (collection : json K) (components : list string)
    (flags : json K) (i j : nat) (s : BIP_matrices) : result BIP_matrices :=
  let '(betaT, gammaT, betaV, gammaV) := s in
  ' (betaT_, gammaT_, betaV_, gammaV_) <-
    get_binary_interaction_double collection
      [nth i components EmptyString; nth j components EmptyString] flags ;;
  let betaT := mset betaT i j betaT_ in
  let betaT := mset betaT j i (one / betaT i j)%K in
  let gammaT := mset gammaT i j gammaT_ in
  let gammaT := mset gammaT j i (gammaT i j) in
  let betaV := mset betaV i j betaV_ in
  let betaV := mset betaV j i (one / betaV i j)%K in
  let gammaV := mset gammaV i j gammaV_ in
  let gammaV := mset gammaV j i (gammaV i j) in
  Ok (betaT, gammaT, betaV, gammaV).

Definition get_BIP_matrices (collection : json K) (components : list string)
    (flags : json K) : result BIP_matrices :=
  let N := List.length components in
  for_rangeM 0 N
    (fun i => for_rangeM (i + 1) N (BIP_matrices_body collection components flags i))
    (mconst zero, mconst zero, mconst zero, mconst zero).

(** The body of the inner loop of [get_F_matrix] for the pair [(i, j)]. *)
Definition F_matrix_body (collection : json K) (components : list string)
    (flags : json K) (i j : nat) (F : Matrix K) : result (Matrix K) :=
  el <- get_BIPdep collection
          [nth i components EmptyString; nth j components EmptyString] flags ;;
  if empty el then
    let F := mset F i j zero in
    let F := mset F j i zero in
    Ok F
  else
    Fij <- (x <- subscript el "F" ;; get_double x) ;;
    let F := mset F i j Fij in
    Fji <- (x <- subscript el "F" ;; get_double x) ;;
    let F := mset F j i Fji in
    Ok F.

(** [F] is allocated without initialisation; every entry within the
    dimension is written before the matrix is returned. *)
Definition get_F_matrix (collection : json K) (components : list string)
    (flags : json K) : result (Matrix K) :=
  let N := List.length components in
  for_rangeM 0 N
    (fun i F =>
       let F := mset F i i zero in
       for_rangeM (i + 1) N (F_matrix_body collection components flags i) F)
    (mconst zero).
End Def.
Arguments t K : clear implicits.

#[global] Instance reducing {K : Type} {SK : Scalar K} : ReducingFunction K (t K) := {|
  get_Tr := get_Tr_;
  get_rhor := get_rhor_
|}.
End MultiFluidReducingFunction.

(** ** The invariant reducing function *)

Module MultiFluidInvariantReducingFunction.
Section Def.
Context {K : Type} {SK : Scalar K}.

Local Notation "v [[ i ]]" := (nth i v zero) (at level 1, format "v [[ i ]]").

Record t : Type := mk {
  YT : Matrix K;
  Yv : Matrix K;
  phiT : Matrix K;
  lambdaT : Matrix K;
  phiV : Matrix K;
  lambdaV : Matrix K;
  Tc : list K;
  vc : list K
}.

Definition cube (x : K) : K := (x * x * x)%K.
Definition square (x : K) : K := (x * x)%K.

Definition make (phiT lambdaT phiV lambdaV : Matrix K) (Tc vc : list K) : t :=
  let N := List.length Tc in
  let '(YT, Yv) :=
    for_range 0 N
      (fun i =>
         for_range 0 N
           (fun j '(YT, Yv) =>
              let YT := mset YT i j (sqrt_ (Tc[[i]] * Tc[[j]]))%K in
              let YT := mset YT j i (sqrt_ (Tc[[i]] * Tc[[j]]))%K in
              let Yv := mset Yv i j (one / of_int 8 * cube (cbrt vc[[i]] + cbrt vc[[j]]))%K in
              let Yv := mset Yv j i (one / of_int 8 * cube (cbrt vc[[i]] + cbrt vc[[j]]))%K in
              (YT, Yv)))
      (mconst zero, mconst zero) in
  mk YT Yv phiT lambdaT phiV lambdaV Tc vc.

Definition Y (z : list K) (phi lambda Yij : Matrix K) : K :=
  let N := List.length z in
  for_range 0 N
    (fun i =>
       for_range 0 N
         (fun j sum =>
            let contrib :=
              (z[[i]] * z[[j]] * (phi i j + z[[j]] * lambda i j) * Yij i j)%K in
            (sum + contrib)%K))
    zero.

Definition get_Tr_ (r : t) (molefracs : list K) : K :=
  Y molefracs (phiT r) (lambdaT r) (YT r).

Definition get_rhor_ (r : t) (molefracs : list K) : K :=
  (one / Y molefracs (phiV r) (lambdaV r) (Yv r))%K.
End Def.
Arguments t K : clear implicits.

#[global] Instance reducing {K : Type} {SK : Scalar K} : ReducingFunction K (t K) := {|
  get_Tr := get_Tr_;
  get_rhor := get_rhor_
|}.
End MultiFluidInvariantReducingFunction.

(** ** Term evaluators and term collections *)

Section Terms.
Context {K : Type} {SK : Scalar K}.

(** Modelled from the spec: the term classes of [multifluid_eosterms.hpp],
    which is not among the sources.  Each record holds the coefficient
    arrays the builders below assign ([eos.n], [eos.t], ...); [l_i] is the
    integer copy of [l]. *)
Record PowerEOSTerm : Type := mkPower {
  pw_n : list K; pw_t : list K; pw_d : list K; pw_c : list K; pw_l : list K;
  pw_l_i : list Z
}.

Record ExponentialEOSTerm : Type := mkExponential {
  ex_n : list K; ex_t : list K; ex_d : list K; ex_g : list K; ex_l : list K;
  ex_l_i : list Z
}.

Record GaussianEOSTerm : Type := mkGaussian {
  ga_n : list K; ga_t : list K; ga_d : list K; ga_eta : list K;
  ga_beta : list K; ga_gamma : list K; ga_epsilon : list K
}.

Record GERG2004EOSTerm : Type := mkGERG2004 {
  ge_n : list K; ge_t : list K; ge_d : list K; ge_eta : list K;
  ge_beta : list K; ge_gamma : list K; ge_epsilon : list K
}.

Record Lemmon2005EOSTerm : Type := mkLemmon2005 {
  le_n : list K; le_t : list K; le_d : list K; le_l : list K; le_m : list K;
  le_l_i : list Z
}.

Record GaoBEOSTerm : Type := mkGaoB {
  gb_n : list K; gb_t : list K; gb_d : list K; gb_eta : list K;
  gb_beta : list K; gb_gamma : list K; gb_epsilon : list K; gb_b : list K
}.

Record NonAnalyticEOSTerm : Type := mkNonAnalytic {
  na_n : list K; na_A : list K; na_B : list K; na_C : list K; na_D : list K;
  na_a : list K; na_b : list K; na_beta : list K
}.

(** Modelled from the spec: the tagged variant of term evaluators, with
    [NullEOSTerm] the explicit "no departure" placeholder. *)
Inductive EOSTermVariant : Type :=
| Power (e : PowerEOSTerm)
| Exponential (e : ExponentialEOSTerm)
| Gaussian (e : GaussianEOSTerm)
| GERG2004 (e : GERG2004EOSTerm)
| Lemmon2005 (e : Lemmon2005EOSTerm)
| GaoB (e : GaoBEOSTerm)
| NonAnalytic (e : NonAnalyticEOSTerm)
| NullEOSTerm.

(** Modelled from the spec: a term collection is an ordered, append-only
    sequence of term evaluators; [EOSTerms] holds a component's terms,
    [DepartureTerms] a pair's. *)
Definition EOSTerms : Type := list EOSTermVariant.
Definition DepartureTerms : Type := list EOSTermVariant.

Definition add_term (c : list EOSTermVariant) (e : EOSTermVariant)
  : list EOSTermVariant := c ++ [e].

(** Modelled from the spec: [toeig] of [multifluid_eosterms.hpp] turns a
    JSON array of numbers into a coefficient array. *)
Definition toeig (j : json K) : result (list K) := get_vector_double j.

Fixpoint sizes_at (j : json K) (ks : list string) : result (list nat) :=
  match ks with
  | [] => Ok []
  | k :: ks' => v <- at_ j k ;; ns <- sizes_at j ks' ;; Ok (size v :: ns)
  end.

(** Modelled from the spec: [all_same_length] of
    [multifluid_eosterms.hpp] holds when the arrays stored under the keys
    [ks] share one length. *)
Definition all_same_length (j : json K) (ks : list string) : result bool :=
  ns <- sizes_at j ks ;;
  match ns with
  | [] => Ok false
  | n :: ns' => Ok (forallb (Nat.eqb n) ns')
  end.

(** [v.head(n)] and [v.tail(n)] of an Eigen array: the first and the last
    [n] entries, with Eigen's range assertion. *)
Definition head (v : list K) (n : Z) : result (list K) :=
  if ((0 <=? n) && (n <=? Z.of_nat (List.length v)))%Z
  then Ok (firstn (Z.to_nat n) v)
  else Err assertion_failure.

Definition tail (v : list K) (n : Z) : result (list K) :=
  if ((0 <=? n) && (n <=? Z.of_nat (List.length v)))%Z
  then Ok (skipn (List.length v - Z.to_nat n) v)
  else Err assertion_failure.

(** [v[i] = x] on an array. *)
Fixpoint set_nth (v : list K) (i : nat) (x : K) : list K :=
  match v, i with
  | [], _ => []
  | _ :: v', O => x :: v'
  | y :: v', S i' => y :: set_nth v' i' x
  end.

(** [((l_i.cast<double>() - l).cwiseAbs() > 0.0).any()]. *)
Definition non_integer_entry (l_i : list Z) (l : list K) : bool :=
  existsb (fun p => ltb zero (abs_ (of_int (fst p) - snd p)%K)) (combine l_i l).

(** [if (!cond) throw std::invalid_argument(msg)]. *)
Definition require (cond : result bool) (msg : string) : result unit :=
  b <- cond ;; if b : bool then Ok tt else Err (invalid_argument msg).

(** [c[i] = 1.0] wherever [l[i] > 0], over the indices of [c]. *)
Definition c_from_l (N : nat) (l : list K) : list K :=
  for_range 0 N
    (fun i c => if ltb zero (nth i l zero) then set_nth c i one else c)
    (repeat zero N).

(** [eigorzero(name)] over a term already holding [N]. *)
Definition eigorzero (term : json K) (N : nat) (name : string) : result (list K) :=
  v <- subscript term name ;;
  if negb (empty v) then toeig v else Ok (repeat zero N).

(** *** Departure functions *)

(** The lambda [build_power] of [build_departure_function].  The accesses
    [term["n"]], ..., [term["l"]] create the keys that are missing, so [term]
    is followed through them. *)
Definition departure_build_power (term : json K) : result PowerEOSTerm :=
  nj <- subscript term "n" ;;
  let N := size nj in
  let term := touched term "n" in
  n <- eigorzero term N "n" ;;
  t <- eigorzero term N "t" ;;
  let term := touched term "t" in
  d <- eigorzero term N "d" ;;
  let term := touched term "d" in
  lj <- subscript term "l" ;;
  let term := touched term "l" in
  ' (c, l) <-
    (if empty lj then
       (* exponential part not included *)
       _ <- require (all_same_length term ["n"; "t"; "d"]%string)
              "Lengths are not all identical in polynomial term" ;;
       Ok (repeat zero N, repeat zero N)
     else
       _ <- require (all_same_length term ["n"; "t"; "d"; "l"]%string)
              "Lengths are not all identical in exponential term" ;;
       l <- toeig lj ;;
       Ok (c_from_l N l, l)) ;;
  let l_i := map to_int l in
  if non_integer_entry l_i l
  then Err (invalid_argument "Non-integer entry in l found")
  else Ok (mkPower n t d c l l_i).

(** The leading power sub-term of a composite record, as both
    [build_GERG2004] and [build_GaussianExponential] build it. *)
Definition composite_power (term : json K) (Npower : Z) : result PowerEOSTerm :=
  n <- (v <- subscript_const term "n" ;; a <- toeig v ;; head a Npower) ;;
  t <- (v <- subscript_const term "t" ;; a <- toeig v ;; head a Npower) ;;
  d <- (v <- subscript_const term "d" ;; a <- toeig v ;; head a Npower) ;;
  l <- (if contains term "l"
        then v <- subscript_const term "l" ;; a <- toeig v ;; head a Npower
        else Ok (map (fun x => (zero * x)%K) n)) ;;
  let c := map (fun x => of_int (if ltb zero x then 1%Z else 0%Z)) l in
  let l_i := map to_int l in
  Ok (mkPower n t d c l l_i).

(** [toeig(term[name]).tail(Ntail)]. *)
Definition composite_tail (term : json K) (name : string) (Ntail : Z)
  : result (list K) :=
  v <- subscript_const term name ;; a <- toeig v ;; tail a Ntail.

Definition gaussian_keys : list string :=
  ["n"; "t"; "d"; "eta"; "beta"; "gamma"; "epsilon"]%string.

Definition build_GERG2004 (term : json K) (dep : DepartureTerms)
  : result DepartureTerms :=
  _ <- require (all_same_length term gaussian_keys)
         "Lengths are not all identical in GERG term" ;;
  Npower <- (v <- subscript_const term "Npower" ;; get_int v) ;;
  nj <- subscript_const term "n" ;;
  let NGERG := (Z.of_nat (size nj) - Npower)%Z in
  eos <- composite_power term Npower ;;
  let dep := add_term dep (Power eos) in
  n <- composite_tail term "n" NGERG ;;
  t <- composite_tail term "t" NGERG ;;
  d <- composite_tail term "d" NGERG ;;
  eta <- composite_tail term "eta" NGERG ;;
  beta <- composite_tail term "beta" NGERG ;;
  gamma <- composite_tail term "gamma" NGERG ;;
  epsilon <- composite_tail term "epsilon" NGERG ;;
  Ok (add_term dep (GERG2004 (mkGERG2004 n t d eta beta gamma epsilon))).

Definition build_GaussianExponential (term : json K) (dep : DepartureTerms)
  : result DepartureTerms :=
  _ <- require (all_same_length term gaussian_keys)
         "Lengths are not all identical in Gaussian+Exponential term" ;;
  Npower <- (v <- subscript_const term "Npower" ;; get_int v) ;;
  nj <- subscript_const term "n" ;;
  let NGauss := (Z.of_nat (size nj) - Npower)%Z in
  eos <- composite_power term Npower ;;
  let dep := add_term dep (Power eos) in
  n <- composite_tail term "n" NGauss ;;
  t <- composite_tail term "t" NGauss ;;
  d <- composite_tail term "d" NGauss ;;
  eta <- composite_tail term "eta" NGauss ;;
  beta <- composite_tail term "beta" NGauss ;;
  gamma <- composite_tail term "gamma" NGauss ;;
  epsilon <- composite_tail term "epsilon" NGauss ;;
  Ok (add_term dep (Gaussian (mkGaussian n t d eta beta gamma epsilon))).

Definition build_departure_function (j : json K) : result DepartureTerms :=
  type <- (v <- subscript_const j "type" ;; get_string v) ;;
  let dep : DepartureTerms := [] in
  if String.eqb type "Exponential" then
    eos <- departure_build_power j ;; Ok (add_term dep (Power eos))
  else if String.eqb type "GERG-2004" || String.eqb type "GERG-2008" then
    build_GERG2004 j dep
  else if String.eqb type "Gaussian+Exponential" then
    build_GaussianExponential j dep
  else if String.eqb type "none" then
    Ok (add_term dep NullEOSTerm)
  else
    Err (invalid_argument (concat2 "Bad departure term type: " type)).

(** [get_departure_json(Name)] over the departure-function catalog, which
    the header reads from
    [dev/mixtures/mixture_departure_functions.json]. *)
Fixpoint get_departure_json (els : list (json K)) (Name : string) : result (json K) :=
  match els with
  | [] => Err (invalid_argument "Bad argument")
  | el :: rest =>
      v <- subscript el "Name" ;;
      if string_eq_json Name v then Ok el else get_departure_json rest Name
  end.

(** The body of the loops of [get_departure_function_matrix] for the pair
    [(i, j)]; [depcollection] is the content of the departure-function
    catalog. *)
Definition departure_matrix_body (depcollection BIPcollection : json K)
    (components : list string) (flags : json K) (i j : nat)
    (funcs : Matrix DepartureTerms) : result (Matrix DepartureTerms) :=
  BIP <- MultiFluidReducingFunction.get_BIPdep BIPcollection
           [nth i components EmptyString; nth j components EmptyString] flags ;;
  funcname <-
    (if contains BIP "function"
     then v <- subscript BIP "function" ;; get_string v
     else Ok EmptyString) ;;
  if negb (String.eqb funcname EmptyString) then
    jj <- get_departure_json (items depcollection) funcname ;;
    fij <- build_departure_function jj ;;
    let funcs := mset funcs i j fij in
    fji <- build_departure_function jj ;;
    let funcs := mset funcs j i fji in
    Ok funcs
  else
    let funcs := mset funcs i j (add_term (funcs i j) NullEOSTerm) in
    let funcs := mset funcs j i (add_term (funcs j i) NullEOSTerm) in
    Ok funcs.

(** [get_departure_function_matrix], the file read replaced by its
    contents [depcollection].  Every entry starts as an empty collection. *)
Definition get_departure_function_matrix (depcollection BIPcollection : json K)
    (components : list string) (flags : json K) : result (Matrix DepartureTerms) :=
  let N := List.length components in
  for_rangeM 0 N
    (fun i =>
       for_rangeM (i + 1) N
         (departure_matrix_body depcollection BIPcollection components flags i))
    (mconst []).
End Terms.

Arguments PowerEOSTerm K : clear implicits.
Arguments ExponentialEOSTerm K : clear implicits.
Arguments GaussianEOSTerm K : clear implicits.
Arguments GERG2004EOSTerm K : clear implicits.
Arguments Lemmon2005EOSTerm K : clear implicits.
Arguments GaoBEOSTerm K : clear implicits.
Arguments NonAnalyticEOSTerm K : clear implicits.
Arguments EOSTermVariant K : clear implicits.
Arguments EOSTerms K : clear implicits.
Arguments DepartureTerms K : clear implicits.

(** ** Pure-fluid term construction *)

Section EOSTermBuilders.
Context {K : Type} {SK : Scalar K}.

Definition allowed_types : list string :=
  ["ResidualHelmholtzPower"; "ResidualHelmholtzGaussian";
   "ResidualHelmholtzNonAnalytic"; "ResidualHelmholtzGaoB";
   "ResidualHelmholtzLemmon2005"; "ResidualHelmholtzExponential"]%string.

Definition isallowed (conventional_types : list string) (name : string) : bool :=
  existsb (String.eqb name) conventional_types.

(** The text listing the allowed types, joined by commas. *)
Definition allowed_list : string :=
  match allowed_types with
  | [] => EmptyString
  | a0 :: rest => fold_left (fun a s => concat2 a (concat2 "," s)) rest a0
  end.

(** The lambda [build_power] of [get_EOS_terms]. *)
Definition eos_build_power (term : json K) : result (PowerEOSTerm K) :=
  nj <- subscript term "n" ;;
  let N := size nj in
  let term := touched term "n" in
  n <- eigorzero term N "n" ;;
  t <- eigorzero term N "t" ;;
  let term := touched term "t" in
  d <- eigorzero term N "d" ;;
  let term := touched term "d" in
  lj <- subscript term "l" ;;
  ' (c, l) <-
    (if empty lj then
       (* exponential part not included *)
       Ok (repeat zero N, repeat zero N)
     else
       l <- toeig lj ;;
       Ok (c_from_l N l, l)) ;;
  let l_i := map to_int l in
  if non_integer_entry l_i l
  then Err (invalid_argument "Non-integer entry in l found")
  else Ok (mkPower n t d c l l_i).

(** [toeig(term[name])]. *)
Definition field (term : json K) (name : string) : result (list K) :=
  v <- subscript term name ;; toeig v.

Definition build_Lemmon2005 (term : json K) : result (Lemmon2005EOSTerm K) :=
  n <- field term "n" ;;
  t <- field term "t" ;;
  d <- field term "d" ;;
  m <- field term "m" ;;
  l <- field term "l" ;;
  let l_i := map to_int l in
  _ <- require (all_same_length term ["n"; "t"; "d"; "m"; "l"]%string)
         "Lengths are not all identical in Lemmon2005 term" ;;
  if non_integer_entry l_i l
  then Err (invalid_argument "Non-integer entry in l found")
  else Ok (mkLemmon2005 n t d l m l_i).

Definition build_gaussian (term : json K) : result (GaussianEOSTerm K) :=
  n <- field term "n" ;;
  t <- field term "t" ;;
  d <- field term "d" ;;
  eta <- field term "eta" ;;
  beta <- field term "beta" ;;
  gamma <- field term "gamma" ;;
  epsilon <- field term "epsilon" ;;
  _ <- require (all_same_length term gaussian_keys)
         "Lengths are not all identical in Gaussian term" ;;
  Ok (mkGaussian n t d eta beta gamma epsilon).

Definition build_exponential (term : json K) : result (ExponentialEOSTerm K) :=
  n <- field term "n" ;;
  t <- field term "t" ;;
  d <- field term "d" ;;
  g <- field term "g" ;;
  l <- field term "l" ;;
  let l_i := map to_int l in
  _ <- require (all_same_length term ["n"; "t"; "d"; "g"; "l"]%string)
         "Lengths are not all identical in exponential term" ;;
  Ok (mkExponential n t d g l l_i).

Definition build_GaoB (term : json K) : result (GaoBEOSTerm K) :=
  n <- field term "n" ;;
  t <- field term "t" ;;
  d <- field term "d" ;;
  eta <- field term "eta" ;;
  let eta := map neg eta in (* Watch out for this sign flip!! *)
  beta <- field term "beta" ;;
  gamma <- field term "gamma" ;;
  epsilon <- field term "epsilon" ;;
  b <- field term "b" ;;
  _ <- require (all_same_length term
                  ["n"; "t"; "d"; "eta"; "beta"; "gamma"; "epsilon"; "b"]%string)
         "Lengths are not all identical in GaoB term" ;;
  Ok (mkGaoB n t d eta beta gamma epsilon b).

Definition build_na (term : json K) : result (NonAnalyticEOSTerm K) :=
  n <- field term "n" ;;
  A <- field term "A" ;;
  B <- field term "B" ;;
  C <- field term "C" ;;
  D <- field term "D" ;;
  a <- field term "a" ;;
  b <- field term "b" ;;
  beta <- field term "beta" ;;
  _ <- require (all_same_length term
                  ["n"; "A"; "B"; "C"; "D"; "a"; "b"; "beta"]%string)
         "Lengths are not all identical in nonanalytic term" ;;
  Ok (mkNonAnalytic n A B C D a b beta).

Definition term_type (term : json K) : result string :=
  v <- subscript term "type" ;; get_string v.

(** The first loop of [get_EOS_terms]: every type tag must be allowed. *)
Definition check_type (term : json K) (u : unit) : result unit :=
  type <- term_type term ;;
  if negb (isallowed allowed_types type)
  then Err (invalid_argument
              (concat2 "Bad type:"
                 (concat2 type
                    (concat2 "; allowed types are: {" (concat2 allowed_list "}")))))
  else Ok u.

(** The second loop: one term is built and appended per record. *)
Definition build_term (term : json K) (container : EOSTerms K)
  : result (EOSTerms K) :=
  type <- term_type term ;;
  if String.eqb type "ResidualHelmholtzPower" then
    e <- eos_build_power term ;; Ok (add_term container (Power e))
  else if String.eqb type "ResidualHelmholtzGaussian" then
    e <- build_gaussian term ;; Ok (add_term container (Gaussian e))
  else if String.eqb type "ResidualHelmholtzNonAnalytic" then
    e <- build_na term ;; Ok (add_term container (NonAnalytic e))
  else if String.eqb type "ResidualHelmholtzLemmon2005" then
    e <- build_Lemmon2005 term ;; Ok (add_term container (Lemmon2005 e))
  else if String.eqb type "ResidualHelmholtzGaoB" then
    e <- build_GaoB term ;; Ok (add_term container (GaoB e))
  else if String.eqb type "ResidualHelmholtzExponential" then
    e <- build_exponential term ;; Ok (add_term container (Exponential e))
  else
    Err (invalid_argument (concat2 "Bad term type: " type)).

(** [get_EOS_terms], from the array [alphar] of the fluid file on: reading
    the file is outside the embedding. *)
Definition get_EOS_terms (alphar : json K) : result (EOSTerms K) :=
  _ <- foldM check_type (items alphar) tt ;;
  foldM build_term (items alphar) [].
End EOSTermBuilders.

(** ** The model adapter *)

Module MultiFluidAdapter.
Section Def.
Context {K : Type} {SK : Scalar K}.
Context {RF0 : Type} {RFI0 : ReducingFunction K RF0}.
Context {E1 : Type} {EE1 : EOS K E1} {E2 : Type} {EE2 : EOS K E2}.
Context {RF : Type} {RFI : ReducingFunction K RF}.
Context {E3 : Type} {EE3 : EOS K E3}.

Record t : Type := make_with_meta {
  meta : string;
  base : MultiFluid.t K RF0 E1 E2;
  redfunc : RF;
  depfunc : DepartureContribution.t K E3
}.

Definition make (base : MultiFluid.t K RF0 E1 E2) (redfunc : RF)
    (depfunc : DepartureContribution.t K E3) : t :=
  make_with_meta EmptyString base redfunc depfunc.

Definition set_meta (a : t) (m : string) : t :=
  make_with_meta m (base a) (redfunc a) (depfunc a).

Definition get_meta (a : t) : string := meta a.

Definition alphar (a : t) (T rho : K) (molefrac : list K) : K :=
  let Tred := forceeval (get_Tr (redfunc a) molefrac) in
  let rhored := forceeval (get_rhor (redfunc a) molefrac) in
  let delta := forceeval (rho / rhored)%K in
  let tau := forceeval (Tred / T)%K in
  let val :=
    (CorrespondingStatesContribution.alphar (MultiFluid.corr (base a)) tau delta molefrac
     + DepartureContribution.alphar (depfunc a) tau delta molefrac)%K in
  forceeval val.
End Def.
Arguments t K RF0 E1 E2 RF E3 : clear implicits.
End MultiFluidAdapter.

Section Mutants.
Context {K : Type} {SK : Scalar K}.
Context {E1 : Type} {EE1 : EOS K E1} {E2 : Type} {EE2 : EOS K E2}.
(** The evaluators of the term variants live in [multifluid_eosterms.hpp];
    here they are whatever [alphar] the term collections come with. *)
Context {EED : EOS K (DepartureTerms K)}.
(** [jj.dump()], the serialisation of the JSON library. *)
Variable dump : json K -> string.

Definition Model : Type := MultiFluid.t K (MultiFluidReducingFunction.t K) E1 E2.

(** The matrices the loops of the builders update. *)
Record mutant_state : Type := mkMutantState {
  ms_betaT : Matrix K;  (* [phiT] in the invariant builder *)
  ms_gammaT : Matrix K; (* [lambdaT] *)
  ms_betaV : Matrix K;  (* [phiV] *)
  ms_gammaV : Matrix K; (* [lambdaV] *)
  ms_F : Matrix K;
  ms_funcs : Matrix (DepartureTerms K)
}.

Definition number_at (BIP : json K) (key : string) : result K :=
  v <- at_ BIP key ;; get_double v.

(** [jj[std::to_string(i)][std::to_string(j)]] on the [const] document. *)
Definition entry_of (jj : json K) (i j : nat) : result (json K) :=
  row <- subscript_const jj (to_string i) ;;
  subscript_const row (to_string j).

Definition mutant_body (red : MultiFluidReducingFunction.t K) (jj : json K)
    (i j : nat) (s : mutant_state) : result mutant_state :=
  let '(mkMutantState betaT gammaT betaV gammaV F funcs) := s in
  if i =? j then
    let funcs := mset funcs i i (add_term (funcs i i) NullEOSTerm) in
    Ok (mkMutantState betaT gammaT betaV gammaV F funcs)
  else
    (* Extract the given entry *)
    entry <- entry_of jj i j ;;
    BIP <- subscript entry "BIP" ;;
    let entry := touched entry "BIP" in
    (* Set the reducing function parameters in the copy *)
    x <- number_at BIP "betaT" ;;
    let betaT := mset betaT i j x in
    let betaT := mset betaT j i (one / MultiFluidReducingFunction.betaT red i j)%K in
    x <- number_at BIP "betaV" ;;
    let betaV := mset betaV i j x in
    let betaV := mset betaV j i (one / MultiFluidReducingFunction.betaV red i j)%K in
    x <- number_at BIP "gammaT" ;;
    let gammaT := mset gammaT i j x in
    let gammaT := mset gammaT j i (gammaT i j) in
    x <- number_at BIP "gammaV" ;;
    let gammaV := mset gammaV i j x in
    let gammaV := mset gammaV j i (gammaV i j) in
    (* Build the matrix of F and departure functions *)
    dep <- subscript entry "departure" ;;
    x <- number_at BIP "Fij" ;;
    let F := mset F i j x in
    let F := mset F j i (F i j) in
    fij <- build_departure_function dep ;;
    let funcs := mset funcs i j fij in
    fji <- build_departure_function dep ;;
    let funcs := mset funcs j i fji in
    Ok (mkMutantState betaT gammaT betaV gammaV F funcs).

Definition build_multifluid_mutant (model : Model) (jj : json K)
  : result (MultiFluidAdapter.t K (MultiFluidReducingFunction.t K) E1 E2
              (MultiFluidReducingFunction.t K) (DepartureTerms K)) :=
  let red := MultiFluid.redfunc model in
  let N := List.length (MultiFluidReducingFunction.Tc red) in
  let Tc := MultiFluidReducingFunction.Tc red in
  let vc := MultiFluidReducingFunction.vc red in
  let s0 :=
    mkMutantState
      (MultiFluidReducingFunction.betaT red) (MultiFluidReducingFunction.gammaT red)
      (MultiFluidReducingFunction.betaV red) (MultiFluidReducingFunction.gammaV red)
      (* Allocate the matrices of default models and F factors *)
      (mconst zero) (mconst []) in
  s <- for_rangeM 0 N (fun i => for_rangeM i N (fun j => mutant_body red jj i j)) s0 ;;
  let newred :=
    MultiFluidReducingFunction.make (ms_betaT s) (ms_gammaT s) (ms_betaV s)
      (ms_gammaV s) Tc vc in
  let newdep := DepartureContribution.make (ms_F s) (ms_funcs s) in
  let mfa := MultiFluidAdapter.make model newred newdep in
  (* Store the departure term in the adapted multifluid class *)
  Ok (MultiFluidAdapter.set_meta mfa (dump jj)).

Definition invariant_body (jj : json K) (i j : nat) (s : mutant_state)
  : result mutant_state :=
  let '(mkMutantState phiT lambdaT phiV lambdaV F funcs) := s in
  if i =? j then
    let funcs := mset funcs i i (add_term (funcs i i) NullEOSTerm) in
    Ok (mkMutantState phiT lambdaT phiV lambdaV F funcs)
  else
    (* Extract the given entry *)
    entry <- entry_of jj i j ;;
    BIP <- subscript entry "BIP" ;;
    let entry := touched entry "BIP" in
    (* Set the reducing function parameters in the copy *)
    x <- number_at BIP "phiT" ;;
    let phiT := mset phiT i j x in
    let phiT := mset phiT j i (phiT i j) in
    x <- number_at BIP "lambdaT" ;;
    let lambdaT := mset lambdaT i j x in
    let lambdaT := mset lambdaT j i (- lambdaT i j)%K in
    x <- number_at BIP "phiV" ;;
    let phiV := mset phiV i j x in
    let phiV := mset phiV j i (phiV i j) in
    x <- number_at BIP "lambdaV" ;;
    let lambdaV := mset lambdaV i j x in
    let lambdaV := mset lambdaV j i (- lambdaV i j)%K in
    (* Build the matrix of F and departure functions *)
    dep <- subscript entry "departure" ;;
    x <- number_at BIP "Fij" ;;
    let F := mset F i j x in
    let F := mset F j i (F i j) in
    fij <- build_departure_function dep ;;
    let funcs := mset funcs i j fij in
    fji <- build_departure_function dep ;;
    let funcs := mset funcs j i fji in
    Ok (mkMutantState phiT lambdaT phiV lambdaV F funcs).

Definition build_multifluid_mutant_invariant (model : Model) (jj : json K)
  : result (MultiFluidAdapter.t K (MultiFluidReducingFunction.t K) E1 E2
              (MultiFluidInvariantReducingFunction.t K) (DepartureTerms K)) :=
  let red := MultiFluid.redfunc model in
  let N := List.length (MultiFluidReducingFunction.Tc red) in
  if negb (N =? 2) then
    Err (invalid_argument
           "Only binary mixtures are currently supported with invariant departure functions")
  else
    let Tc := MultiFluidReducingFunction.Tc red in
    let vc := MultiFluidReducingFunction.vc red in
    let s0 :=
      mkMutantState
        (* phiT.setOnes(); phiV.setOnes(); lambdaV.setZero(); lambdaV.setZero(); *)
        (mconst one) (MultiFluidReducingFunction.gammaT red)
        (mconst one) (mconst zero)
        (mconst zero) (mconst []) in
    s <- for_rangeM 0 N (fun i => for_rangeM i N (fun j => invariant_body jj i j)) s0 ;;
    let newred :=
      MultiFluidInvariantReducingFunction.make (ms_betaT s) (ms_gammaT s) (ms_betaV s)
        (ms_gammaV s) Tc vc in
    let newdep := DepartureContribution.make (ms_F s) (ms_funcs s) in
    let mfa := MultiFluidAdapter.make model newred newdep in
    Ok (MultiFluidAdapter.set_meta mfa (dump jj)).
End Mutants.

(** ** The formulas of the specification

    Sums are taken from the left, starting at zero, over the indices or index
    pairs in increasing order. *)

Definition sum_list {K : Type} {SK : Scalar K} (l : list K) : K :=
  fold_left add l zero.

(** The pairs [(i, j)] with [i < j < N], row by row. *)
Definition pairs_upper (N : nat) : list (nat * nat) :=
  flat_map (fun i => map (pair i) (seq (i + 1) (N - (i + 1)))) (seq 0 N).

(** The pairs [(i, j)] with [i <= j < N], row by row. *)
Definition pairs_diag (N : nat) : list (nat * nat) :=
  flat_map (fun i => map (pair i) (seq i (N - i))) (seq 0 N).

Section SpecFormulas.
Context {K : Type} {SK : Scalar K}.

Local Notation "v [[ i ]]" := (nth i v zero) (at level 1, format "v [[ i ]]").

(** Sum over the components [i] of [z_i * EOS_i.alphar(tau, delta)]. *)
Definition corresponding_states_sum {E : Type} {EE : EOS K E}
    (EOSs : list E) (tau delta : K) (z : list K) : K :=
  sum_list
    (map (fun i =>
            (z[[i]] * match nth_error EOSs i with
                      | Some e => eos_alphar e tau delta
                      | None => zero
                      end)%K)
       (seq 0 (List.length z))).

(** Sum over the pairs [i < j] of
    [z_i * z_j * F(i,j) * funcs[i][j].alphar(tau, delta)]. *)
Definition departure_sum {E : Type} {EE : EOS K E}
    (F : Matrix K) (funcs : Matrix E) (tau delta : K) (z : list K) : K :=
  sum_list
    (map (fun p : nat * nat =>
            let (i, j) := p in
            (z[[i]] * z[[j]] * F i j * eos_alphar (funcs i j) tau delta)%K)
       (pairs_upper (List.length z))).

(** [Y(z, Yc, beta, Yij)]: the sum over [i] of [z_i^2 * Yc_i], plus twice
    the sum over the pairs [i < j] of
    [z_i z_j (z_i + z_j) / (beta(i,j)^2 z_i + z_j) * Yij(i,j)]. *)
Definition reducing_formula (z Yc : list K) (beta Yij : Matrix K) : K :=
  (sum_list (map (fun i => z[[i]] * z[[i]] * Yc[[i]]) (seq 0 (List.length z)))
   + of_int 2
     * sum_list
         (map (fun p : nat * nat =>
                 let (i, j) := p in
                 z[[i]] * z[[j]] * (z[[i]] + z[[j]])
                 / (beta i j * beta i j * z[[i]] + z[[j]]) * Yij i j)
            (pairs_upper (List.length z))))%K.

(** [YT(i,j) = betaT(i,j) * gammaT(i,j) * sqrt(Tc_i * Tc_j)]. *)
Definition YT_formula (betaT gammaT : Matrix K) (Tc : list K) : Matrix K :=
  fun i j => (betaT i j * gammaT i j * sqrt_ (Tc[[i]] * Tc[[j]]))%K.

(** [Yv(i,j) = (1/8) * betaV(i,j) * gammaV(i,j) * (vc_i^(1/3) + vc_j^(1/3))^3]. *)
Definition Yv_formula (betaV gammaV : Matrix K) (vc : list K) : Matrix K :=
  fun i j =>
    let s := (cbrt vc[[i]] + cbrt vc[[j]])%K in
    (one / of_int 8 * betaV i j * gammaV i j * (s * s * s))%K.
End SpecFormulas.

(** ** Catalog records, as the specification speaks of them *)

Section CatalogRecords.
Context {K : Type} {SK : Scalar K}.

(** The two names a pairwise record stores. *)
Definition names_of (el : json K) : option (string * string) :=
  match el with
  | JObj m =>
      match assoc m "Name1", assoc m "Name2" with
      | Some (JStr a), Some (JStr b) => Some (a, b)
      | _, _ => None
      end
  | _ => None
  end.

(** A record matches the pair [(c0, c1)]: its names are the pair's, in
    either order, whatever the case of the letters. *)
Definition matches_pair (c0 c1 : string) (el : json K) : bool :=
  match names_of el with
  | Some (a, b) =>
      (String.eqb (toupper c0) (toupper a) && String.eqb (toupper c1) (toupper b))
      || (String.eqb (toupper c0) (toupper b) && String.eqb (toupper c1) (toupper a))
  | None => false
  end.

(** The catalog is a list of records naming two components each, and none
    of them matches the pair. *)
Definition unmatched (collection : json K) (c0 c1 : string) : bool :=
  forallb (fun el =>
             match names_of el with
             | Some _ => negb (matches_pair c0 c1 el)
             | None => false
             end)
    (items collection).

(** The record carries no departure-function name: the key "function" is
    absent, or holds the empty string. *)
Definition no_function_name (BIP : json K) : bool :=
  match BIP with
  | JObj m =>
      match assoc m "function" with
      | None => true
      | Some (JStr s) => String.eqb s EmptyString
      | Some _ => false
      end
  | _ => true
  end.

(** An error message names a component when the name occurs in it. *)
Definition names_component (e : exn) (c : string) : bool :=
  match e with
  | invalid_argument msg => occurs_in c msg
  | _ => false
  end.
End CatalogRecords.

(** ** Building a model from catalogs *)

Section BuildModel.
Context {K : Type} {SK : Scalar K}.

(** [get_EOSs], from the [alphar] arrays of the fluid files on. *)
Definition get_EOSs (alphars : list (json K)) : result (list (EOSTerms K)) :=
  foldM (fun alphar EOSs => term <- get_EOS_terms alphar ;; Ok (EOSs ++ [term]))
    alphars [].

(** [build_multifluid_model], with the contents of the files it reads as
    arguments: the critical temperatures and volumes [get_Tcvc] extracts,
    the [alphar] arrays of the fluid files, the departure-function catalog
    and the catalog of binary pairs. *)
Definition build_multifluid_model (components : list string)
    (Tc vc : list K) (alphars : list (json K))
    (depcollection BIPcollection flags : json K)
  : result (MultiFluid.t K (MultiFluidReducingFunction.t K) (EOSTerms K)
              (DepartureTerms K)) :=
  (* Pure fluids *)
  EOSs <- get_EOSs alphars ;;
  (* Things related to the mixture *)
  F <- MultiFluidReducingFunction.get_F_matrix BIPcollection components flags ;;
  funcs <- get_departure_function_matrix depcollection BIPcollection components flags ;;
  ' (betaT, gammaT, betaV, gammaV) <-
    MultiFluidReducingFunction.get_BIP_matrices BIPcollection components flags ;;
  let redfunc := MultiFluidReducingFunction.make betaT gammaT betaV gammaV Tc vc in
  Ok (MultiFluid.make redfunc (CorrespondingStatesContribution.make EOSs)
        (DepartureContribution.make F funcs)).
End BuildModel.

(** ** Contributions at a state point

    The two summands of [val] in [alphar(T, rho, molefrac)], as functions of
    the state point: the reducing function in force fixes [tau] and
    [delta]. *)

Section Contributions.
Context {K : Type} {SK : Scalar K}.
Context {RF : Type} {RFI : ReducingFunction K RF}.
Context {E : Type} {EE : EOS K E}.

Definition tau_at (redfunc : RF) (T : K) (molefrac : list K) : K :=
  (get_Tr redfunc molefrac / T)%K.

Definition delta_at (redfunc : RF) (rho : K) (molefrac : list K) : K :=
  (rho / get_rhor redfunc molefrac)%K.

(** The corresponding-states summand of [alphar(T, rho, molefrac)]. *)
Definition corresponding_states_at (redfunc : RF)
    (corr : CorrespondingStatesContribution.t E) (T rho : K) (molefrac : list K) : K :=
  CorrespondingStatesContribution.alphar corr
    (tau_at redfunc T molefrac) (delta_at redfunc rho molefrac) molefrac.

(** The share of component [i] in it. *)
Definition pure_contribution_at (redfunc : RF)
    (corr : CorrespondingStatesContribution.t E) (T rho : K) (molefrac : list K)
    (i : nat) : K :=
  (nth i molefrac zero
   * CorrespondingStatesContribution.alphari corr
       (tau_at redfunc T molefrac) (delta_at redfunc rho molefrac) i)%K.
End Contributions.

(** ** Example documents *)

Section Examples.
Local Open Scope string_scope.

(** A catalog with one record, for methane and ethane. *)
Definition methane_ethane : json Q :=
  JObj [("Name1", JStr "Methane"); ("Name2", JStr "Ethane");
        ("betaT", JNum (2 # 1)); ("gammaT", JNum (3 # 1));
        ("betaV", JNum (4 # 1)); ("gammaV", JNum (5 # 1));
        ("F", JNum (1 # 1))].

Definition example_catalog : json Q := JArr [methane_ethane].

Definition estimate_flags : json Q := JObj [("estimate", JStr "Lorentz-Berthelot")].

(** An override document for a binary model. *)
Definition override_entry (betaT gammaT betaV gammaV Fij : Q) : json Q :=
  JObj [("0",
         JObj [("1",
                JObj [("BIP",
                       JObj [("betaT", JNum betaT); ("gammaT", JNum gammaT);
                             ("betaV", JNum betaV); ("gammaV", JNum gammaV);
                             ("Fij", JNum Fij)]);
                      ("departure", JObj [("type", JStr "none")])])])].

(** A binary model with the dummy equation of state for both components
    and identity mixing parameters. *)
Definition dummy_binary_model
  : MultiFluid.t Q (MultiFluidReducingFunction.t Q) DummyEOS (DepartureTerms Q) :=
  MultiFluid.make
    (MultiFluidReducingFunction.make (mconst 1%Q) (mconst 1%Q) (mconst 1%Q)
       (mconst 1%Q) [1%Q; 1%Q] [1%Q; 1%Q])
    (CorrespondingStatesContribution.make [mkDummyEOS; mkDummyEOS])
    (DepartureContribution.make (mconst 0%Q) (mconst [NullEOSTerm])).

(** [jj.dump()] is immaterial to the examples. *)
Definition no_dump : json Q -> string := fun _ => EmptyString.
End Examples.

Section MoreExamples.
Local Open Scope string_scope.

Definition nums (l : list Q) : json Q := JArr (map JNum l).

(** A pure-fluid power term whose [t] array is shorter than [n] and [d]. *)
Definition ragged_power_term : json Q :=
  JObj [("type", JStr "ResidualHelmholtzPower");
        ("n", nums [1; 2]); ("t", nums [1]); ("d", nums [1; 1])]%Q.

(** The same arrays as a departure function of type "Exponential". *)
Definition ragged_departure_term : json Q :=
  JObj [("type", JStr "Exponential");
        ("n", nums [1; 2]); ("t", nums [1]); ("d", nums [1; 1])]%Q.

(** Terms whose [l] array holds 3/2. *)
Definition fractional_exponential_term : json Q :=
  JObj [("type", JStr "ResidualHelmholtzExponential");
        ("n", nums [1]); ("t", nums [1]); ("d", nums [1]); ("g", nums [1]);
        ("l", nums [3 # 2])]%Q.

Definition fractional_power_term : json Q :=
  JObj [("type", JStr "ResidualHelmholtzPower");
        ("n", nums [1]); ("t", nums [1]); ("d", nums [1]); ("l", nums [3 # 2])]%Q.

Definition fractional_Lemmon2005_term : json Q :=
  JObj [("type", JStr "ResidualHelmholtzLemmon2005");
        ("n", nums [1]); ("t", nums [1]); ("d", nums [1]); ("m", nums [1]);
        ("l", nums [3 # 2])]%Q.

Definition fractional_GERG_term : json Q :=
  JObj [("type", JStr "GERG-2008"); ("Npower", JNum 1);
        ("n", nums [1; 2]); ("t", nums [1; 2]); ("d", nums [1; 1]);
        ("eta", nums [1; 1]); ("beta", nums [1; 1]); ("gamma", nums [1; 1]);
        ("epsilon", nums [1; 1]); ("l", nums [3 # 2; 1])]%Q.

(** A record for methane and ethane with [F = 1], and no key "function". *)
Definition two_components : list string := ["Methane"; "Ethane"].

(** A binary model built from [example_catalog], without pure-fluid terms. *)
Definition catalog_model
  : result (MultiFluid.t Q (MultiFluidReducingFunction.t Q) (EOSTerms Q)
              (DepartureTerms Q)) :=
  build_multifluid_model two_components [1; 1]%Q [1; 1]%Q [JArr []; JArr []]
    (JArr []) example_catalog JNull.
End MoreExamples.

(** Modelled from the spec: the Null term returns 0 for any input, and a term
    collection evaluates to the sum of its members.  [null_terms_alphar]
    evaluates a collection of Null terms this way; the evaluators of the other
    variants live in [multifluid_eosterms.hpp]. *)
Definition null_terms_alphar {K : Type} {SK : Scalar K} : EOS K (DepartureTerms K) :=
  fun terms tau delta => fold_left (fun acc _ => (acc + zero)%K) terms zero.

(** The composition of pure component [k] in an [N]-component mixture. *)
Definition pure_composition (N k : nat) : list R :=
  map (fun i => if i =? k then 1%R else 0%R) (seq 0 N).

(** ** What the builders' loops write

    The loops over pairs write at the pair visited and at its mirror image.
    [fill_pair] is one such visit with values that depend on the pair alone;
    [BIP_entries] and [mutant_entries] read all the matrices of a loop state
    at one index pair. *)

Definition fill_pair {A : Type} (f g : nat -> nat -> A) (M : Matrix A) (p : nat * nat)
  : Matrix A :=
  mset (mset M (fst p) (snd p) (f (fst p) (snd p))) (snd p) (fst p)
    (g (fst p) (snd p)).

Definition BIP_entries {K : Type} {SK : Scalar K}
    (s : MultiFluidReducingFunction.BIP_matrices (K := K)) (a b : nat)
  : K * K * K * K :=
  let '(betaT, gammaT, betaV, gammaV) := s in
  (betaT a b, gammaT a b, betaV a b, gammaV a b).

Definition mutant_entries {K : Type} {SK : Scalar K}
    (s : mutant_state (K := K)) (a b : nat)
  : K * K * K * K * K * DepartureTerms K :=
  (ms_betaT s a b, ms_gammaT s a b, ms_betaV s a b, ms_gammaV s a b,
   ms_F s a b, ms_funcs s a b).

(** Splits a successful sequence of binds into its steps. *)
Ltac bind_ok H :=
  repeat match type of H with
         | bind ?c _ = Ok _ =>
             let E := fresh "E" in
             destruct c eqn:E; [cbn [bind] in H | discriminate H]
         end.

(** ** Critical properties from the fluid files

    [get_Tcvc] opens one file per component.  The file system is a map from
    paths to parsed documents, [None] where the file cannot be opened. *)

Section Tcvc.
Context {K : Type} {SK : Scalar K}.

(** [j[idx]] on a document the caller owns: null becomes an array, and an
    array is filled with nulls up to [idx]. *)
Definition subscript_index (j : json K) (idx : nat) : result (json K) :=
  match j with
  | JNull => Ok JNull
  | JArr l => Ok (nth idx l JNull)
  | _ => Err type_error
  end.

Definition fluid_path (coolprop_root c : string) : string :=
  concat2 coolprop_root (concat2 "/dev/fluids/" (concat2 c ".json")).

(** The body of the loop of [get_Tcvc]: the state is [(Tc, vc, i)]. *)
Definition Tcvc_body (files : string -> option (json K)) (coolprop_root : string)
    (c : string) (s : list K * list K * nat) : result (list K * list K * nat) :=
  let '(Tc, vc, i) := s in
  let path := fluid_path coolprop_root c in
  match files path with
  | None => Err (invalid_argument (concat2 "Load path is invalid: " path))
  | Some j =>
      EOS <- subscript j "EOS" ;;
      EOS0 <- subscript_index EOS 0 ;;
      STATES <- subscript EOS0 "STATES" ;;
      red <- subscript STATES "reducing" ;;
      Tc_ <- (v <- subscript red "T" ;; get_double v) ;;
      rhoc_ <- (v <- subscript red "rhomolar" ;; get_double v) ;;
      let Tc := set_nth Tc i Tc_ in
      let vc := set_nth vc i (one / rhoc_)%K in
      Ok (Tc, vc, i + 1)
  end.

Definition get_Tcvc (files : string -> option (json K)) (coolprop_root : string)
    (components : list string) : result (list K * list K) :=
  let N := List.length components in
  ' (Tc, vc, _) <-
    foldM (Tcvc_body files coolprop_root) components (repeat zero N, repeat zero N, 0) ;;
  Ok (Tc, vc).

(** What a fluid file holds for [get_Tcvc]: the reducing temperature and
    molar density under [EOS[0].STATES.reducing]. *)
Definition reducing_state (j : json K) : result (K * K) :=
  EOS <- subscript j "EOS" ;;
  EOS0 <- subscript_index EOS 0 ;;
  STATES <- subscript EOS0 "STATES" ;;
  red <- subscript STATES "reducing" ;;
  Tc_ <- (v <- subscript red "T" ;; get_double v) ;;
  rhoc_ <- (v <- subscript red "rhomolar" ;; get_double v) ;;
  Ok (Tc_, rhoc_).
End Tcvc.

(** ** Further notions for the properties below *)

Section FurtherNotions.
Context {K : Type} {SK : Scalar K}.

(** Every element of the catalog is a record naming two components. *)
Definition well_formed_catalog (collection : json K) : bool :=
  forallb (fun el => match names_of el with Some _ => true | None => false end)
    (items collection).

(** The first record of the catalog matching the pair. *)
Definition first_match (collection : json K) (c0 c1 : string) : option (json K) :=
  find (matches_pair c0 c1) (items collection).

(** All the ordered pairs [(i, j)] with [i, j < N], row by row. *)
Definition pairs_all (N : nat) : list (nat * nat) :=
  flat_map (fun i => map (pair i) (seq 0 N)) (seq 0 N).

(** The type tags [build_departure_function] knows. *)
Definition departure_types : list string :=
  ["Exponential"; "GERG-2004"; "GERG-2008"; "Gaussian+Exponential"; "none"]%string.

(** [std::string type = j["type"]] on a [const] record. *)
Definition type_of (j : json K) : result string :=
  v <- subscript_const j "type" ;; get_string v.

(** [toeig(term[name])] on a [const] record. *)
Definition array_of (term : json K) (name : string) : result (list K) :=
  v <- subscript_const term name ;; toeig v.
End FurtherNotions.

(** An override document for the invariant builder. *)
Definition invariant_override_entry (phiT lambdaT phiV lambdaV Fij : Q) : json Q :=
  JObj [("0",
         JObj [("1",
                JObj [("BIP",
                       JObj [("phiT", JNum phiT); ("lambdaT", JNum lambdaT);
                             ("phiV", JNum phiV); ("lambdaV", JNum lambdaV);
                             ("Fij", JNum Fij)]);
                      ("departure", JObj [("type", JStr "none")])])])]%string.

(** A binary model over the reals with the dummy equation of state for the
    components and for the departure functions. *)
Definition dummy_real_model (F01 : R)
  : MultiFluid.t R (MultiFluidReducingFunction.t R) DummyEOS DummyEOS :=
  MultiFluid.make
    (MultiFluidReducingFunction.make (mconst 1%R) (mconst 1%R) (mconst 1%R)
       (mconst 1%R) [1; 2]%R [1; 1]%R)
    (CorrespondingStatesContribution.make [mkDummyEOS; mkDummyEOS])
    (DepartureContribution.make (mconst F01) (mconst mkDummyEOS)).

(** A fluid file holding a reducing state, and a file system with the files
    of two components. *)
Definition fluid_file (T rhomolar : Q) : json Q :=
  JObj [("EOS",
         JArr [JObj [("STATES",
                      JObj [("reducing",
                             JObj [("T", JNum T);
                                   ("rhomolar", JNum rhomolar)])])]])]%string.

Definition example_files (path : string) : option (json Q) :=
  if String.eqb path "root/dev/fluids/Methane.json" then Some (fluid_file 190 10)
  else if String.eqb path "root/dev/fluids/Ethane.json" then Some (fluid_file 305 7)
  else None.

(** A pure-fluid power term over the reals with exponents [l] = 0 and 2. *)
Definition real_power_term : json R :=
  JObj [("type", JStr "ResidualHelmholtzPower");
        ("n", JArr [JNum 1; JNum 2]); ("t", JArr [JNum 1; JNum 1]);
        ("d", JArr [JNum 1; JNum 3]); ("l", JArr [JNum 0; JNum 2])]%R%string.

Definition real_power_eos : PowerEOSTerm R :=
  mkPower [1; 2]%R [1; 1]%R [1; 3]%R [0; 1]%R [0; 2]%R [0; 2]%Z.

(** ** Terms of a pure fluid by type tag *)

Section TermTags.
Context {K : Type} {SK : Scalar K}.

(** The variant [get_EOS_terms] builds for a record of type [type]. *)
Definition built_from (type : string) (e : EOSTermVariant K) : bool :=
  match e with
  | Power _ => String.eqb type "ResidualHelmholtzPower"
  | Gaussian _ => String.eqb type "ResidualHelmholtzGaussian"
  | NonAnalytic _ => String.eqb type "ResidualHelmholtzNonAnalytic"
  | Lemmon2005 _ => String.eqb type "ResidualHelmholtzLemmon2005"
  | GaoB _ => String.eqb type "ResidualHelmholtzGaoB"
  | Exponential _ => String.eqb type "ResidualHelmholtzExponential"
  | GERG2004 _ | NullEOSTerm => false
  end.

(** The coefficient arrays a term holds. *)
Definition term_arrays (e : EOSTermVariant K) : list (list K) :=
  match e with
  | Power p => [pw_n p; pw_t p; pw_d p; pw_c p; pw_l p]
  | Exponential x => [ex_n x; ex_t x; ex_d x; ex_g x; ex_l x]
  | Gaussian g =>
      [ga_n g; ga_t g; ga_d g; ga_eta g; ga_beta g; ga_gamma g; ga_epsilon g]
  | GERG2004 g =>
      [ge_n g; ge_t g; ge_d g; ge_eta g; ge_beta g; ge_gamma g; ge_epsilon g]
  | Lemmon2005 x => [le_n x; le_t x; le_d x; le_l x; le_m x]
  | GaoB g =>
      [gb_n g; gb_t g; gb_d g; gb_eta g; gb_beta g; gb_gamma g; gb_epsilon g;
       gb_b g]
  | NonAnalytic x =>
      [na_n x; na_A x; na_B x; na_C x; na_D x; na_a x; na_b x; na_beta x]
  | NullEOSTerm => []
  end.

Definition is_power (e : EOSTermVariant K) : bool :=
  match e with Power _ => true | _ => false end.

(** The message of the first loop of [get_EOS_terms]. *)
Definition bad_type_message (type : string) : string :=
  concat2 "Bad type:"
    (concat2 type (concat2 "; allowed types are: {" (concat2 allowed_list "}"))).
End TermTags.

(** The terms of a fluid file: a power term whose exponent is 3/2, which
    [build_power] refuses, followed by a record of an unknown type. *)
Definition unknown_type_terms : json Q :=
  JArr [fractional_power_term;
        JObj [("type", JStr "ResidualHelmholtzUnknown")]]%string.

(** The terms of a fluid file with a power and a Gaussian term. *)
Definition two_terms : json Q :=
  JArr [JObj [("type", JStr "ResidualHelmholtzPower");
              ("n", nums [1; 2]); ("t", nums [1; 1]); ("d", nums [1; 3]);
              ("l", nums [0; 2])];
        JObj [("type", JStr "ResidualHelmholtzGaussian");
              ("n", nums [1]); ("t", nums [1]); ("d", nums [1]);
              ("eta", nums [1]); ("beta", nums [1]); ("gamma", nums [1]);
              ("epsilon", nums [1])]]%Q%string.

(** * Properties *)

(** ** Loops as folds over index lists *)

Lemma fold_left_flat_map {A B S : Type} (f : S -> B -> S) (g : A -> list B)
    (l : list A) (s : S) :
  fold_left f (flat_map g l) s = fold_left (fun s a => fold_left f (g a) s) l s.
Proof.
  revert s. induction l as [|a l IH]; intro s; simpl.
  - reflexivity.
  - rewrite fold_left_app. apply IH.
Qed.

Lemma fold_left_map_list {A B S : Type} (f : S -> B -> S) (h : A -> B)
    (l : list A) (s : S) :
  fold_left f (map h l) s = fold_left (fun s a => f s (h a)) l s.
Proof.
  revert s. induction l as [|a l IH]; intro s; simpl; [reflexivity | apply IH].
Qed.

Lemma fold_left_ext_in {A S : Type} (f g : S -> A -> S) (l : list A) (s : S) :
  (forall s a, In a l -> f s a = g s a) ->
  fold_left f l s = fold_left g l s.
Proof.
  revert s. induction l as [|a l IH]; intros s Hfg; simpl.
  - reflexivity.
  - rewrite Hfg by (left; reflexivity).
    apply IH. intros s' a' Hin. apply Hfg. right. exact Hin.
Qed.

(** The nested loops [for i in [0,N): for j in [i+1,N)] visit [pairs_upper N]. *)
Lemma for_range_pairs_upper {S : Type} (N : nat) (body : nat -> nat -> S -> S) (s : S) :
  for_range 0 N (fun i => for_range (i + 1) N (body i)) s
  = fold_left (fun s p => body (fst p) (snd p) s) (pairs_upper N) s.
Proof.
  unfold for_range, pairs_upper.
  rewrite fold_left_flat_map, Nat.sub_0_r.
  apply fold_left_ext_in. intros s' i _.
  rewrite fold_left_map_list. reflexivity.
Qed.

(** Stopping the outer loop one index early visits the same pairs. *)
Lemma pairs_upper_short (N : nat) :
  flat_map (fun i => map (pair i) (seq (i + 1) (N - (i + 1)))) (seq 0 (N - 1))
  = pairs_upper N.
Proof.
  unfold pairs_upper. destruct N as [|n].
  - reflexivity.
  - replace (S n - 1) with n by lia.
    rewrite seq_S, flat_map_app.
    cbn [flat_map]. rewrite app_nil_r.
    replace (S n - (0 + n + 1)) with 0 by lia.
    cbn [seq map]. rewrite app_nil_r. reflexivity.
Qed.

Lemma for_range_pairs_upper_short {S : Type} (N : nat) (body : nat -> nat -> S -> S)
    (s : S) :
  for_range 0 (N - 1) (fun i => for_range (i + 1) N (body i)) s
  = fold_left (fun s p => body (fst p) (snd p) s) (pairs_upper N) s.
Proof.
  rewrite <- pairs_upper_short. unfold for_range.
  rewrite fold_left_flat_map, Nat.sub_0_r.
  apply fold_left_ext_in. intros s' i _.
  rewrite fold_left_map_list. reflexivity.
Qed.

Lemma in_pairs_upper (N i j : nat) :
  In (i, j) (pairs_upper N) <-> i < j /\ j < N.
Proof.
  unfold pairs_upper. rewrite in_flat_map. split.
  - intros [i' [Hi' Hin]]. apply in_map_iff in Hin.
    destruct Hin as [j' [Heq Hj']]. inversion Heq; subst.
    apply in_seq in Hj'. lia.
  - intros [Hij HjN]. exists i. split.
    + apply in_seq. lia.
    + apply in_map. apply in_seq. lia.
Qed.

Lemma NoDup_pairs_upper (N : nat) : NoDup (pairs_upper N).
Proof.
  unfold pairs_upper.
  assert (Hgen : forall l, NoDup l ->
            NoDup (flat_map (fun i => map (pair i) (seq (i + 1) (N - (i + 1)))) l)).
  { induction l as [|i l IH]; intro Hnd; simpl.
    - constructor.
    - inversion Hnd as [|? ? Hnotin Hnd']; subst.
      apply NoDup_app.
      + apply NoDup_map_inv with (f := snd).
        rewrite map_map. simpl. rewrite map_id. apply seq_NoDup.
      + apply IH. exact Hnd'.
      + intros [a b] Hin1 Hin2.
        apply in_map_iff in Hin1. destruct Hin1 as [j [Heq _]].
        inversion Heq; subst.
        apply in_flat_map in Hin2. destruct Hin2 as [i' [Hi' Hin2]].
        apply in_map_iff in Hin2. destruct Hin2 as [j' [Heq' _]].
        inversion Heq'; subst. contradiction. }
  apply Hgen. apply seq_NoDup.
Qed.

(** ** Sums computed by accumulation *)

Section Accumulation.
Context {K : Type} {SK : Scalar K}.

Lemma accumulate_sum {A : Type} (f : A -> K) (l : list A) (acc : K) :
  fold_left (fun acc a => (acc + f a)%K) l acc = fold_left add (map f l) acc.
Proof.
  revert acc. induction l as [|a l IH]; intro acc; simpl; [reflexivity | apply IH].
Qed.

Lemma for_range_sum (N : nat) (f : nat -> K) :
  for_range 0 N (fun i acc => (acc + f i)%K) zero = sum_list (map f (seq 0 N)).
Proof.
  unfold for_range, sum_list. rewrite Nat.sub_0_r. apply accumulate_sum.
Qed.

Lemma for_range_pairs_sum (N : nat) (f : nat -> nat -> K) :
  for_range 0 N (fun i => for_range (i + 1) N (fun j acc => (acc + f i j)%K)) zero
  = sum_list (map (fun p : nat * nat => let (i, j) := p in f i j) (pairs_upper N)).
Proof.
  rewrite for_range_pairs_upper. unfold sum_list.
  rewrite <- accumulate_sum.
  apply fold_left_ext_in. intros acc [i j] _. reflexivity.
Qed.

Lemma for_range_pairs_sum_short (N : nat) (f : nat -> nat -> K) :
  for_range 0 (N - 1) (fun i => for_range (i + 1) N (fun j acc => (acc + f i j)%K)) zero
  = sum_list (map (fun p : nat * nat => let (i, j) := p in f i j) (pairs_upper N)).
Proof.
  rewrite for_range_pairs_upper_short. unfold sum_list.
  rewrite <- accumulate_sum.
  apply fold_left_ext_in. intros acc [i j] _. reflexivity.
Qed.
End Accumulation.

(** ** The mixture model *)

Section MixtureModel.
Context {K : Type} {SK : Scalar K}.
Context {RF : Type} {RFI : ReducingFunction K RF}.
Context {E1 : Type} {EE1 : EOS K E1} {E2 : Type} {EE2 : EOS K E2}.

Lemma corresponding_states_alphar_sum (c : CorrespondingStatesContribution.t E1)
    (tau delta : K) (z : list K) :
  CorrespondingStatesContribution.alphar c tau delta z
  = corresponding_states_sum (CorrespondingStatesContribution.EOSs c) tau delta z.
Proof.
  unfold CorrespondingStatesContribution.alphar, corresponding_states_sum.
  cbv zeta. rewrite for_range_sum. reflexivity.
Qed.

Lemma departure_alphar_sum (d : DepartureContribution.t K E2)
    (tau delta : K) (z : list K) :
  DepartureContribution.alphar d tau delta z
  = departure_sum (DepartureContribution.F d) (DepartureContribution.funcs d)
      tau delta z.
Proof.
  unfold DepartureContribution.alphar, departure_sum.
  cbv zeta. rewrite for_range_pairs_sum. reflexivity.
Qed.

(** C1. [MultiFluid::alphar(T, rho, z)] takes [tau = Tr(z)/T] and
    [delta = rho/rhor(z)] from the reducing function and returns the
    corresponding-states sum (over the components [i], of
    [z_i * EOS_i.alphar(tau, delta)]) plus the departure sum (over the pairs
    [i < j], of [z_i * z_j * F(i,j) * funcs[i][j].alphar(tau, delta)]); the
    pairs summed are exactly those with [i < j < N], each once. *)
Theorem multifluid_alphar_is_sum_of_contributions
    (m : MultiFluid.t K RF E1 E2) (T rho : K) (z : list K) :
  let tau := (get_Tr (MultiFluid.redfunc m) z / T)%K in
  let delta := (rho / get_rhor (MultiFluid.redfunc m) z)%K in
  MultiFluid.alphar m T rho z
  = (corresponding_states_sum
       (CorrespondingStatesContribution.EOSs (MultiFluid.corr m)) tau delta z
     + departure_sum (DepartureContribution.F (MultiFluid.dep m))
         (DepartureContribution.funcs (MultiFluid.dep m)) tau delta z)%K
  /\ (forall i j, In (i, j) (pairs_upper (List.length z)) <-> i < j /\ j < List.length z)
  /\ NoDup (pairs_upper (List.length z)).
Proof.
  intros tau delta. split; [| split].
  - unfold MultiFluid.alphar, forceeval. fold tau delta.
    rewrite corresponding_states_alphar_sum, departure_alphar_sum.
    reflexivity.
  - intros i j. apply in_pairs_upper.
  - apply NoDup_pairs_upper.
Qed.

(** C8. Component densities with no total density given, and the same
    densities with their own sum given as the total, evaluate alike: both
    calls reach [alphar(T, rhotot, rhovec / rhotot)]. *)
Theorem alphar_rhovec_total_override_invariant
    (m : MultiFluid.t K RF E1 E2) (T : K) (rhovec : list K) (rhotot : K) :
  rhotot = accumulate rhovec zero ->
  MultiFluid.alphar_rhovec m T rhovec (Some rhotot)
  = MultiFluid.alphar_rhovec m T rhovec None
  /\ MultiFluid.alphar_rhovec m T rhovec None
     = MultiFluid.alphar m T rhotot (map (fun r => (r / rhotot)%K) rhovec).
Proof.
  intros ->. split; reflexivity.
Qed.
End MixtureModel.

(** ** Matrices filled pair by pair *)

Section PairwiseFill.
Context {A : Type}.

Lemma mset_same (M : Matrix A) (i j : nat) (v : A) : mset M i j v i j = v.
Proof. unfold mset. rewrite !Nat.eqb_refl. reflexivity. Qed.

Lemma mset_other (M : Matrix A) (i j a b : nat) (v : A) :
  (a, b) <> (i, j) -> mset M i j v a b = M a b.
Proof.
  intro Hne. unfold mset.
  destruct (Nat.eqb_spec a i) as [->|]; [|reflexivity].
  destruct (Nat.eqb_spec b j) as [->|]; [|reflexivity].
  contradiction Hne. reflexivity.
Qed.

Lemma fill_pairs_entry (f g : nat -> nat -> A) (l : list (nat * nat)) :
  (forall p, In p l -> fst p < snd p) ->
  forall (M : Matrix A) (a b : nat),
    (In (a, b) l -> fold_left (fill_pair f g) l M a b = f a b)
    /\ (In (b, a) l -> fold_left (fill_pair f g) l M a b = g b a)
    /\ (~ In (a, b) l -> ~ In (b, a) l -> fold_left (fill_pair f g) l M a b = M a b).
Proof.
  induction l as [|[i j] l IH]; intros Hlt M a b.
  - simpl. repeat split; intros; tauto.
  - assert (Hij : i < j) by (apply (Hlt (i, j)); left; reflexivity).
    assert (Hlt' : forall p, In p l -> fst p < snd p)
      by (intros p Hp; apply Hlt; right; exact Hp).
    specialize (IH Hlt' (fill_pair f g M (i, j)) a b).
    destruct IH as [IHu [IHl IHn]].
    cbn [fold_left].
    assert (Hdec : forall p q : nat * nat, {p = q} + {p <> q})
      by (decide equality; apply Nat.eq_dec).
    repeat split.
    + intros [Heq | Hin]; [| apply IHu; exact Hin].
      inversion Heq; subst a b.
      destruct (in_dec Hdec (i, j) l) as [Hin | Hnin]; [apply IHu; exact Hin |].
      destruct (in_dec Hdec (j, i) l) as [Hin' | Hnin'].
      * apply Hlt' in Hin'. simpl in Hin'. lia.
      * rewrite IHn by assumption. unfold fill_pair. cbn [fst snd].
        rewrite mset_other by (intro Heq'; inversion Heq'; lia).
        apply mset_same.
    + intros [Heq | Hin]; [| apply IHl; exact Hin].
      inversion Heq; subst a b.
      destruct (in_dec Hdec (i, j) l) as [Hin | Hnin]; [apply IHl; exact Hin |].
      destruct (in_dec Hdec (j, i) l) as [Hin' | Hnin'].
      * apply Hlt' in Hin'. simpl in Hin'. lia.
      * rewrite IHn by assumption. unfold fill_pair. cbn [fst snd].
        apply mset_same.
    + intros Hn1 Hn2.
      rewrite IHn;
        [| intro; apply Hn1; right; assumption
         | intro; apply Hn2; right; assumption].
      unfold fill_pair. cbn [fst snd].
      rewrite !mset_other; [reflexivity | |].
      * intro Heq. apply Hn1. left. inversion Heq. reflexivity.
      * intro Heq. apply Hn2. left. inversion Heq. reflexivity.
Qed.
End PairwiseFill.

Lemma fold_left_pair_split {X A B : Type} (body : A * B -> X -> A * B)
    (bA : A -> X -> A) (bB : B -> X -> B) (l : list X) (a : A) (b : B) :
  (forall s x, body s x = (bA (fst s) x, bB (snd s) x)) ->
  fold_left body l (a, b) = (fold_left bA l a, fold_left bB l b).
Proof.
  intro Hbody. revert a b. induction l as [|x l IH]; intros a b; simpl.
  - reflexivity.
  - rewrite Hbody. simpl. apply IH.
Qed.

(** ** The reducing function *)

Section ReducingFunctionGeneric.
Context {K : Type} {SK : Scalar K}.

Local Notation "v [[ i ]]" := (nth i v zero) (at level 1, format "v [[ i ]]").

(** The entries the constructor precomputes above the diagonal. *)
Lemma make_YT_Yv (betaT gammaT betaV gammaV : Matrix K) (Tc vc : list K) (i j : nat) :
  i < j -> j < List.length Tc ->
  let r := MultiFluidReducingFunction.make betaT gammaT betaV gammaV Tc vc in
  MultiFluidReducingFunction.YT r i j = YT_formula betaT gammaT Tc i j
  /\ MultiFluidReducingFunction.Yv r i j = Yv_formula betaV gammaV vc i j.
Proof.
  intros Hij HjN r. subst r. unfold MultiFluidReducingFunction.make.
  rewrite for_range_pairs_upper.
  rewrite (fold_left_pair_split _
             (fill_pair (YT_formula betaT gammaT Tc)
                (fun i j => (betaT j i * gammaT j i * sqrt_ (Tc[[i]] * Tc[[j]]))%K))
             (fill_pair (Yv_formula betaV gammaV vc)
                (fun i j => (one / of_int 8 * betaV j i * gammaV j i
                             * MultiFluidReducingFunction.cube
                                 (cbrt vc[[i]] + cbrt vc[[j]]))%K)));
    [| intros [YT0 Yv0] [a b]; reflexivity].
  cbn [MultiFluidReducingFunction.YT MultiFluidReducingFunction.Yv].
  assert (Hin : In (i, j) (pairs_upper (List.length Tc)))
    by (apply in_pairs_upper; lia).
  assert (Hlt : forall p, In p (pairs_upper (List.length Tc)) -> fst p < snd p)
    by (intros [a b] Hp; apply in_pairs_upper in Hp; simpl; lia).
  split.
  - apply (fill_pairs_entry _ _ _ Hlt). exact Hin.
  - apply (fill_pairs_entry _ _ _ Hlt). exact Hin.
Qed.

(** The constructor stores its arguments unchanged. *)
Lemma make_params (betaT gammaT betaV gammaV : Matrix K) (Tc vc : list K) :
  let r := MultiFluidReducingFunction.make betaT gammaT betaV gammaV Tc vc in
  MultiFluidReducingFunction.betaT r = betaT
  /\ MultiFluidReducingFunction.gammaT r = gammaT
  /\ MultiFluidReducingFunction.betaV r = betaV
  /\ MultiFluidReducingFunction.gammaV r = gammaV
  /\ MultiFluidReducingFunction.Tc r = Tc
  /\ MultiFluidReducingFunction.vc r = vc.
Proof.
  unfold MultiFluidReducingFunction.make.
  destruct (for_range _ _ _ _) as [YT0 Yv0]. cbn.
  repeat split; reflexivity.
Qed.

(** [Y] as two sums, the factor 2 still inside the second. *)
Lemma Y_sums (z Yc : list K) (beta Yij : Matrix K) :
  MultiFluidReducingFunction.Y z Yc beta Yij
  = (sum_list (map (fun i => MultiFluidReducingFunction.square z[[i]] * Yc[[i]])
                 (seq 0 (List.length z)))
     + sum_list
         (map (fun p : nat * nat =>
                 let (i, j) := p in
                 of_int 2 * z[[i]] * z[[j]] * (z[[i]] + z[[j]])
                 / (MultiFluidReducingFunction.square (beta i j) * z[[i]] + z[[j]])
                 * Yij i j)
            (pairs_upper (List.length z))))%K.
Proof.
  unfold MultiFluidReducingFunction.Y. cbv zeta.
  rewrite for_range_sum, for_range_pairs_sum_short. reflexivity.
Qed.

(** [Y] reads [Yij] above the diagonal only. *)
Lemma Y_ext (z Yc : list K) (beta Yij Yij' : Matrix K) :
  (forall i j, i < j -> j < List.length z -> Yij i j = Yij' i j) ->
  MultiFluidReducingFunction.Y z Yc beta Yij
  = MultiFluidReducingFunction.Y z Yc beta Yij'.
Proof.
  intro Hagree. rewrite !Y_sums. f_equal. f_equal.
  apply map_ext_in. intros [i j] Hin. apply in_pairs_upper in Hin.
  rewrite Hagree by lia. reflexivity.
Qed.
End ReducingFunctionGeneric.

Section ReducingFunctionReal.
Local Open Scope R_scope.

Local Notation "v [[ i ]]" := (nth i v 0%R) (at level 1, format "v [[ i ]]").

Lemma fold_left_Rplus_scale (c : R) (l : list R) (acc : R) :
  fold_left Rplus (map (Rmult c) l) (c * acc) = c * fold_left Rplus l acc.
Proof.
  revert acc. induction l as [|x l IH]; intro acc; simpl.
  - reflexivity.
  - rewrite <- IH. f_equal. ring.
Qed.

Lemma sum_list_scale (c : R) (l : list R) :
  sum_list (map (Rmult c) l) = c * sum_list l.
Proof.
  unfold sum_list. cbn [add zero Scalar_R].
  rewrite <- fold_left_Rplus_scale. f_equal. ring.
Qed.

(** Over the reals, [Y] is the formula with the factor 2 outside the sum. *)
Lemma Y_reducing_formula (z Yc : list R) (beta Yij : Matrix R) :
  MultiFluidReducingFunction.Y z Yc beta Yij = reducing_formula z Yc beta Yij.
Proof.
  rewrite Y_sums. unfold reducing_formula.
  cbn [add mul div of_int zero Scalar_R]. f_equal.
  rewrite <- sum_list_scale, map_map.
  f_equal. apply map_ext. intros [i j].
  unfold MultiFluidReducingFunction.square. cbn [mul Scalar_R].
  unfold Rdiv. ring.
Qed.

(** C2. The reducing temperature of a constructed reducing function is
    [Y(z, Tc, betaT, YT)] with
    [YT(i,j) = betaT(i,j) * gammaT(i,j) * sqrt(Tc_i * Tc_j)], and the
    reducing density is the reciprocal of [Y(z, vc, betaV, Yv)] with
    [Yv(i,j) = (1/8) * betaV(i,j) * gammaV(i,j) * (vc_i^(1/3) + vc_j^(1/3))^3],
    where [Y] is the sum of [z_i^2 * Yc_i] plus twice the sum over [i < j]
    of [z_i z_j (z_i + z_j) / (beta(i,j)^2 z_i + z_j) * Yij(i,j)]. *)
Theorem reducing_function_formulas
    (betaT gammaT betaV gammaV : Matrix R) (Tc vc z : list R) :
  List.length Tc = List.length z ->
  List.length vc = List.length z ->
  let r := MultiFluidReducingFunction.make betaT gammaT betaV gammaV Tc vc in
  get_Tr r z = reducing_formula z Tc betaT (YT_formula betaT gammaT Tc)
  /\ get_rhor r z
     = 1 / reducing_formula z vc betaV (Yv_formula betaV gammaV vc).
Proof.
  intros HTc Hvc r.
  assert (Hentries : forall i j : nat, (i < j)%nat -> (j < List.length z)%nat ->
            MultiFluidReducingFunction.YT r i j = YT_formula betaT gammaT Tc i j
            /\ MultiFluidReducingFunction.Yv r i j = Yv_formula betaV gammaV vc i j).
  { intros i j Hij Hj. apply make_YT_Yv; [exact Hij | rewrite HTc; exact Hj]. }
  destruct (make_params betaT gammaT betaV gammaV Tc vc)
    as (HbT & _ & HbV & _ & HTc' & Hvc').
  fold r in HbT, HbV, HTc', Hvc'.
  split.
  - change (get_Tr r z) with (MultiFluidReducingFunction.get_Tr_ r z).
    unfold MultiFluidReducingFunction.get_Tr_. rewrite HbT, HTc'.
    rewrite (Y_ext z _ _ _ (YT_formula betaT gammaT Tc))
      by (intros i j Hij Hj; apply Hentries; assumption).
    apply Y_reducing_formula.
  - change (get_rhor r z) with (MultiFluidReducingFunction.get_rhor_ r z).
    unfold MultiFluidReducingFunction.get_rhor_. rewrite HbV, Hvc'.
    rewrite (Y_ext z _ _ _ (Yv_formula betaV gammaV vc))
      by (intros i j Hij Hj; apply Hentries; assumption).
    rewrite Y_reducing_formula. reflexivity.
Qed.
End ReducingFunctionReal.

(** ** Loops that may throw *)

Lemma foldM_app {I S : Type} (body : I -> S -> result S) (l1 l2 : list I) (s : S) :
  foldM body (l1 ++ l2) s = (s' <- foldM body l1 s ;; foldM body l2 s').
Proof.
  revert s. induction l1 as [|i l1 IH]; intro s; simpl.
  - reflexivity.
  - destruct (body i s) as [s1 | e]; simpl; [apply IH | reflexivity].
Qed.

Lemma foldM_ext_in {I S : Type} (f g : I -> S -> result S) (l : list I) (s : S) :
  (forall i s, In i l -> f i s = g i s) -> foldM f l s = foldM g l s.
Proof.
  revert s. induction l as [|i l IH]; intros s Hfg; simpl.
  - reflexivity.
  - rewrite Hfg by (left; reflexivity).
    destruct (g i s) as [s1 | e]; simpl; [| reflexivity].
    apply IH. intros i' s' Hin. apply Hfg. right. exact Hin.
Qed.

Lemma foldM_map {I J S : Type} (f : J -> S -> result S) (h : I -> J) (l : list I) (s : S) :
  foldM f (map h l) s = foldM (fun i => f (h i)) l s.
Proof.
  revert s. induction l as [|i l IH]; intro s; simpl.
  - reflexivity.
  - destruct (f (h i) s) as [s1 | e]; simpl; [apply IH | reflexivity].
Qed.

Lemma foldM_flat_map {I J S : Type} (f : J -> S -> result S) (g : I -> list J)
    (l : list I) (s : S) :
  foldM f (flat_map g l) s = foldM (fun i s => foldM f (g i) s) l s.
Proof.
  revert s. induction l as [|i l IH]; intro s; simpl.
  - reflexivity.
  - rewrite foldM_app.
    destruct (foldM f (g i) s) as [s1 | e]; simpl; [apply IH | reflexivity].
Qed.

Lemma for_rangeM_pairs_upper {S : Type} (N : nat) (body : nat -> nat -> S -> result S)
    (s : S) :
  for_rangeM 0 N (fun i => for_rangeM (i + 1) N (body i)) s
  = foldM (fun p => body (fst p) (snd p)) (pairs_upper N) s.
Proof.
  unfold for_rangeM, pairs_upper.
  rewrite foldM_flat_map, Nat.sub_0_r.
  apply foldM_ext_in. intros i s' _.
  rewrite foldM_map. reflexivity.
Qed.

Lemma for_rangeM_pairs_diag {S : Type} (N : nat) (body : nat -> nat -> S -> result S)
    (s : S) :
  for_rangeM 0 N (fun i => for_rangeM i N (body i)) s
  = foldM (fun p => body (fst p) (snd p)) (pairs_diag N) s.
Proof.
  unfold for_rangeM, pairs_diag.
  rewrite foldM_flat_map, Nat.sub_0_r.
  apply foldM_ext_in. intros i s' _.
  rewrite foldM_map. reflexivity.
Qed.

Lemma in_pairs_diag (N i j : nat) :
  In (i, j) (pairs_diag N) <-> i <= j /\ j < N.
Proof.
  unfold pairs_diag. rewrite in_flat_map. split.
  - intros [i' [Hi' Hin]]. apply in_map_iff in Hin.
    destruct Hin as [j' [Heq Hj']]. inversion Heq; subst.
    apply in_seq in Hj'. lia.
  - intros [Hij HjN]. exists i. split.
    + apply in_seq. lia.
    + apply in_map. apply in_seq. lia.
Qed.

Lemma NoDup_pairs_rows (N : nat) (start : nat -> nat) (l : list nat) :
  NoDup l ->
  NoDup (flat_map (fun i => map (pair i) (seq (start i) (N - start i))) l).
Proof.
  induction l as [|i l IH]; intro Hnd; simpl.
  - constructor.
  - inversion Hnd as [|? ? Hnotin Hnd']; subst.
    apply NoDup_app.
    + apply NoDup_map_inv with (f := snd).
      rewrite map_map. simpl. rewrite map_id. apply seq_NoDup.
    + apply IH. exact Hnd'.
    + intros [a b] Hin1 Hin2.
      apply in_map_iff in Hin1. destruct Hin1 as [j [Heq _]].
      inversion Heq; subst.
      apply in_flat_map in Hin2. destruct Hin2 as [i' [Hi' Hin2]].
      apply in_map_iff in Hin2. destruct Hin2 as [j' [Heq' _]].
      inversion Heq'; subst. contradiction.
Qed.

Lemma NoDup_pairs_diag (N : nat) : NoDup (pairs_diag N).
Proof.
  apply (NoDup_pairs_rows N (fun i => i)). apply seq_NoDup.
Qed.

(** A body that writes at its own pair and the mirrored pair only: what the
    loop leaves at a visited pair is what the body wrote there, starting from
    a state that still held the initial entries of that pair. *)
Section VisitedOnce.
Context {S O : Type}.
Variable obs : S -> nat -> nat -> O.
Variable body : nat * nat -> S -> result S.
Hypothesis frame :
  forall p s s', body p s = Ok s' ->
  forall a b, (a, b) <> p -> (a, b) <> (snd p, fst p) -> obs s' a b = obs s a b.

Lemma foldM_untouched (l : list (nat * nat)) :
  forall s sf, foldM body l s = Ok sf ->
  forall a b, ~ In (a, b) l -> ~ In (b, a) l -> obs sf a b = obs s a b.
Proof.
  induction l as [|q l IH]; intros s sf Hrun a b Hn1 Hn2.
  - simpl in Hrun. inversion Hrun. reflexivity.
  - simpl in Hrun. destruct (body q s) as [sq | e] eqn:Hq; [| discriminate].
    simpl in Hrun.
    rewrite (IH sq sf Hrun a b);
      [| intro Hin; apply Hn1; right; exact Hin
       | intro Hin; apply Hn2; right; exact Hin].
    apply (frame Hq).
    + intro Heq. apply Hn1. left. symmetry. exact Heq.
    + intro Heq. apply Hn2. left. destruct q as [qi qj].
      simpl in Heq. inversion Heq. reflexivity.
Qed.

Lemma foldM_visited (l : list (nat * nat)) :
  NoDup l -> (forall p, In p l -> fst p <= snd p) ->
  forall s sf, foldM body l s = Ok sf ->
  forall i j, In (i, j) l ->
  exists s1 s2,
    body (i, j) s1 = Ok s2
    /\ obs s1 i j = obs s i j /\ obs s1 j i = obs s j i
    /\ obs sf i j = obs s2 i j /\ obs sf j i = obs s2 j i.
Proof.
  induction l as [|q l IH]; intros Hnd Hle s sf Hrun i j Hin.
  - contradiction.
  - inversion Hnd as [|? ? Hq_notin Hnd']; subst.
    assert (Hle' : forall p, In p l -> fst p <= snd p)
      by (intros p Hp; apply Hle; right; exact Hp).
    assert (Hq_le : fst q <= snd q) by (apply Hle; left; reflexivity).
    simpl in Hrun. destruct (body q s) as [sq | e] eqn:Hq; [| discriminate].
    simpl in Hrun.
    destruct Hin as [Heq | Hin].
    + subst q. simpl in Hq_le.
      assert (Hmirror : ~ In (j, i) l).
      { intro Hin'. pose proof (Hle' _ Hin') as Hji. simpl in Hji.
        assert (i = j) by lia. subst j. contradiction. }
      exists s, sq. repeat split; try assumption.
      * eapply foldM_untouched; [exact Hrun | assumption | assumption].
      * eapply foldM_untouched; [exact Hrun | assumption | assumption].
    + destruct (IH Hnd' Hle' sq sf Hrun i j Hin)
        as (s1 & s2 & Hbody & H1 & H2 & H3 & H4).
      pose proof (Hle' _ Hin) as Hij. simpl in Hij.
      assert (Hne : (i, j) <> q) by (intro; subst q; contradiction).
      assert (Hne' : (i, j) <> (snd q, fst q)).
      { intro Heq. destruct q as [qi qj]. simpl in *. inversion Heq; subst.
        assert (qi = qj) by lia. subst. contradiction. }
      assert (Hne2 : (j, i) <> q).
      { intro Heq. destruct q as [qi qj]. simpl in *. inversion Heq; subst.
        assert (qi = qj) by lia. subst. contradiction. }
      assert (Hne2' : (j, i) <> (snd q, fst q)).
      { intro Heq. destruct q as [qi qj]. simpl in *. inversion Heq; subst.
        contradiction. }
      exists s1, s2. repeat split; try assumption.
      * rewrite H1. apply (frame Hq); assumption.
      * rewrite H2. apply (frame Hq); assumption.
Qed.
End VisitedOnce.

(** ** Binary-parameter resolution *)

Section Resolution.
Context {K : Type} {SK : Scalar K}.

Lemma names_of_inv (el : json K) (a b : string) :
  names_of el = Some (a, b) ->
  subscript_const el "Name1" = Ok (JStr a)
  /\ subscript_const el "Name2" = Ok (JStr b).
Proof.
  unfold names_of, subscript_const.
  destruct el as [| | | |l|m]; try discriminate.
  destruct (assoc m "Name1") as [[| | |s1| |]|]; try discriminate.
  destruct (assoc m "Name2") as [[| | |s2| |]|]; try discriminate.
  intro Heq. inversion Heq; subst. split; reflexivity.
Qed.

(** One step of the search over a record that names two components. *)
Lemma find_pair_cons (comp0 comp1 : string) (el : json K) (rest : list (json K))
    (a b : string) :
  names_of el = Some (a, b) ->
  MultiFluidReducingFunction.find_pair comp0 comp1 (el :: rest)
  = if (String.eqb comp0 (toupper a) && String.eqb comp1 (toupper b))
       || (String.eqb comp0 (toupper b) && String.eqb comp1 (toupper a))
    then Ok el
    else MultiFluidReducingFunction.find_pair comp0 comp1 rest.
Proof.
  intro Hnames. apply names_of_inv in Hnames. destruct Hnames as [H1 H2].
  cbn [MultiFluidReducingFunction.find_pair]. rewrite H1, H2. cbn [bind get_string].
  destruct (String.eqb comp0 (toupper a) && String.eqb comp1 (toupper b));
    reflexivity.
Qed.

Lemma find_pair_unmatched (c0 c1 : string) (els : list (json K)) :
  forallb (fun el =>
             match names_of el with
             | Some _ => negb (matches_pair c0 c1 el)
             | None => false
             end) els = true ->
  MultiFluidReducingFunction.find_pair (toupper c0) (toupper c1) els
  = Err (invalid_argument "Can't match this binary pair").
Proof.
  induction els as [|el rest IH]; intro Hall.
  - reflexivity.
  - cbn [forallb] in Hall. apply andb_true_iff in Hall. destruct Hall as [Hel Hrest].
    destruct (names_of el) as [[a b]|] eqn:Hnames; [| discriminate].
    rewrite find_pair_cons with (a := a) (b := b) by exact Hnames.
    unfold matches_pair in Hel. rewrite Hnames in Hel.
    apply negb_true_iff in Hel. rewrite Hel. apply IH. exact Hrest.
Qed.

(** C5. When no record of the catalog matches the pair (either order,
    whatever the case), resolution without an "estimate" flag throws
    [std::invalid_argument] with the fixed message "Can't match this binary
    pair", the same for every pair; with the flag it returns the identity
    default. *)
Theorem get_BIPdep_unmatched (collection : json K) (c0 c1 : string) (flags : json K) :
  unmatched collection c0 c1 = true ->
  MultiFluidReducingFunction.get_BIPdep collection [c0; c1] flags
  = if contains flags "estimate"
    then Ok MultiFluidReducingFunction.estimate_default
    else Err (invalid_argument "Can't match this binary pair").
Proof.
  intro Hun. unfold MultiFluidReducingFunction.get_BIPdep.
  destruct (contains flags "estimate"); [reflexivity |].
  cbn [nth]. apply find_pair_unmatched. exact Hun.
Qed.

(** C10. With the key "estimate" among the flags, [get_BIPdep] returns the
    identity default ([betaT = gammaT = betaV = gammaV = 1], [F = 0])
    whatever the catalog holds, a matching record included. *)
Theorem get_BIPdep_estimate_ignores_catalog
    (collection : json K) (components : list string) (flags : json K) :
  contains flags "estimate" = true ->
  MultiFluidReducingFunction.get_BIPdep collection components flags
  = Ok MultiFluidReducingFunction.estimate_default
  /\ number_at MultiFluidReducingFunction.estimate_default "betaT" = Ok one
  /\ number_at MultiFluidReducingFunction.estimate_default "gammaT" = Ok one
  /\ number_at MultiFluidReducingFunction.estimate_default "betaV" = Ok one
  /\ number_at MultiFluidReducingFunction.estimate_default "gammaV" = Ok one
  /\ number_at MultiFluidReducingFunction.estimate_default "F" = Ok zero.
Proof.
  intro Hflag. unfold MultiFluidReducingFunction.get_BIPdep. rewrite Hflag.
  repeat split; reflexivity.
Qed.

(** The record found does not depend on the order of the two names. *)
Lemma find_pair_swap (comp0 comp1 : string) (els : list (json K)) :
  MultiFluidReducingFunction.find_pair comp0 comp1 els
  = MultiFluidReducingFunction.find_pair comp1 comp0 els.
Proof.
  induction els as [|el rest IH]; [reflexivity |].
  cbn [MultiFluidReducingFunction.find_pair].
  destruct (subscript_const el "Name1") as [j1|e]; [| reflexivity]. cbn [bind].
  destruct (get_string j1) as [s1|e]; [| reflexivity]. cbn [bind].
  destruct (subscript_const el "Name2") as [j2|e]; [| reflexivity]. cbn [bind].
  destruct (get_string j2) as [s2|e]; [| reflexivity]. cbn [bind].
  rewrite IH.
  destruct (String.eqb comp0 (toupper s1)), (String.eqb comp1 (toupper s2)),
    (String.eqb comp0 (toupper s2)), (String.eqb comp1 (toupper s1)); reflexivity.
Qed.

Lemma get_BIPdep_swap (collection : json K) (c0 c1 : string) (flags : json K) :
  MultiFluidReducingFunction.get_BIPdep collection [c0; c1] flags
  = MultiFluidReducingFunction.get_BIPdep collection [c1; c0] flags.
Proof.
  unfold MultiFluidReducingFunction.get_BIPdep.
  destruct (contains flags "estimate"); [reflexivity |].
  cbn [nth]. apply find_pair_swap.
Qed.
End Resolution.

(** ** Departure-function and interaction-factor matrices *)

Lemma for_rangeM_with_diagonal {St : Type} (N : nat) (d : nat -> St -> St)
    (inner : nat -> nat -> St -> result St) (s : St) :
  for_rangeM 0 N (fun i s => for_rangeM (i + 1) N (inner i) (d i s)) s
  = foldM (fun p s => if fst p =? snd p then Ok (d (fst p) s)
                      else inner (fst p) (snd p) s)
      (pairs_diag N) s.
Proof.
  unfold for_rangeM, pairs_diag.
  rewrite foldM_flat_map, Nat.sub_0_r.
  apply foldM_ext_in. intros i s' Hin. apply in_seq in Hin.
  rewrite foldM_map.
  replace (N - i) with (S (N - (i + 1))) by lia.
  cbn [seq foldM fst snd]. rewrite Nat.eqb_refl. cbn [bind].
  replace (S i) with (i + 1) by lia.
  apply foldM_ext_in. intros j s'' Hj. apply in_seq in Hj.
  destruct (Nat.eqb_spec i j); [lia | reflexivity].
Qed.

Section DepartureMatrix.
Context {K : Type} {SK : Scalar K}.

Lemma funcname_without_name (BIP : json K) :
  no_function_name BIP = true ->
  (if contains BIP "function"
   then v <- subscript BIP "function" ;; get_string v
   else Ok EmptyString) = Ok EmptyString.
Proof.
  unfold no_function_name, contains, subscript.
  destruct BIP as [| | | |l|m]; try reflexivity.
  destruct (assoc m "function") as [[| | |s| |]|]; try discriminate; [| reflexivity].
  intro Hs. apply String.eqb_eq in Hs. subst s. reflexivity.
Qed.

(** The step for a pair whose record carries no function name. *)
Lemma departure_body_without_name (depcollection BIPcollection : json K)
    (components : list string) (flags : json K) (i j : nat) (BIP : json K)
    (funcs : Matrix (DepartureTerms K)) :
  MultiFluidReducingFunction.get_BIPdep BIPcollection
    [nth i components EmptyString; nth j components EmptyString] flags = Ok BIP ->
  no_function_name BIP = true ->
  departure_matrix_body depcollection BIPcollection components flags i j funcs
  = Ok (mset (mset funcs i j (add_term (funcs i j) NullEOSTerm)) j i
          (add_term (mset funcs i j (add_term (funcs i j) NullEOSTerm) j i)
             NullEOSTerm)).
Proof.
  intros HBIP Hname. unfold departure_matrix_body.
  rewrite HBIP. cbn [bind]. rewrite (funcname_without_name _ Hname).
  reflexivity.
Qed.

Lemma departure_body_frame (depcollection BIPcollection : json K)
    (components : list string) (flags : json K) (p : nat * nat)
    (funcs funcs' : Matrix (DepartureTerms K)) :
  departure_matrix_body depcollection BIPcollection components flags
    (fst p) (snd p) funcs = Ok funcs' ->
  forall a b, (a, b) <> p -> (a, b) <> (snd p, fst p) -> funcs' a b = funcs a b.
Proof.
  destruct p as [i j]. cbn [fst snd]. intros Hbody a b Hne Hne'.
  unfold departure_matrix_body in Hbody. bind_ok Hbody.
  destruct (negb _) in Hbody.
  - bind_ok Hbody. inversion Hbody; subst funcs'.
    rewrite !mset_other by assumption. reflexivity.
  - inversion Hbody; subst funcs'.
    rewrite !mset_other by assumption. reflexivity.
Qed.

(** A resolved record is never the empty document. *)
Lemma find_pair_not_empty (comp0 comp1 : string) (els : list (json K)) (el : json K) :
  MultiFluidReducingFunction.find_pair comp0 comp1 els = Ok el -> empty el = false.
Proof.
  induction els as [|el' rest IH]; intro Hfind; [discriminate |].
  cbn [MultiFluidReducingFunction.find_pair] in Hfind.
  destruct (subscript_const el' "Name1") as [j1|e] eqn:H1; [| discriminate].
  cbn [bind] in Hfind. bind_ok Hfind.
  assert (Hne : empty el' = false).
  { unfold subscript_const in H1. destruct el' as [| | | |l|m]; try discriminate.
    destruct m as [|kv m']; [discriminate | reflexivity]. }
  destruct (_ && _) in Hfind; [inversion Hfind; subst; exact Hne |].
  destruct (_ && _) in Hfind; [inversion Hfind; subst; exact Hne |].
  apply IH. exact Hfind.
Qed.

Lemma get_BIPdep_not_empty (collection : json K) (components : list string)
    (flags el : json K) :
  MultiFluidReducingFunction.get_BIPdep collection components flags = Ok el ->
  empty el = false.
Proof.
  unfold MultiFluidReducingFunction.get_BIPdep.
  destruct (contains flags "estimate").
  - intro Heq. inversion Heq. reflexivity.
  - apply find_pair_not_empty.
Qed.

Lemma F_body_frame (collection : json K) (components : list string)
    (flags : json K) (p : nat * nat) (F F' : Matrix K) :
  (if fst p =? snd p then Ok (mset F (fst p) (fst p) zero)
   else MultiFluidReducingFunction.F_matrix_body collection components flags
          (fst p) (snd p) F) = Ok F' ->
  forall a b, (a, b) <> p -> (a, b) <> (snd p, fst p) -> F' a b = F a b.
Proof.
  destruct p as [i j]. cbn [fst snd]. intros Hbody a b Hne Hne'.
  destruct (Nat.eqb_spec i j) as [-> | Hij].
  - inversion Hbody; subst F'. apply mset_other. exact Hne.
  - unfold MultiFluidReducingFunction.F_matrix_body in Hbody. bind_ok Hbody.
    destruct (empty _) in Hbody.
    + inversion Hbody; subst F'. rewrite !mset_other by assumption. reflexivity.
    + bind_ok Hbody. inversion Hbody; subst F'.
      rewrite !mset_other by assumption. reflexivity.
Qed.

(** C7. A pair whose resolved record carries no departure-function name
    (the key is absent or holds the empty string) is not an error: its step
    appends the Null term to both [funcs[i][j]] and [funcs[j][i]], which are
    therefore the collections holding just the Null term in the matrix
    returned.  The interaction factor is not zeroed: the step of
    [get_F_matrix] for the pair succeeds with [F(i,j) = F(j,i)] the number
    stored under the record's key "F", and throws a type error exactly when
    the record holds no number there. *)
Theorem pair_without_function_name
    (depcollection BIPcollection : json K) (components : list string)
    (flags : json K) (i j : nat) (BIP : json K) :
  i < j -> j < List.length components ->
  MultiFluidReducingFunction.get_BIPdep BIPcollection
    [nth i components EmptyString; nth j components EmptyString] flags = Ok BIP ->
  no_function_name BIP = true ->
  (forall funcs, exists funcs',
      departure_matrix_body depcollection BIPcollection components flags i j funcs
      = Ok funcs'
      /\ funcs' i j = add_term (funcs i j) NullEOSTerm
      /\ funcs' j i = add_term (funcs j i) NullEOSTerm)
  /\ (forall funcs,
        get_departure_function_matrix depcollection BIPcollection components flags
        = Ok funcs ->
        funcs i j = [NullEOSTerm] /\ funcs j i = [NullEOSTerm])
  /\ (forall F,
        MultiFluidReducingFunction.get_F_matrix BIPcollection components flags = Ok F ->
        exists f, number_at BIP "F" = Ok f /\ F i j = f /\ F j i = f)
  /\ (forall f, number_at BIP "F" = Ok f ->
        forall F0, exists F',
          MultiFluidReducingFunction.F_matrix_body BIPcollection components flags
            i j F0 = Ok F'
          /\ F' i j = f /\ F' j i = f)
  /\ (forall e, number_at BIP "F" = Err e ->
        forall F0,
          MultiFluidReducingFunction.F_matrix_body BIPcollection components flags
            i j F0 = Err type_error).
Proof.
  intros Hij HjN HBIP Hname.
  assert (Hstep : forall funcs : Matrix (DepartureTerms K), exists funcs',
             departure_matrix_body depcollection BIPcollection components flags i j funcs
             = Ok funcs'
             /\ funcs' i j = add_term (funcs i j) NullEOSTerm
             /\ funcs' j i = add_term (funcs j i) NullEOSTerm).
  { intro funcs. eexists. split; [| split].
    - apply departure_body_without_name with (BIP := BIP); assumption.
    - rewrite mset_other by (intro Heq; inversion Heq; lia). apply mset_same.
    - rewrite mset_same.
      rewrite mset_other by (intro Heq; inversion Heq; lia). reflexivity. }
  assert (HFstep : forall F0 : Matrix K,
             MultiFluidReducingFunction.F_matrix_body BIPcollection components flags
               i j F0
             = match number_at BIP "F" with
               | Ok f => Ok (mset (mset F0 i j f) j i f)
               | Err _ => Err type_error
               end).
  { intro F0. unfold MultiFluidReducingFunction.F_matrix_body.
    rewrite HBIP. cbn [bind].
    pose proof (get_BIPdep_not_empty _ _ _ HBIP) as Hne. rewrite Hne.
    unfold number_at, at_, subscript.
    destruct BIP as [| | | |l|m]; try reflexivity.
    destruct (assoc m "F") as [v |]; [| reflexivity].
    cbn [bind]. destruct v; reflexivity. }
  split; [exact Hstep |]. split; [| split; [| split]].
  4: { intros e He F0. rewrite HFstep, He. reflexivity. }
  3: { intros f Hf F0. rewrite HFstep, Hf. eexists. split; [reflexivity |].
       split; [| apply mset_same].
       rewrite mset_other by (intro Heq; inversion Heq; lia). apply mset_same. }
  - intros funcs Hrun. unfold get_departure_function_matrix in Hrun.
    rewrite for_rangeM_pairs_upper in Hrun.
    destruct (foldM_visited (fun s : Matrix (DepartureTerms K) => s)
                (fun p => departure_matrix_body depcollection BIPcollection
                            components flags (fst p) (snd p))
                (departure_body_frame depcollection BIPcollection components flags)
                (NoDup_pairs_upper (List.length components))
                (fun p Hp => ltac:(destruct p as [a b];
                                   apply in_pairs_upper in Hp; simpl; lia))
                _ Hrun i j ltac:(apply in_pairs_upper; lia))
      as (s1 & s2 & Hbody & H1 & H2 & H3 & H4).
    cbn [fst snd] in Hbody.
    destruct (Hstep s1) as (funcs' & Hbody' & Hf1 & Hf2).
    rewrite Hbody' in Hbody. inversion Hbody; subst s2.
    rewrite H3, H4, Hf1, Hf2, H1, H2. split; reflexivity.
  - intros F Hrun. unfold MultiFluidReducingFunction.get_F_matrix in Hrun.
    cbv zeta in Hrun. rewrite for_rangeM_with_diagonal in Hrun.
    destruct (foldM_visited (fun s : Matrix K => s) _
                (F_body_frame BIPcollection components flags)
                (NoDup_pairs_diag (List.length components))
                (fun p Hp => ltac:(destruct p as [a b];
                                   apply in_pairs_diag in Hp; simpl; lia))
                _ Hrun i j ltac:(apply in_pairs_diag; lia))
      as (s1 & s2 & Hbody & _ & _ & H3 & H4).
    cbn [fst snd] in Hbody.
    destruct (Nat.eqb_spec i j) as [Heq | _]; [lia |].
    unfold MultiFluidReducingFunction.F_matrix_body in Hbody.
    rewrite HBIP in Hbody. cbn [bind] in Hbody.
    rewrite (get_BIPdep_not_empty _ _ _ HBIP) in Hbody.
    destruct (subscript BIP "F") as [x | e] eqn:Hx; [| discriminate].
    cbn [bind] in Hbody.
    destruct (get_double x) as [f | e] eqn:Hf; [| discriminate].
    cbn [bind] in Hbody. inversion Hbody; subst s2.
    exists f. split; [| split].
    + unfold number_at, at_. unfold subscript in Hx.
      destruct BIP as [| | | |l|m]; try discriminate.
      * inversion Hx; subst x. discriminate.
      * destruct (assoc m "F") as [v|]; inversion Hx; subst x;
          [cbn [bind]; exact Hf | discriminate].
    + rewrite H3. rewrite mset_other by (intro Heq; inversion Heq; lia).
      apply mset_same.
    + rewrite H4. apply mset_same.
Qed.
End DepartureMatrix.

(** ** The model adapter *)

Section Adapter.
Context {K : Type} {SK : Scalar K}.
Context {E1 : Type} {EE1 : EOS K E1} {E2 : Type} {EE2 : EOS K E2}.
Context {EED : EOS K (DepartureTerms K)}.
Variable dump : json K -> string.

(** What the builder assembles, given the matrices its loops produce. *)
Lemma build_multifluid_mutant_inv
    (model : MultiFluid.t K (MultiFluidReducingFunction.t K) E1 E2) (jj : json K)
    (mfa : MultiFluidAdapter.t K (MultiFluidReducingFunction.t K) E1 E2
             (MultiFluidReducingFunction.t K) (DepartureTerms K)) :
  build_multifluid_mutant dump model jj = Ok mfa ->
  exists s,
    for_rangeM 0 (List.length (MultiFluidReducingFunction.Tc (MultiFluid.redfunc model)))
      (fun i =>
         for_rangeM i (List.length (MultiFluidReducingFunction.Tc (MultiFluid.redfunc model)))
           (fun j => mutant_body (MultiFluid.redfunc model) jj i j))
      (mkMutantState
         (MultiFluidReducingFunction.betaT (MultiFluid.redfunc model))
         (MultiFluidReducingFunction.gammaT (MultiFluid.redfunc model))
         (MultiFluidReducingFunction.betaV (MultiFluid.redfunc model))
         (MultiFluidReducingFunction.gammaV (MultiFluid.redfunc model))
         (mconst zero) (mconst [])) = Ok s
    /\ MultiFluidAdapter.base mfa = model
    /\ MultiFluidAdapter.redfunc mfa
       = MultiFluidReducingFunction.make (ms_betaT s) (ms_gammaT s) (ms_betaV s)
           (ms_gammaV s)
           (MultiFluidReducingFunction.Tc (MultiFluid.redfunc model))
           (MultiFluidReducingFunction.vc (MultiFluid.redfunc model))
    /\ MultiFluidAdapter.depfunc mfa = DepartureContribution.make (ms_F s) (ms_funcs s).
Proof.
  unfold build_multifluid_mutant. cbv zeta. intro Hbuild.
  bind_ok Hbuild. inversion Hbuild; subst mfa.
  eexists. split; [reflexivity |]. repeat split; reflexivity.
Qed.

(** C9. The adapted model evaluates the corresponding-states object of the
    base model itself: every pure-component term [alphari(tau, delta, i)],
    and the mole-fraction-weighted sum of these, is that of the base at the
    same reduced state [(tau, delta)] and composition.  In
    [alphar(T, rho, z)] of the adapted model, [tau] and [delta] come from
    the rebuilt reducing function; where this gives the reducing
    temperature and density of the base, the pure-component contributions
    at [(T, rho, z)] are those of the base. *)
Theorem adapter_reuses_pure_component_terms
    (model : MultiFluid.t K (MultiFluidReducingFunction.t K) E1 E2) (jj : json K)
    (mfa : MultiFluidAdapter.t K (MultiFluidReducingFunction.t K) E1 E2
             (MultiFluidReducingFunction.t K) (DepartureTerms K)) :
  build_multifluid_mutant dump model jj = Ok mfa ->
  MultiFluid.corr (MultiFluidAdapter.base mfa) = MultiFluid.corr model
  /\ (forall tau delta i,
        CorrespondingStatesContribution.alphari
          (MultiFluid.corr (MultiFluidAdapter.base mfa)) tau delta i
        = CorrespondingStatesContribution.alphari (MultiFluid.corr model) tau delta i)
  /\ (forall tau delta z,
        CorrespondingStatesContribution.alphar
          (MultiFluid.corr (MultiFluidAdapter.base mfa)) tau delta z
        = CorrespondingStatesContribution.alphar (MultiFluid.corr model) tau delta z)
  /\ (forall T rho z,
        MultiFluidAdapter.alphar mfa T rho z
        = (corresponding_states_at (MultiFluidAdapter.redfunc mfa)
             (MultiFluid.corr model) T rho z
           + DepartureContribution.alphar (MultiFluidAdapter.depfunc mfa)
               (tau_at (MultiFluidAdapter.redfunc mfa) T z)
               (delta_at (MultiFluidAdapter.redfunc mfa) rho z) z)%K)
  /\ (forall T rho z,
        get_Tr (MultiFluidAdapter.redfunc mfa) z = get_Tr (MultiFluid.redfunc model) z ->
        get_rhor (MultiFluidAdapter.redfunc mfa) z
        = get_rhor (MultiFluid.redfunc model) z ->
        corresponding_states_at (MultiFluidAdapter.redfunc mfa)
          (MultiFluid.corr (MultiFluidAdapter.base mfa)) T rho z
        = corresponding_states_at (MultiFluid.redfunc model)
            (MultiFluid.corr model) T rho z
        /\ forall i,
             pure_contribution_at (MultiFluidAdapter.redfunc mfa)
               (MultiFluid.corr (MultiFluidAdapter.base mfa)) T rho z i
             = pure_contribution_at (MultiFluid.redfunc model)
                 (MultiFluid.corr model) T rho z i).
Proof.
  intro Hbuild.
  destruct (build_multifluid_mutant_inv _ _ Hbuild) as (s & _ & Hbase & _ & _).
  repeat split.
  - rewrite Hbase. reflexivity.
  - intros. rewrite Hbase. reflexivity.
  - intros. rewrite Hbase. reflexivity.
  - intros T rho z. unfold MultiFluidAdapter.alphar, forceeval.
    rewrite Hbase. reflexivity.
  - unfold corresponding_states_at, tau_at, delta_at.
    rewrite Hbase. congruence.
  - intro i. unfold pure_contribution_at, tau_at, delta_at.
    rewrite Hbase. congruence.
Qed.
End Adapter.

(** ** Mixing-parameter matrices built from a catalog *)

Section CatalogMatrices.
Context {K : Type} {SK : Scalar K}.

Lemma BIP_body_frame (collection : json K) (components : list string)
    (flags : json K) (p : nat * nat) (s s' : MultiFluidReducingFunction.BIP_matrices) :
  MultiFluidReducingFunction.BIP_matrices_body collection components flags
    (fst p) (snd p) s = Ok s' ->
  forall a b, (a, b) <> p -> (a, b) <> (snd p, fst p) ->
              BIP_entries s' a b = BIP_entries s a b.
Proof.
  destruct p as [i j]. destruct s as [[[bT gT] bV] gV]. cbn [fst snd].
  intros Hbody a b Hne Hne'.
  unfold MultiFluidReducingFunction.BIP_matrices_body in Hbody.
  bind_ok Hbody. destruct a0 as [[[x1 x2] x3] x4].
  inversion Hbody; subst s'. unfold BIP_entries.
  rewrite !mset_other by assumption. reflexivity.
Qed.

(** Below the diagonal the catalog builder stores the reciprocal of the
    [beta] above it and the [gamma] above it, in the arithmetic of the
    scalar type. *)
Lemma get_BIP_matrices_mirrored (collection : json K) (components : list string)
    (flags : json K) (betaT gammaT betaV gammaV : Matrix K) :
  MultiFluidReducingFunction.get_BIP_matrices collection components flags
  = Ok (betaT, gammaT, betaV, gammaV) ->
  forall i j, i < j -> j < List.length components ->
    betaT j i = (one / betaT i j)%K /\ gammaT j i = gammaT i j
    /\ betaV j i = (one / betaV i j)%K /\ gammaV j i = gammaV i j.
Proof.
  intros Hrun i j Hij HjN.
  unfold MultiFluidReducingFunction.get_BIP_matrices in Hrun.
  rewrite for_rangeM_pairs_upper in Hrun.
  destruct (foldM_visited BIP_entries _
              (BIP_body_frame collection components flags)
              (NoDup_pairs_upper (List.length components))
              (fun p Hp => ltac:(destruct p as [a b];
                                 apply in_pairs_upper in Hp; simpl; lia))
              _ Hrun i j ltac:(apply in_pairs_upper; lia))
    as (s1 & s2 & Hbody & _ & _ & H3 & H4).
  cbn [fst snd] in Hbody. destruct s1 as [[[bT gT] bV] gV].
  unfold MultiFluidReducingFunction.BIP_matrices_body in Hbody.
  bind_ok Hbody. destruct a as [[[x1 x2] x3] x4].
  inversion Hbody; subst s2. clear Hbody.
  unfold BIP_entries in H3, H4.
  assert (Hji : (j, i) <> (i, j)) by (intro Heq; inversion Heq; lia).
  assert (Hij' : (i, j) <> (j, i)) by (intro Heq; inversion Heq; lia).
  rewrite !mset_same in H4.
  rewrite !(mset_other _ _ Hij'), !mset_same in H3.
  inversion H3. inversion H4. repeat split; congruence.
Qed.
End CatalogMatrices.

(** Over the reals the matrices a catalog yields have reciprocal [beta]
    and equal [gamma] entries across the diagonal, read in either direction. *)
Lemma get_BIP_matrices_symmetry (collection : json R) (components : list string)
    (flags : json R) (betaT gammaT betaV gammaV : Matrix R) :
  MultiFluidReducingFunction.get_BIP_matrices collection components flags
  = Ok (betaT, gammaT, betaV, gammaV) ->
  forall i j, i <> j -> i < List.length components -> j < List.length components ->
    betaT i j = (1 / betaT j i)%R /\ gammaT i j = gammaT j i
    /\ betaV i j = (1 / betaV j i)%R /\ gammaV i j = gammaV j i.
Proof.
  intros Hrun i j Hne Hi Hj.
  assert (Hinv : forall x : R, (1 / (1 / x))%R = x).
  { intro x. unfold Rdiv. rewrite !Rmult_1_l. apply Rinv_inv. }
  destruct (Nat.lt_ge_cases i j) as [Hlt | Hge].
  - destruct (get_BIP_matrices_mirrored _ _ _ Hrun Hlt Hj) as (H1 & H2 & H3 & H4).
    cbn [one div Scalar_R] in H1, H3.
    rewrite H1, H2, H3, H4, !Hinv. repeat split; reflexivity.
  - assert (Hlt : j < i) by lia.
    destruct (get_BIP_matrices_mirrored _ _ _ Hrun Hlt Hi) as (H1 & H2 & H3 & H4).
    cbn [one div Scalar_R] in H1, H3.
    rewrite H1, H2, H3, H4. repeat split; reflexivity.
Qed.

(** ** Mixing-parameter matrices rebuilt from an override document *)

Section OverrideMatrices.
Context {K : Type} {SK : Scalar K}.
Context {E1 : Type} {E2 : Type}.
Variable dump : json K -> string.

Lemma mutant_body_frame (red : MultiFluidReducingFunction.t K) (jj : json K)
    (p : nat * nat) (s s' : mutant_state) :
  mutant_body red jj (fst p) (snd p) s = Ok s' ->
  forall a b, (a, b) <> p -> (a, b) <> (snd p, fst p) ->
              mutant_entries s' a b = mutant_entries s a b.
Proof.
  destruct p as [i j]. destruct s as [bT gT bV gV F funcs]. cbn [fst snd].
  intros Hbody a b Hne Hne'. unfold mutant_body in Hbody.
  destruct (Nat.eqb_spec i j) as [-> | Hij].
  - inversion Hbody; subst s'. unfold mutant_entries. cbn.
    rewrite mset_other by assumption. reflexivity.
  - bind_ok Hbody. inversion Hbody; subst s'. unfold mutant_entries. cbn.
    rewrite !mset_other by assumption. reflexivity.
Qed.

(** For every pair [i < j] the rebuilt reducing function holds, above the
    diagonal, the [betaT] and [betaV] of the override document and, below
    it, the reciprocals of the base model's [betaT(i,j)] and [betaV(i,j)];
    [gammaT] and [gammaV] are mirrored from the override. *)
Lemma mutant_mirrors_base_beta
    (model : MultiFluid.t K (MultiFluidReducingFunction.t K) E1 E2) (jj : json K)
    (mfa : MultiFluidAdapter.t K (MultiFluidReducingFunction.t K) E1 E2
             (MultiFluidReducingFunction.t K) (DepartureTerms K)) :
  build_multifluid_mutant dump model jj = Ok mfa ->
  forall i j,
    i < j ->
    j < List.length (MultiFluidReducingFunction.Tc (MultiFluid.redfunc model)) ->
    let red := MultiFluid.redfunc model in
    let newred := MultiFluidAdapter.redfunc mfa in
    MultiFluidReducingFunction.betaT newred j i
    = (one / MultiFluidReducingFunction.betaT red i j)%K
    /\ MultiFluidReducingFunction.betaV newred j i
       = (one / MultiFluidReducingFunction.betaV red i j)%K
    /\ MultiFluidReducingFunction.gammaT newred j i
       = MultiFluidReducingFunction.gammaT newred i j
    /\ MultiFluidReducingFunction.gammaV newred j i
       = MultiFluidReducingFunction.gammaV newred i j
    /\ exists entry BIP,
        entry_of jj i j = Ok entry
        /\ subscript entry "BIP" = Ok BIP
        /\ number_at BIP "betaT" = Ok (MultiFluidReducingFunction.betaT newred i j)
        /\ number_at BIP "betaV" = Ok (MultiFluidReducingFunction.betaV newred i j).
Proof.
  intros Hbuild i j Hij HjN red newred.
  destruct (build_multifluid_mutant_inv _ _ _ Hbuild) as (s & Hrun & _ & Hred & _).
  subst newred. rewrite Hred.
  destruct (make_params (ms_betaT s) (ms_gammaT s) (ms_betaV s) (ms_gammaV s)
              (MultiFluidReducingFunction.Tc (MultiFluid.redfunc model))
              (MultiFluidReducingFunction.vc (MultiFluid.redfunc model)))
    as (-> & -> & -> & -> & _).
  rewrite for_rangeM_pairs_diag in Hrun.
  destruct (foldM_visited mutant_entries _
              (mutant_body_frame (MultiFluid.redfunc model) jj)
              (NoDup_pairs_diag _)
              (fun p Hp => ltac:(destruct p as [a b];
                                 apply in_pairs_diag in Hp; simpl; lia))
              _ Hrun i j ltac:(apply in_pairs_diag; lia))
    as (s1 & s2 & Hbody & _ & _ & H3 & H4).
  cbn [fst snd] in Hbody. destruct s1 as [bT gT bV gV F funcs].
  unfold mutant_body in Hbody.
  destruct (Nat.eqb_spec i j) as [Heq | _]; [lia |].
  destruct (entry_of jj i j) as [entry | e] eqn:Hentry; [| discriminate].
  cbn [bind] in Hbody.
  destruct (subscript entry "BIP") as [BIP | e] eqn:HBIP; [| discriminate].
  cbn [bind] in Hbody.
  destruct (number_at BIP "betaT") as [xT | e] eqn:HxT; [| discriminate].
  cbn [bind] in Hbody.
  destruct (number_at BIP "betaV") as [xV | e] eqn:HxV; [| discriminate].
  cbn [bind] in Hbody.
  bind_ok Hbody. inversion Hbody; subst s2. clear Hbody.
  unfold mutant_entries in H3, H4. cbn in H3, H4.
  assert (Hij' : (i, j) <> (j, i)) by (intro Heq; inversion Heq; lia).
  rewrite !mset_same in H4.
  rewrite !(mset_other _ _ Hij'), !mset_same in H3.
  inversion H3 as [[H31 H32 H33 H34 H35 H36]].
  inversion H4 as [[H41 H42 H43 H44 H45 H46]].
  subst red.
  split; [exact H41 |]. split; [exact H43 |].
  split; [congruence |]. split; [congruence |].
  exists entry, BIP. repeat split; try assumption; congruence.
Qed.

Lemma build_multifluid_mutant_invariant_inv
    (model : MultiFluid.t K (MultiFluidReducingFunction.t K) E1 E2) (jj : json K)
    (mfa : MultiFluidAdapter.t K (MultiFluidReducingFunction.t K) E1 E2
             (MultiFluidInvariantReducingFunction.t K) (DepartureTerms K)) :
  build_multifluid_mutant_invariant dump model jj = Ok mfa ->
  List.length (MultiFluidReducingFunction.Tc (MultiFluid.redfunc model)) = 2
  /\ exists s,
      for_rangeM 0 2 (fun i => for_rangeM i 2 (fun j => invariant_body jj i j))
        (mkMutantState (mconst one)
           (MultiFluidReducingFunction.gammaT (MultiFluid.redfunc model))
           (mconst one) (mconst zero) (mconst zero) (mconst [])) = Ok s
      /\ MultiFluidInvariantReducingFunction.lambdaT (MultiFluidAdapter.redfunc mfa)
         = ms_gammaT s
      /\ MultiFluidInvariantReducingFunction.lambdaV (MultiFluidAdapter.redfunc mfa)
         = ms_gammaV s
      /\ MultiFluidInvariantReducingFunction.phiT (MultiFluidAdapter.redfunc mfa)
         = ms_betaT s
      /\ MultiFluidInvariantReducingFunction.phiV (MultiFluidAdapter.redfunc mfa)
         = ms_betaV s.
Proof.
  unfold build_multifluid_mutant_invariant. cbv zeta. intro Hbuild.
  destruct (Nat.eqb_spec
              (List.length (MultiFluidReducingFunction.Tc (MultiFluid.redfunc model))) 2)
    as [HN | HN]; [| discriminate].
  cbn [negb] in Hbuild. rewrite HN in Hbuild.
  bind_ok Hbuild. inversion Hbuild; subst mfa.
  split; [exact HN |]. eexists. split; [reflexivity |].
  cbn [MultiFluidAdapter.set_meta MultiFluidAdapter.make MultiFluidAdapter.redfunc].
  unfold MultiFluidInvariantReducingFunction.make.
  destruct (for_range _ _ _ _) as [YT0 Yv0]. cbn.
  repeat split; reflexivity.
Qed.

Lemma invariant_body_frame (jj : json K) (p : nat * nat) (s s' : mutant_state) :
  invariant_body jj (fst p) (snd p) s = Ok s' ->
  forall a b, (a, b) <> p -> (a, b) <> (snd p, fst p) ->
              mutant_entries s' a b = mutant_entries s a b.
Proof.
  destruct p as [i j]. destruct s as [bT gT bV gV F funcs]. cbn [fst snd].
  intros Hbody a b Hne Hne'. unfold invariant_body in Hbody.
  destruct (Nat.eqb_spec i j) as [-> | Hij].
  - inversion Hbody; subst s'. unfold mutant_entries. cbn.
    rewrite mset_other by assumption. reflexivity.
  - bind_ok Hbody. inversion Hbody; subst s'. unfold mutant_entries. cbn.
    rewrite !mset_other by assumption. reflexivity.
Qed.

(** The invariant builder stores, below the diagonal, the negated
    [lambda] and the [phi] it stores above. *)
Lemma invariant_mutant_antisymmetric
    (model : MultiFluid.t K (MultiFluidReducingFunction.t K) E1 E2) (jj : json K)
    (mfa : MultiFluidAdapter.t K (MultiFluidReducingFunction.t K) E1 E2
             (MultiFluidInvariantReducingFunction.t K) (DepartureTerms K)) :
  build_multifluid_mutant_invariant dump model jj = Ok mfa ->
  forall i j, i < j -> j < 2 ->
    let newred := MultiFluidAdapter.redfunc mfa in
    MultiFluidInvariantReducingFunction.lambdaT newred j i
    = (- MultiFluidInvariantReducingFunction.lambdaT newred i j)%K
    /\ MultiFluidInvariantReducingFunction.lambdaV newred j i
       = (- MultiFluidInvariantReducingFunction.lambdaV newred i j)%K
    /\ MultiFluidInvariantReducingFunction.phiT newred j i
       = MultiFluidInvariantReducingFunction.phiT newred i j
    /\ MultiFluidInvariantReducingFunction.phiV newred j i
       = MultiFluidInvariantReducingFunction.phiV newred i j.
Proof.
  intros Hbuild i j Hij Hj newred. subst newred.
  destruct (build_multifluid_mutant_invariant_inv _ _ Hbuild)
    as (_ & s & Hrun & -> & -> & -> & ->).
  rewrite for_rangeM_pairs_diag in Hrun.
  destruct (foldM_visited mutant_entries _ (invariant_body_frame jj)
              (NoDup_pairs_diag _)
              (fun p Hp => ltac:(destruct p as [a b];
                                 apply in_pairs_diag in Hp; simpl; lia))
              _ Hrun i j ltac:(apply in_pairs_diag; lia))
    as (s1 & s2 & Hbody & _ & _ & H3 & H4).
  cbn [fst snd] in Hbody. destruct s1 as [bT gT bV gV F funcs].
  unfold invariant_body in Hbody.
  destruct (Nat.eqb_spec i j) as [Heq | _]; [lia |].
  bind_ok Hbody. inversion Hbody; subst s2. clear Hbody.
  unfold mutant_entries in H3, H4. cbn in H3, H4.
  assert (Hij' : (i, j) <> (j, i)) by (intro Heq; inversion Heq; lia).
  rewrite !mset_same in H4.
  rewrite !(mset_other _ _ Hij'), !mset_same in H3.
  inversion H3. inversion H4. repeat split; congruence.
Qed.
End OverrideMatrices.

(** ** Reversal of a pair spelled as the record stores it *)

Section Reversal.
Context {K : Type} {SK : Scalar K}.

Lemma names_of_subscript (el : json K) (a b : string) :
  names_of el = Some (a, b) ->
  subscript el "Name1" = Ok (JStr a) /\ subscript el "Name2" = Ok (JStr b).
Proof.
  unfold names_of, subscript.
  destruct el as [| | | |l|m]; try discriminate.
  destruct (assoc m "Name1") as [[| | |s1| |]|]; try discriminate.
  destruct (assoc m "Name2") as [[| | |s2| |]|]; try discriminate.
  intro Heq. inversion Heq; subst. split; reflexivity.
Qed.

(** When the two names are distinct and spelled exactly as the record
    stores them, the stored order returns the record's values and the
    reversed order the reciprocals of its [betaT] and [betaV]. *)
Lemma reversal_with_stored_spelling (collection flags : json K)
    (n1 n2 : string) (el : json K) (betaT gammaT betaV gammaV : K) :
  n1 <> n2 ->
  MultiFluidReducingFunction.get_BIPdep collection [n1; n2] flags = Ok el ->
  names_of el = Some (n1, n2) ->
  MultiFluidReducingFunction.get_binary_interaction_double collection [n1; n2] flags
  = Ok (betaT, gammaT, betaV, gammaV) ->
  MultiFluidReducingFunction.get_binary_interaction_double collection [n2; n1] flags
  = Ok ((one / betaT)%K, gammaT, (one / betaV)%K, gammaV).
Proof.
  intros Hne Hel Hnames Hfwd.
  destruct (names_of_subscript _ Hnames) as [HN1 HN2].
  unfold MultiFluidReducingFunction.get_binary_interaction_double in *.
  rewrite <- get_BIPdep_swap. rewrite Hel in *. cbn [bind] in *.
  destruct (subscript el "betaT") as [j1|e]; [| discriminate]. cbn [bind] in *.
  destruct (get_double j1) as [x1|e]; [| discriminate]. cbn [bind] in *.
  destruct (subscript el "gammaT") as [j2|e]; [| discriminate]. cbn [bind] in *.
  destruct (get_double j2) as [x2|e]; [| discriminate]. cbn [bind] in *.
  destruct (subscript el "betaV") as [j3|e]; [| discriminate]. cbn [bind] in *.
  destruct (get_double j3) as [x3|e]; [| discriminate]. cbn [bind] in *.
  destruct (subscript el "gammaV") as [j4|e]; [| discriminate]. cbn [bind] in *.
  destruct (get_double j4) as [x4|e]; [| discriminate]. cbn [bind] in *.
  rewrite HN2 in *. cbn [bind nth string_eq_json] in *.
  rewrite String.eqb_refl. rewrite HN1. cbn [bind string_eq_json].
  rewrite String.eqb_refl.
  apply String.eqb_neq in Hne. rewrite Hne in Hfwd. cbn [bind] in Hfwd.
  inversion Hfwd; subst. reflexivity.
Qed.
End Reversal.

(** ** The exponential term accepts every exponent array *)

Section ExponentialTerm.
Context {K : Type} {SK : Scalar K}.

Lemma get_doubles_numbers (l : list K) : get_doubles (map JNum l) = Ok l.
Proof.
  induction l as [|x l IH]; [reflexivity |].
  cbn [map get_doubles get_double bind]. rewrite IH. reflexivity.
Qed.

(** Whatever numbers the [l] array of an exponential record holds, the
    term is built, with [l_i] their truncations. *)
Lemma build_exponential_accepts_any_l (n t d g l : list K) :
  List.length t = List.length n -> List.length d = List.length n ->
  List.length g = List.length n -> List.length l = List.length n ->
  build_exponential
    (JObj [("n", JArr (map JNum n)); ("t", JArr (map JNum t));
           ("d", JArr (map JNum d)); ("g", JArr (map JNum g));
           ("l", JArr (map JNum l))]%string)
  = Ok (mkExponential n t d g l (map to_int l)).
Proof.
  intros Ht Hd Hg Hl. unfold build_exponential, field, toeig, get_vector_double.
  cbn [subscript assoc String.eqb Ascii.eqb Bool.eqb bind].
  rewrite !get_doubles_numbers. cbn [bind].
  unfold require, all_same_length.
  cbn [sizes_at at_ assoc String.eqb Ascii.eqb Bool.eqb bind size forallb].
  rewrite !length_map, Ht, Hd, Hg, Hl, !Nat.eqb_refl. reflexivity.
Qed.
End ExponentialTerm.

(** ** Pure compositions *)

Section PureCompositions.
Local Open Scope R_scope.

Lemma fold_left_Rplus_zeros (l : list R) (acc : R) :
  (forall x, In x l -> x = 0) -> fold_left Rplus l acc = acc.
Proof.
  revert acc. induction l as [|x l IH]; intros acc Hz; simpl; [reflexivity |].
  rewrite IH by (intros y Hy; apply Hz; right; exact Hy).
  rewrite (Hz x) by (left; reflexivity). ring.
Qed.

Lemma sum_list_zeros (l : list R) :
  (forall x, In x l -> x = 0) -> sum_list l = 0.
Proof.
  intro Hz. unfold sum_list. cbn [add zero Scalar_R].
  apply fold_left_Rplus_zeros. exact Hz.
Qed.

(** A sum whose terms vanish except at index [k]. *)
Lemma sum_list_single (N k : nat) (f : nat -> R) :
  (k < N)%nat -> (forall i, (i < N)%nat -> i <> k -> f i = 0) ->
  sum_list (map f (seq 0 N)) = f k.
Proof.
  intros Hk Hz. unfold sum_list. cbn [add zero Scalar_R].
  induction N as [|n IH]; [lia |].
  rewrite seq_S, map_app, fold_left_app. cbn [map fold_left Nat.add].
  destruct (Nat.eq_dec k n) as [-> | Hne].
  - rewrite fold_left_Rplus_zeros; [ring |].
    intros x Hx. apply in_map_iff in Hx. destruct Hx as [i [<- Hi]].
    apply in_seq in Hi. apply Hz; lia.
  - rewrite IH; [| lia | intros i Hi Hik; apply Hz; lia].
    rewrite (Hz n) by lia. ring.
Qed.

Lemma nth_pure_composition (N k i : nat) :
  nth i (pure_composition N k) 0 = if (i <? N)%nat && (i =? k)%nat then 1 else 0.
Proof.
  unfold pure_composition.
  set (f := fun i : nat => if (i =? k)%nat then 1 else 0).
  destruct (Nat.ltb_spec i N) as [Hlt | Hge]; cbn [andb].
  - rewrite nth_indep with (d' := f 0%nat)
      by (rewrite length_map, length_seq; exact Hlt).
    rewrite map_nth, seq_nth by exact Hlt. reflexivity.
  - apply nth_overflow. rewrite length_map, length_seq. exact Hge.
Qed.

(** At a pure composition [Y] is the pure component's own value: every
    cross term carries the product of two different mole fractions.  Over
    [R] this also covers the pairs of two absent components, whose quotient
    is zero over zero; the theorems that use the lemma assume the divisors
    not zero. *)
Lemma Y_pure_composition (N k : nat) (Yc : list R) (beta Yij : Matrix R) :
  (k < N)%nat ->
  MultiFluidReducingFunction.Y (pure_composition N k) Yc beta Yij = nth k Yc 0.
Proof.
  intro Hk. rewrite Y_reducing_formula. unfold reducing_formula.
  cbn [add mul div of_int zero Scalar_R].
  assert (HN : List.length (pure_composition N k) = N)
    by (unfold pure_composition; rewrite length_map, length_seq; reflexivity).
  rewrite HN.
  rewrite (sum_list_single (k := k)); [| exact Hk |].
  - rewrite sum_list_zeros.
    + rewrite nth_pure_composition.
      destruct (Nat.ltb_spec k N); [| lia]. rewrite Nat.eqb_refl. cbn [andb]. ring.
    + intros x Hx. apply in_map_iff in Hx. destruct Hx as [[i j] [<- Hin]].
      apply in_pairs_upper in Hin. rewrite !nth_pure_composition.
      destruct (Nat.eqb_spec i k) as [-> | Hik];
        destruct (Nat.eqb_spec j k) as [-> | Hjk]; try lia;
        rewrite ?andb_false_r; unfold Rdiv; ring.
  - intros i Hi Hik. rewrite nth_pure_composition.
    destruct (Nat.eqb_spec i k); [contradiction |].
    rewrite andb_false_r. ring.
Qed.

End PureCompositions.

(** ** The code on concrete documents *)

Section Evaluations.
Local Open Scope string_scope.

(** C5, as stated, fails: the message thrown for the unmatched pair
    methane/propane names neither component. *)
Lemma unmatched_pair_error_names_no_component :
  exists e,
    MultiFluidReducingFunction.get_BIPdep example_catalog ["Methane"; "Propane"] JNull
    = Err e
    /\ names_component e "Methane" = false
    /\ names_component e "Propane" = false.
Proof.
  eexists. split; [vm_compute; reflexivity |]. split; reflexivity.
Qed.

(** C7, as stated, fails: the record for methane and ethane carries no
    function name, the pair gets the Null term, and yet [F(0,1)] is the 1
    the record stores, not 0. *)
Lemma function_name_absent_yet_F_is_one :
  no_function_name methane_ethane = true
  /\ MultiFluidReducingFunction.get_BIPdep example_catalog two_components JNull
     = Ok methane_ethane
  /\ exists funcs F,
      get_departure_function_matrix (JArr []) example_catalog two_components JNull
      = Ok funcs
      /\ funcs 0 1 = [NullEOSTerm] /\ funcs 1 0 = [NullEOSTerm]
      /\ MultiFluidReducingFunction.get_F_matrix example_catalog two_components JNull
         = Ok F
      /\ F 0 1 = 1%Q /\ F 0 1 <> 0%Q.
Proof.
  split; [reflexivity |]. split; [reflexivity |].
  eexists. eexists.
  split; [vm_compute; reflexivity |].
  split; [reflexivity |]. split; [reflexivity |].
  split; [vm_compute; reflexivity |].
  split; [reflexivity | discriminate].
Qed.

(** C9, as stated, fails: overriding [gammaT] of the dummy binary model
    moves the reducing temperature at [z = (1/2, 1/2)] from 1 to 3/2, and
    with it the corresponding-states contribution at [T = 1], [rho = 1]
    from 1 to 3/2 and the share of each component from 1/2 to 3/4. *)
Lemma adapter_moves_pure_contributions :
  exists mfa,
    build_multifluid_mutant no_dump dummy_binary_model (override_entry 1 2 1 1 0)
    = Ok mfa
    /\ corresponding_states_at (MultiFluid.redfunc dummy_binary_model)
         (MultiFluid.corr dummy_binary_model) 1%Q 1%Q [1 # 2; 1 # 2] = 1%Q
    /\ corresponding_states_at (MultiFluidAdapter.redfunc mfa)
         (MultiFluid.corr (MultiFluidAdapter.base mfa)) 1%Q 1%Q [1 # 2; 1 # 2]
       = (3 # 2)%Q
    /\ pure_contribution_at (MultiFluid.redfunc dummy_binary_model)
         (MultiFluid.corr dummy_binary_model) 1%Q 1%Q [1 # 2; 1 # 2] 0 = (1 # 2)%Q
    /\ pure_contribution_at (MultiFluidAdapter.redfunc mfa)
         (MultiFluid.corr (MultiFluidAdapter.base mfa)) 1%Q 1%Q [1 # 2; 1 # 2] 0
       = (3 # 4)%Q.
Proof.
  eexists. split; [vm_compute; reflexivity |].
  repeat split; vm_compute; reflexivity.
Qed.

(** C3 on a concrete model.  The base model is built from the catalog,
    with [betaT(0,1) = 2]; the override document sets [betaT] to 4.  The
    rebuilt reducing function holds [betaT(0,1) = 4] and
    [betaT(1,0) = 1/2], the reciprocal of the base model's value: 4 is not
    the reciprocal of 1/2.  [gammaT] is mirrored as it should. *)
Theorem mutant_betaT_not_reciprocal :
  exists model mfa,
    catalog_model = Ok model
    /\ MultiFluidReducingFunction.betaT (MultiFluid.redfunc model) 0 1 = 2%Q
    /\ build_multifluid_mutant no_dump model (override_entry 4 3 8 5 0) = Ok mfa
    /\ MultiFluidReducingFunction.betaT (MultiFluidAdapter.redfunc mfa) 0 1 = 4%Q
    /\ MultiFluidReducingFunction.betaT (MultiFluidAdapter.redfunc mfa) 1 0 = (1 # 2)%Q
    /\ MultiFluidReducingFunction.betaT (MultiFluidAdapter.redfunc mfa) 0 1
       <> (one / MultiFluidReducingFunction.betaT (MultiFluidAdapter.redfunc mfa) 1 0)%K
    /\ MultiFluidReducingFunction.betaV (MultiFluidAdapter.redfunc mfa) 0 1 = 8%Q
    /\ MultiFluidReducingFunction.betaV (MultiFluidAdapter.redfunc mfa) 1 0 = (1 # 4)%Q
    /\ MultiFluidReducingFunction.gammaT (MultiFluidAdapter.redfunc mfa) 0 1
       = MultiFluidReducingFunction.gammaT (MultiFluidAdapter.redfunc mfa) 1 0.
Proof.
  eexists. eexists.
  split; [vm_compute; reflexivity |].
  split; [vm_compute; reflexivity |].
  split; [vm_compute; reflexivity |].
  repeat split; try (vm_compute; reflexivity).
  vm_compute. discriminate.
Qed.

(** C4 on concrete records.  A pure-fluid power term with arrays of
    different lengths is built without an error, where the same arrays as a
    departure function are rejected; an [l] array holding 3/2 is accepted by
    the exponential term and by the power sub-term of a composite record,
    where the power term and the Lemmon2005 term reject it. *)
Theorem unchecked_term_records :
  is_ok (get_EOS_terms (JArr [ragged_power_term])) = true
  /\ build_departure_function ragged_departure_term
     = Err (invalid_argument "Lengths are not all identical in polynomial term")
  /\ get_EOS_terms (JArr [fractional_exponential_term])
     = Ok [Exponential (mkExponential [1] [1] [1] [1] [3 # 2] [1%Z])]%Q
  /\ get_EOS_terms (JArr [fractional_power_term])
     = Err (invalid_argument "Non-integer entry in l found")
  /\ get_EOS_terms (JArr [fractional_Lemmon2005_term])
     = Err (invalid_argument "Non-integer entry in l found")
  /\ build_departure_function fractional_GERG_term
     = Ok [Power (mkPower [1] [1] [1] [1] [3 # 2] [1%Z]);
           GERG2004 (mkGERG2004 [2] [2] [1] [1] [1] [1] [1])]%Q.
Proof.
  repeat split; vm_compute; reflexivity.
Qed.

(** C6 on a concrete catalog.  The record stores "Methane" and "Ethane"
    with [betaT = 2] and [betaV = 4].  Asked for in upper case, the pair
    matches in either order, and both orders return [betaT = 2] and
    [betaV = 4]: the values are not reciprocal.  With the stored spelling
    the reversed order does return the reciprocals. *)
Theorem case_insensitive_match_skips_reversal :
  matches_pair "METHANE" "ETHANE" methane_ethane = true
  /\ MultiFluidReducingFunction.get_binary_interaction_double example_catalog
       ["METHANE"; "ETHANE"] JNull = Ok (2, 3, 4, 5)%Q
  /\ MultiFluidReducingFunction.get_binary_interaction_double example_catalog
       ["ETHANE"; "METHANE"] JNull = Ok (2, 3, 4, 5)%Q
  /\ MultiFluidReducingFunction.get_binary_interaction_double example_catalog
       ["Methane"; "Ethane"] JNull = Ok (2, 3, 4, 5)%Q
  /\ MultiFluidReducingFunction.get_binary_interaction_double example_catalog
       ["Ethane"; "Methane"] JNull = Ok (1 # 2, 3, 1 # 4, 5)%Q.
Proof.
  repeat split; vm_compute; reflexivity.
Qed.
End Evaluations.

(** ** The theorems on concrete inputs *)

Section Witnesses.
Local Open Scope string_scope.

(** An equimolar binary mixture with identity mixing parameters. *)
Lemma reducing_function_formulas_witness :
  List.length [1; 1]%R = List.length [/ 2; / 2]%R
  /\ (let r := MultiFluidReducingFunction.make (mconst 1%R) (mconst 1%R)
                 (mconst 1%R) (mconst 1%R) [1; 1]%R [1; 1]%R in
      get_Tr r [/ 2; / 2]%R
      = reducing_formula [/ 2; / 2]%R [1; 1]%R (mconst 1%R)
          (YT_formula (mconst 1%R) (mconst 1%R) [1; 1]%R)
      /\ get_rhor r [/ 2; / 2]%R
         = (1 / reducing_formula [/ 2; / 2]%R [1; 1]%R (mconst 1%R)
                  (Yv_formula (mconst 1%R) (mconst 1%R) [1; 1]%R))%R).
Proof.
  split; [reflexivity |].
  apply (reducing_function_formulas (mconst 1%R) (mconst 1%R) (mconst 1%R)
           (mconst 1%R) [1; 1]%R [1; 1]%R [/ 2; / 2]%R); reflexivity.
Defined.

(** Methane and propane against a catalog that holds methane and ethane. *)
Lemma get_BIPdep_unmatched_witness :
  unmatched example_catalog "Methane" "Propane" = true
  /\ MultiFluidReducingFunction.get_BIPdep example_catalog ["Methane"; "Propane"] JNull
     = Err (invalid_argument "Can't match this binary pair")
  /\ MultiFluidReducingFunction.get_BIPdep example_catalog ["Methane"; "Propane"]
       estimate_flags
     = Ok MultiFluidReducingFunction.estimate_default.
Proof.
  split; [reflexivity |]. split.
  - apply (get_BIPdep_unmatched example_catalog "Methane" "Propane" JNull).
    reflexivity.
  - apply (get_BIPdep_unmatched example_catalog "Methane" "Propane" estimate_flags).
    reflexivity.
Defined.

(** Methane and ethane, which the catalog does hold, under the "estimate"
    flag. *)
Lemma get_BIPdep_estimate_ignores_catalog_witness :
  contains estimate_flags "estimate" = true
  /\ matches_pair "Methane" "Ethane" methane_ethane = true
  /\ MultiFluidReducingFunction.get_BIPdep example_catalog two_components estimate_flags
     = Ok MultiFluidReducingFunction.estimate_default.
Proof.
  split; [reflexivity |]. split; [reflexivity |].
  apply (get_BIPdep_estimate_ignores_catalog example_catalog two_components
           estimate_flags).
  reflexivity.
Defined.

(** The record for methane and ethane, which names no departure function. *)
Lemma pair_without_function_name_witness :
  MultiFluidReducingFunction.get_BIPdep example_catalog
    [nth 0 two_components EmptyString; nth 1 two_components EmptyString] JNull
  = Ok methane_ethane
  /\ no_function_name methane_ethane = true
  /\ (forall funcs,
        get_departure_function_matrix (JArr []) example_catalog two_components JNull
        = Ok funcs ->
        funcs 0 1 = [NullEOSTerm] /\ funcs 1 0 = [NullEOSTerm])
  /\ (forall F,
        MultiFluidReducingFunction.get_F_matrix example_catalog two_components JNull
        = Ok F ->
        exists f, number_at methane_ethane "F" = Ok f /\ F 0 1 = f /\ F 1 0 = f)
  /\ (forall F0, exists F',
        MultiFluidReducingFunction.F_matrix_body example_catalog two_components JNull
          0 1 F0 = Ok F'
        /\ F' 0 1 = 1%Q /\ F' 1 0 = 1%Q).
Proof.
  split; [reflexivity |]. split; [reflexivity |].
  destruct (pair_without_function_name (JArr []) example_catalog two_components JNull
              (i := 0) (j := 1) (BIP := methane_ethane)
              Nat.lt_0_1 Nat.lt_1_2 eq_refl eq_refl)
    as (_ & Hfuncs & HF & Hstep & _).
  split; [exact Hfuncs |]. split; [exact HF |].
  exact (Hstep 1%Q eq_refl).
Defined.

(** Component densities 2 and 3, with and without the total 5. *)
Lemma alphar_rhovec_total_override_invariant_witness :
  5%Q = accumulate [2; 3]%Q zero
  /\ MultiFluid.alphar_rhovec (build_dummy_multifluid_model ["A"; "B"]) 300%Q
       [2; 3]%Q (Some 5%Q)
     = MultiFluid.alphar_rhovec (build_dummy_multifluid_model ["A"; "B"]) 300%Q
         [2; 3]%Q None.
Proof.
  split; [reflexivity |].
  apply (alphar_rhovec_total_override_invariant
           (build_dummy_multifluid_model ["A"; "B"]) 300%Q [2; 3]%Q (rhotot := 5%Q)).
  reflexivity.
Defined.

(** The dummy binary model with [gammaT] overridden. *)
Lemma adapter_reuses_pure_component_terms_witness :
  exists mfa,
    build_multifluid_mutant no_dump dummy_binary_model (override_entry 1 2 1 1 0)
    = Ok mfa
    /\ MultiFluid.corr (MultiFluidAdapter.base mfa)
       = MultiFluid.corr dummy_binary_model
    /\ forall tau delta i,
         CorrespondingStatesContribution.alphari
           (MultiFluid.corr (MultiFluidAdapter.base mfa)) tau delta i
         = CorrespondingStatesContribution.alphari
             (MultiFluid.corr dummy_binary_model) tau delta i.
Proof.
  eexists. split; [vm_compute; reflexivity |].
  split.
  - apply (adapter_reuses_pure_component_terms (EED := null_terms_alphar) no_dump
             dummy_binary_model (override_entry 1 2 1 1 0)).
    vm_compute. reflexivity.
  - apply (adapter_reuses_pure_component_terms (EED := null_terms_alphar) no_dump
             dummy_binary_model (override_entry 1 2 1 1 0)).
    vm_compute. reflexivity.
Defined.
End Witnesses.

(** * Further properties of the code *)

(** ** Resolution of a pair against the catalog *)

Section ResolutionMore.
Context {K : Type} {SK : Scalar K}.

Lemma find_pair_first_match (c0 c1 : string) (els : list (json K)) :
  forallb (fun el => match names_of el with Some _ => true | None => false end) els
  = true ->
  MultiFluidReducingFunction.find_pair (toupper c0) (toupper c1) els
  = match find (matches_pair c0 c1) els with
    | Some el => Ok el
    | None => Err (invalid_argument "Can't match this binary pair")
    end.
Proof.
  induction els as [|el rest IH]; intro Hwf.
  - reflexivity.
  - cbn [forallb] in Hwf. apply andb_true_iff in Hwf. destruct Hwf as [Hel Hrest].
    destruct (names_of el) as [[a b]|] eqn:Hnames; [| discriminate].
    rewrite find_pair_cons with (a := a) (b := b) by exact Hnames.
    cbn [find]. unfold matches_pair at 1. rewrite Hnames.
    destruct (_ || _); [reflexivity | apply IH; exact Hrest].
Qed.

(** X1. Without the "estimate" flag, and on a catalog whose elements all
    name two components, [get_BIPdep] returns the first record that matches
    the pair in either order and whatever the case of the letters, and throws
    when there is none. *)
Theorem get_BIPdep_returns_first_match (collection : json K) (c0 c1 : string)
    (flags : json K) :
  contains flags "estimate" = false ->
  well_formed_catalog collection = true ->
  MultiFluidReducingFunction.get_BIPdep collection [c0; c1] flags
  = match first_match collection c0 c1 with
    | Some el => Ok el
    | None => Err (invalid_argument "Can't match this binary pair")
    end.
Proof.
  intros Hflag Hwf. unfold MultiFluidReducingFunction.get_BIPdep.
  rewrite Hflag. cbn [nth]. apply find_pair_first_match. exact Hwf.
Qed.

(** X2. The record resolved for a pair depends neither on the order of the
    two names nor on the case of their letters. *)
Theorem get_BIPdep_ignores_order_and_case (collection : json K)
    (c0 c1 d0 d1 : string) (flags : json K) :
  toupper c0 = toupper d0 -> toupper c1 = toupper d1 ->
  MultiFluidReducingFunction.get_BIPdep collection [c0; c1] flags
  = MultiFluidReducingFunction.get_BIPdep collection [d1; d0] flags.
Proof.
  intros H0 H1. unfold MultiFluidReducingFunction.get_BIPdep.
  destruct (contains flags "estimate"); [reflexivity |].
  cbn [nth]. rewrite H0, H1. apply find_pair_swap.
Qed.
End ResolutionMore.

Lemma get_BIPdep_returns_first_match_witness :
  contains (JNull : json Q) "estimate" = false
  /\ well_formed_catalog example_catalog = true
  /\ MultiFluidReducingFunction.get_BIPdep example_catalog
       ["ethane"; "METHANE"]%string JNull = Ok methane_ethane.
Proof.
  split; [reflexivity |]. split; [reflexivity |].
  apply (get_BIPdep_returns_first_match example_catalog "ethane" "METHANE" JNull);
    reflexivity.
Defined.

Lemma get_BIPdep_ignores_order_and_case_witness :
  toupper "methane" = toupper "Methane"
  /\ toupper "ETHANE" = toupper "Ethane"
  /\ MultiFluidReducingFunction.get_BIPdep example_catalog
       ["methane"; "ETHANE"]%string JNull
     = MultiFluidReducingFunction.get_BIPdep example_catalog
         ["Ethane"; "Methane"]%string JNull.
Proof.
  split; [reflexivity |]. split; [reflexivity |].
  apply (get_BIPdep_ignores_order_and_case example_catalog
           "methane" "ETHANE" "Methane" "Ethane" JNull); reflexivity.
Defined.

(** ** Matrices built from a catalog *)

Section CatalogMatricesMore.
Context {K : Type} {SK : Scalar K}.

(** X3. In the matrices [get_BIP_matrices] returns, every pair [i < j] holds
    above the diagonal the four values resolved for the pair and below it the
    reciprocals of the two [beta]s and the same two [gamma]s; the diagonals
    are zero. *)
Theorem get_BIP_matrices_entries (collection : json K) (components : list string)
    (flags : json K) (betaT gammaT betaV gammaV : Matrix K) :
  MultiFluidReducingFunction.get_BIP_matrices collection components flags
  = Ok (betaT, gammaT, betaV, gammaV) ->
  (forall i j, i < j -> j < List.length components ->
     exists x1 x2 x3 x4,
       MultiFluidReducingFunction.get_binary_interaction_double collection
         [nth i components EmptyString; nth j components EmptyString] flags
       = Ok (x1, x2, x3, x4)
       /\ betaT i j = x1 /\ betaT j i = (one / x1)%K
       /\ gammaT i j = x2 /\ gammaT j i = x2
       /\ betaV i j = x3 /\ betaV j i = (one / x3)%K
       /\ gammaV i j = x4 /\ gammaV j i = x4)
  /\ (forall i, betaT i i = zero /\ gammaT i i = zero
               /\ betaV i i = zero /\ gammaV i i = zero).
Proof.
  intro Hrun. unfold MultiFluidReducingFunction.get_BIP_matrices in Hrun.
  rewrite for_rangeM_pairs_upper in Hrun. split.
  - intros i j Hij HjN.
    destruct (foldM_visited BIP_entries _
                (BIP_body_frame collection components flags)
                (NoDup_pairs_upper (List.length components))
                (fun p Hp => ltac:(destruct p as [a b];
                                   apply in_pairs_upper in Hp; simpl; lia))
                _ Hrun i j ltac:(apply in_pairs_upper; lia))
      as (s1 & s2 & Hbody & _ & _ & H3 & H4).
    cbn [fst snd] in Hbody. destruct s1 as [[[bT gT] bV] gV].
    unfold MultiFluidReducingFunction.BIP_matrices_body in Hbody.
    destruct (MultiFluidReducingFunction.get_binary_interaction_double _ _ _)
      as [[[[x1 x2] x3] x4] | e] eqn:Hres; [| discriminate].
    cbn [bind] in Hbody. inversion Hbody; subst s2. clear Hbody.
    unfold BIP_entries in H3, H4.
    assert (Hij' : (i, j) <> (j, i)) by (intro Heq; inversion Heq; lia).
    rewrite !mset_same in H4.
    rewrite !(mset_other _ _ Hij'), !mset_same in H3.
    inversion H3. inversion H4.
    exists x1, x2, x3, x4. repeat split; congruence.
  - intro i.
    assert (Hdiag : BIP_entries (betaT, gammaT, betaV, gammaV) i i
                    = BIP_entries (mconst zero, mconst zero, mconst zero, mconst zero)
                        i i).
    { eapply foldM_untouched with (obs := BIP_entries).
      - apply (BIP_body_frame collection components flags).
      - exact Hrun.
      - intro Hin. apply in_pairs_upper in Hin. lia.
      - intro Hin. apply in_pairs_upper in Hin. lia. }
    unfold BIP_entries, mconst in Hdiag. inversion Hdiag.
    repeat split; reflexivity.
Qed.

(** X4. The matrix [get_F_matrix] returns has a zero diagonal and equal
    entries across it, within the number of components. *)
Theorem get_F_matrix_symmetric (collection : json K) (components : list string)
    (flags : json K) (F : Matrix K) :
  MultiFluidReducingFunction.get_F_matrix collection components flags = Ok F ->
  (forall i, i < List.length components -> F i i = zero)
  /\ (forall i j, i < List.length components -> j < List.length components ->
        F i j = F j i).
Proof.
  intro Hrun. unfold MultiFluidReducingFunction.get_F_matrix in Hrun.
  cbv zeta in Hrun. rewrite for_rangeM_with_diagonal in Hrun.
  assert (Hvisit : forall i j, i <= j -> j < List.length components ->
            exists s1 s2 : Matrix K,
              (if i =? j then Ok (mset s1 i i zero)
               else MultiFluidReducingFunction.F_matrix_body collection components
                      flags i j s1) = Ok s2
              /\ F i j = s2 i j /\ F j i = s2 j i).
  { intros i j Hij Hj.
    destruct (foldM_visited (fun s : Matrix K => s) _
                (F_body_frame collection components flags)
                (NoDup_pairs_diag (List.length components))
                (fun p Hp => ltac:(destruct p as [a b];
                                   apply in_pairs_diag in Hp; simpl; lia))
                _ Hrun i j ltac:(apply in_pairs_diag; lia))
      as (s1 & s2 & Hbody & _ & _ & H3 & H4).
    exists s1, s2. cbn [fst snd] in Hbody. repeat split; assumption. }
  assert (Hupper : forall i j, i < j -> j < List.length components -> F i j = F j i).
  { intros i j Hij Hj.
    destruct (Hvisit i j (Nat.lt_le_incl _ _ Hij) Hj) as (s1 & s2 & Hbody & H3 & H4).
    destruct (Nat.eqb_spec i j) as [Heq | _]; [lia |].
    unfold MultiFluidReducingFunction.F_matrix_body in Hbody.
    destruct (MultiFluidReducingFunction.get_BIPdep _ _ _) as [el | e];
      [| discriminate].
    cbn [bind] in Hbody.
    assert (Hij' : (i, j) <> (j, i)) by (intro Heq; inversion Heq; lia).
    destruct (empty el).
    - inversion Hbody; subst s2. rewrite H3, H4.
      rewrite (mset_other _ _ Hij'), !mset_same. reflexivity.
    - destruct (x <- subscript el "F" ;; get_double x) as [f | e]; [| discriminate].
      cbn [bind] in Hbody. inversion Hbody; subst s2. rewrite H3, H4.
      rewrite (mset_other _ _ Hij'), !mset_same. reflexivity. }
  split.
  - intros i Hi.
    destruct (Hvisit i i (Nat.le_refl i) Hi) as (s1 & s2 & Hbody & H3 & _).
    rewrite Nat.eqb_refl in Hbody. inversion Hbody; subst s2.
    rewrite H3. apply mset_same.
  - intros i j Hi Hj.
    destruct (Nat.lt_trichotomy i j) as [Hlt | [-> | Hgt]].
    + apply Hupper; assumption.
    + reflexivity.
    + symmetry. apply Hupper; assumption.
Qed.
End CatalogMatricesMore.

Lemma get_BIP_matrices_entries_witness :
  exists betaT gammaT betaV gammaV : Matrix Q,
    MultiFluidReducingFunction.get_BIP_matrices example_catalog two_components JNull
    = Ok (betaT, gammaT, betaV, gammaV)
    /\ (forall i, betaT i i = zero /\ gammaT i i = zero
                 /\ betaV i i = zero /\ gammaV i i = zero).
Proof.
  eexists. eexists. eexists. eexists.
  split; [vm_compute; reflexivity |].
  apply (get_BIP_matrices_entries example_catalog two_components JNull).
  vm_compute. reflexivity.
Defined.

Lemma get_F_matrix_symmetric_witness :
  exists F : Matrix Q,
    MultiFluidReducingFunction.get_F_matrix example_catalog two_components JNull = Ok F
    /\ (forall i, i < List.length two_components -> F i i = zero).
Proof.
  eexists. split; [vm_compute; reflexivity |].
  apply (get_F_matrix_symmetric example_catalog two_components JNull).
  vm_compute. reflexivity.
Defined.

(** ** Departure functions by type tag *)

Section DepartureFunctionsMore.
Context {K : Type} {SK : Scalar K}.

Lemma get_doubles_length (l : list (json K)) (xs : list K) :
  get_doubles l = Ok xs -> List.length xs = List.length l.
Proof.
  revert xs. induction l as [|j l IH]; intros xs Hget.
  - inversion Hget. reflexivity.
  - cbn [get_doubles] in Hget. bind_ok Hget. inversion Hget; subst xs.
    cbn [List.length]. f_equal. apply IH. reflexivity.
Qed.

Lemma toeig_length (v : json K) (xs : list K) :
  toeig v = Ok xs -> List.length xs = size v.
Proof.
  unfold toeig, get_vector_double. destruct v as [| | | |l|m]; try discriminate.
  apply get_doubles_length.
Qed.

Lemma at_subscript_const (j v : json K) (key : string) :
  at_ j key = Ok v -> subscript_const j key = Ok v.
Proof.
  unfold at_, subscript_const. destruct j as [| | | |l|m]; try discriminate.
  destruct (assoc m key); [trivial | discriminate].
Qed.

Lemma sizes_at_ok (j : json K) (ks : list string) (ns : list nat) :
  sizes_at j ks = Ok ns ->
  Forall2 (fun k n => exists v, at_ j k = Ok v /\ size v = n) ks ns.
Proof.
  revert ns. induction ks as [|k ks IH]; intros ns Hs.
  - inversion Hs. constructor.
  - cbn [sizes_at] in Hs.
    destruct (at_ j k) as [v | e] eqn:Hv; [| discriminate]. cbn [bind] in Hs.
    destruct (sizes_at j ks) as [ns' | e]; [| discriminate]. cbn [bind] in Hs.
    inversion Hs; subst ns. constructor.
    + exists v. split; [exact Hv | reflexivity].
    + apply IH. reflexivity.
Qed.

(** When [all_same_length] holds, every key is present and all the sizes are
    one number. *)
Lemma all_same_length_sizes (j : json K) (ks : list string) :
  all_same_length j ks = Ok true ->
  exists n, forall k, In k ks -> exists v, at_ j k = Ok v /\ size v = n.
Proof.
  unfold all_same_length. intro Hall.
  destruct (sizes_at j ks) as [ns | e] eqn:Hs; [| discriminate].
  cbn [bind] in Hall. apply sizes_at_ok in Hs.
  destruct ns as [|n ns']; [discriminate |].
  inversion Hall as [Heq]. exists n.
  assert (Hn : Forall (fun m => m = n) (n :: ns')).
  { constructor; [reflexivity |]. apply Forall_forall. intros m Hm.
    rewrite forallb_forall in Heq. specialize (Heq m Hm).
    apply Nat.eqb_eq in Heq. congruence. }
  clear Heq Hall. revert Hn Hs. generalize (n :: ns'). clear ns'.
  intros l Hn Hs k Hk. revert Hn.
  induction Hs as [|k' n' ks' l' [v [Hv Hsz]] Hrest IH]; intro Hn.
  - contradiction.
  - inversion Hn; subst. destruct Hk as [-> | Hk].
    + exists v. split; [exact Hv | reflexivity].
    + apply IH; assumption.
Qed.

(** Cutting an array at [k] and taking the remaining entries from its end
    gives back the array. *)
Lemma head_tail_app (a h t : list K) (k : Z) :
  head a k = Ok h -> tail a (Z.of_nat (List.length a) - k) = Ok t ->
  h ++ t = a /\ List.length h = Z.to_nat k.
Proof.
  unfold head, tail. intros Hh Ht.
  destruct ((0 <=? k)%Z && (k <=? Z.of_nat (List.length a))%Z) eqn:Hk;
    [| discriminate].
  apply andb_true_iff in Hk. destruct Hk as [Hk0 Hk1].
  apply Z.leb_le in Hk0. apply Z.leb_le in Hk1.
  destruct (_ && _) in Ht; [| discriminate].
  inversion Hh; subst h. inversion Ht; subst t.
  replace (List.length a - Z.to_nat (Z.of_nat (List.length a) - k))
    with (Z.to_nat k) by lia.
  split; [apply firstn_skipn |].
  apply firstn_length_le. lia.
Qed.

Lemma build_departure_function_shape (j : json K) (type : string) :
  type_of j = Ok type ->
  forall dep, build_departure_function j = Ok dep ->
    (type = "Exponential"%string /\ exists e, dep = [Power e])
    \/ ((type = "GERG-2004"%string \/ type = "GERG-2008"%string)
        /\ exists p g, dep = [Power p; GERG2004 g])
    \/ (type = "Gaussian+Exponential"%string
        /\ exists p g, dep = [Power p; Gaussian g])
    \/ (type = "none"%string /\ dep = [NullEOSTerm]).
Proof.
  unfold type_of. intro Htype. unfold build_departure_function.
  rewrite Htype. cbn [bind].
  intros dep Hbuild.
  destruct (String.eqb_spec type "Exponential") as [-> | _].
  { left. split; [reflexivity |]. bind_ok Hbuild. inversion Hbuild.
    eexists. reflexivity. }
  destruct (String.eqb_spec type "GERG-2004") as [H4 | _];
    [| destruct (String.eqb_spec type "GERG-2008") as [H8 | _]].
  1, 2: right; left; split; [tauto |];
    cbn [orb] in Hbuild; unfold build_GERG2004 in Hbuild; bind_ok Hbuild;
    inversion Hbuild; eexists; eexists; reflexivity.
  cbn [orb] in Hbuild.
  destruct (String.eqb_spec type "Gaussian+Exponential") as [-> | _].
  { right; right; left. split; [reflexivity |].
    unfold build_GaussianExponential in Hbuild. bind_ok Hbuild.
    inversion Hbuild. eexists; eexists; reflexivity. }
  destruct (String.eqb_spec type "none") as [-> | _]; [| discriminate].
  right; right; right. split; [reflexivity |]. inversion Hbuild. reflexivity.
Qed.

(** X5. [build_departure_function] yields one power term for "Exponential",
    a power term followed by a GERG-2004 term for "GERG-2004" and
    "GERG-2008", a power term followed by a Gaussian term for
    "Gaussian+Exponential", the Null term alone for "none", and throws
    [std::invalid_argument] naming the tag for any other tag. *)
Theorem build_departure_function_by_type (j : json K) (type : string) :
  type_of j = Ok type ->
  (forall dep, build_departure_function j = Ok dep ->
     (type = "Exponential"%string /\ exists e, dep = [Power e])
     \/ ((type = "GERG-2004"%string \/ type = "GERG-2008"%string)
         /\ exists p g, dep = [Power p; GERG2004 g])
     \/ (type = "Gaussian+Exponential"%string
         /\ exists p g, dep = [Power p; Gaussian g])
     \/ (type = "none"%string /\ dep = [NullEOSTerm]))
  /\ (~ In type departure_types ->
      build_departure_function j
      = Err (invalid_argument (concat2 "Bad departure term type: " type))).
Proof.
  intro Htype. split; [apply build_departure_function_shape; exact Htype |].
  unfold type_of in Htype. unfold build_departure_function.
  rewrite Htype. cbn [bind].
  intro Hnot. unfold departure_types in Hnot. cbn [In] in Hnot.
  destruct (String.eqb_spec type "Exponential"); [exfalso; apply Hnot; auto |].
  destruct (String.eqb_spec type "GERG-2004"); [exfalso; apply Hnot; auto |].
  destruct (String.eqb_spec type "GERG-2008"); [exfalso; apply Hnot; auto |].
  destruct (String.eqb_spec type "Gaussian+Exponential");
    [exfalso; apply Hnot; auto 6 |].
  destruct (String.eqb_spec type "none"); [exfalso; apply Hnot; auto 6 |].
  reflexivity.
Qed.

(** X6. A composite GERG record is split at [Npower]: the power sub-term
    holds the first [Npower] entries of each of [n], [t] and [d], the
    GERG-2004 sub-term the remaining ones, and joined again they are the
    arrays of the record. *)
Theorem build_GERG2004_splits_at_Npower (term : json K)
    (dep dep' : DepartureTerms K) :
  build_GERG2004 term dep = Ok dep' ->
  exists Npower p g,
    (v <- subscript_const term "Npower" ;; get_int v) = Ok Npower
    /\ dep' = dep ++ [Power p; GERG2004 g]
    /\ (exists ns, array_of term "n" = Ok ns /\ pw_n p ++ ge_n g = ns
                   /\ List.length (pw_n p) = Z.to_nat Npower)
    /\ (exists ts, array_of term "t" = Ok ts /\ pw_t p ++ ge_t g = ts
                   /\ List.length (pw_t p) = Z.to_nat Npower)
    /\ (exists ds, array_of term "d" = Ok ds /\ pw_d p ++ ge_d g = ds
                   /\ List.length (pw_d p) = Z.to_nat Npower).
Proof.
  unfold build_GERG2004. intro Hbuild.
  destruct (require _ _) as [u | e] eqn:Hreq; [| discriminate].
  cbn [bind] in Hbuild.
  destruct (v <- subscript_const term "Npower" ;; get_int v) as [Npower | e] eqn:HN;
    [| discriminate].
  cbn [bind] in Hbuild.
  destruct (subscript_const term "n") as [nj | e] eqn:Hnj; [| discriminate].
  cbn [bind] in Hbuild.
  unfold composite_power, composite_tail in Hbuild. rewrite Hnj in Hbuild.
  cbn [bind] in Hbuild.
  destruct (toeig nj) as [ns | e] eqn:Hns; [| discriminate]. cbn [bind] in Hbuild.
  destruct (head ns Npower) as [hn | e] eqn:Hhn; [| discriminate].
  cbn [bind] in Hbuild.
  destruct (subscript_const term "t") as [tj | e] eqn:Htj; [| discriminate].
  cbn [bind] in Hbuild.
  destruct (toeig tj) as [ts | e] eqn:Hts; [| discriminate]. cbn [bind] in Hbuild.
  destruct (head ts Npower) as [ht | e] eqn:Hht; [| discriminate].
  cbn [bind] in Hbuild.
  destruct (subscript_const term "d") as [dj | e] eqn:Hdj; [| discriminate].
  cbn [bind] in Hbuild.
  destruct (toeig dj) as [ds | e] eqn:Hds; [| discriminate]. cbn [bind] in Hbuild.
  destruct (head ds Npower) as [hd | e] eqn:Hhd; [| discriminate].
  cbn [bind] in Hbuild.
  destruct (if contains term "l" then _ else _) as [l | e]; [| discriminate].
  cbn [bind] in Hbuild.
  destruct (tail ns _) as [tn | e] eqn:Htn; [| discriminate]. cbn [bind] in Hbuild.
  destruct (tail ts _) as [tt | e] eqn:Htt; [| discriminate]. cbn [bind] in Hbuild.
  destruct (tail ds _) as [td | e] eqn:Htd; [| discriminate]. cbn [bind] in Hbuild.
  bind_ok Hbuild. inversion Hbuild; subst dep'. clear Hbuild.
  (* the arrays share the length of [n] *)
  unfold require in Hreq.
  destruct (all_same_length term gaussian_keys) as [b | e] eqn:Hsame; [| discriminate].
  cbn [bind] in Hreq. destruct b; [| discriminate].
  destruct (all_same_length_sizes _ _ Hsame) as [sz Hsz].
  assert (Hsize : forall name v, In name gaussian_keys ->
            subscript_const term name = Ok v -> size v = sz).
  { intros name v Hin Hv. destruct (Hsz name Hin) as (v' & Hat & Hsv).
    apply at_subscript_const in Hat. congruence. }
  pose proof (Hsize "n"%string nj ltac:(unfold gaussian_keys; cbn; auto) Hnj) as Sn.
  pose proof (Hsize "t"%string tj ltac:(unfold gaussian_keys; cbn; auto) Htj) as St.
  pose proof (Hsize "d"%string dj ltac:(unfold gaussian_keys; cbn; auto) Hdj) as Sd.
  pose proof (toeig_length _ Hns) as Ln.
  pose proof (toeig_length _ Hts) as Lt.
  pose proof (toeig_length _ Hds) as Ld.
  assert (Ltn : List.length ts = List.length ns) by congruence.
  assert (Ldn : List.length ds = List.length ns) by congruence.
  rewrite <- Ln in Htn. rewrite <- Ln, <- Ltn in Htt. rewrite <- Ln, <- Ldn in Htd.
  exists Npower. eexists. eexists.
  split; [reflexivity |]. split.
  { unfold add_term. rewrite <- app_assoc. reflexivity. }
  cbn [pw_n pw_t pw_d ge_n ge_t ge_d].
  unfold array_of. rewrite Hnj, Htj, Hdj. cbn [bind].
  split; [| split].
  - exists ns. destruct (head_tail_app _ _ Hhn Htn). repeat split; assumption.
  - exists ts. destruct (head_tail_app _ _ Hht Htt). repeat split; assumption.
  - exists ds. destruct (head_tail_app _ _ Hhd Htd). repeat split; assumption.
Qed.
End DepartureFunctionsMore.

Lemma build_departure_function_by_type_witness :
  type_of (JObj [("type", JStr "Gaussian")]%string : json Q) = Ok "Gaussian"%string
  /\ build_departure_function (JObj [("type", JStr "Gaussian")]%string : json Q)
     = Err (invalid_argument "Bad departure term type: Gaussian"%string).
Proof.
  split; [reflexivity |].
  apply (proj2 (@build_departure_function_by_type Q _
                  (JObj [("type", JStr "Gaussian")]%string) "Gaussian"%string
                  eq_refl)).
  unfold departure_types. cbn [In].
  intros [H | [H | [H | [H | [H | H]]]]]; try discriminate H. exact H.
Defined.

Lemma build_GERG2004_splits_at_Npower_witness :
  build_GERG2004 fractional_GERG_term []
  = Ok [Power (mkPower [1] [1] [1] [1] [3 # 2] [1%Z]);
        GERG2004 (mkGERG2004 [2] [2] [1] [1] [1] [1] [1])]%Q
  /\ exists Npower p g,
       (v <- subscript_const fractional_GERG_term "Npower"%string ;; get_int v)
       = Ok Npower
       /\ [Power (mkPower [1] [1] [1] [1] [3 # 2] [1%Z]);
           GERG2004 (mkGERG2004 [2] [2] [1] [1] [1] [1] [1])]%Q
          = [] ++ [Power p; GERG2004 g]
       /\ (exists ns, array_of fractional_GERG_term "n"%string = Ok ns
                      /\ pw_n p ++ ge_n g = ns
                      /\ List.length (pw_n p) = Z.to_nat Npower)
       /\ (exists ts, array_of fractional_GERG_term "t"%string = Ok ts
                      /\ pw_t p ++ ge_t g = ts
                      /\ List.length (pw_t p) = Z.to_nat Npower)
       /\ (exists ds, array_of fractional_GERG_term "d"%string = Ok ds
                      /\ pw_d p ++ ge_d g = ds
                      /\ List.length (pw_d p) = Z.to_nat Npower).
Proof.
  split; [vm_compute; reflexivity |].
  apply (build_GERG2004_splits_at_Npower fractional_GERG_term []).
  vm_compute. reflexivity.
Defined.

(** ** Departure matrices *)

Section DepartureMatricesMore.
Context {K : Type} {SK : Scalar K}.

(** X7. In the matrix [get_departure_function_matrix] returns, the diagonal
    entries are empty collections, and for every pair [i < j] the two
    mirrored entries hold the same collection, which is not empty. *)
Theorem departure_matrix_structure (depcollection BIPcollection : json K)
    (components : list string) (flags : json K)
    (funcs : Matrix (DepartureTerms K)) :
  get_departure_function_matrix depcollection BIPcollection components flags
  = Ok funcs ->
  (forall i, funcs i i = [])
  /\ (forall i j, i < j -> j < List.length components ->
        funcs j i = funcs i j /\ funcs i j <> []).
Proof.
  intro Hrun. unfold get_departure_function_matrix in Hrun.
  rewrite for_rangeM_pairs_upper in Hrun. split.
  - intro i.
    change (@nil (EOSTermVariant K)) with (mconst (@nil (EOSTermVariant K)) i i).
    eapply foldM_untouched with (obs := fun s : Matrix (DepartureTerms K) => s).
    + apply (departure_body_frame depcollection BIPcollection components flags).
    + exact Hrun.
    + intro Hin. apply in_pairs_upper in Hin. lia.
    + intro Hin. apply in_pairs_upper in Hin. lia.
  - intros i j Hij HjN.
    destruct (foldM_visited (fun s : Matrix (DepartureTerms K) => s)
                (fun p => departure_matrix_body depcollection BIPcollection
                            components flags (fst p) (snd p))
                (departure_body_frame depcollection BIPcollection components flags)
                (NoDup_pairs_upper (List.length components))
                (fun p Hp => ltac:(destruct p as [a b];
                                   apply in_pairs_upper in Hp; simpl; lia))
                _ Hrun i j ltac:(apply in_pairs_upper; lia))
      as (s1 & s2 & Hbody & H1 & H2 & H3 & H4).
    cbn [fst snd] in Hbody. unfold mconst in H1, H2.
    assert (Hij' : (i, j) <> (j, i)) by (intro Heq; inversion Heq; lia).
    unfold departure_matrix_body in Hbody.
    destruct (MultiFluidReducingFunction.get_BIPdep _ _ _) as [BIP | e];
      [| discriminate].
    cbn [bind] in Hbody.
    destruct (if contains BIP "function" then _ else _) as [funcname | e];
      [| discriminate].
    cbn [bind] in Hbody.
    destruct (negb _).
    + destruct (get_departure_json _ _) as [jj | e]; [| discriminate].
      cbn [bind] in Hbody.
      destruct (build_departure_function jj) as [f | e] eqn:Hf; [| discriminate].
      cbn [bind] in Hbody. inversion Hbody; subst s2.
      rewrite H3, H4, (mset_other _ _ Hij'), !mset_same.
      split; [reflexivity |].
      destruct (subscript_const jj "type") as [tv | e] eqn:Htv;
        [| unfold build_departure_function in Hf; rewrite Htv in Hf; discriminate].
      destruct (get_string tv) as [type | e] eqn:Hty;
        [| unfold build_departure_function in Hf; rewrite Htv in Hf;
           cbn [bind] in Hf; rewrite Hty in Hf; discriminate].
      assert (Htype : type_of jj = Ok type)
        by (unfold type_of; rewrite Htv; exact Hty).
      eapply build_departure_function_shape in Hf; [| exact Htype].
      destruct Hf as [[_ [e ->]] | [[_ [p [g ->]]] | [[_ [p [g ->]]] | [_ ->]]]];
        discriminate.
    + inversion Hbody; subst s2.
      assert (Hji : (j, i) <> (i, j)) by (intro Heq; inversion Heq; lia).
      rewrite H3, H4, (mset_other _ _ Hij'), !mset_same.
      rewrite (mset_other _ _ Hji), H1, H2.
      split; [reflexivity | discriminate].
Qed.
End DepartureMatricesMore.

Lemma departure_matrix_structure_witness :
  exists funcs : Matrix (DepartureTerms Q),
    get_departure_function_matrix (JArr []) example_catalog two_components JNull
    = Ok funcs
    /\ (forall i, funcs i i = [])
    /\ (forall i j, i < j -> j < List.length two_components ->
          funcs j i = funcs i j /\ funcs i j <> []).
Proof.
  eexists. split; [vm_compute; reflexivity |].
  apply (departure_matrix_structure (JArr []) example_catalog two_components JNull).
  vm_compute. reflexivity.
Defined.

(** ** The adapted model *)

Section AdapterMore.
Context {K : Type} {SK : Scalar K}.
Context {E1 : Type} {E2 : Type}.
Variable dump : json K -> string.

Lemma assoc_app_other (m : list (string * json K)) (key key' : string) (v : json K) :
  key <> key' -> assoc (m ++ [(key, v)]) key' = assoc m key'.
Proof.
  intro Hne. induction m as [|[k x] m IH]; cbn [app assoc].
  - destruct (String.eqb_spec key key'); [contradiction | reflexivity].
  - destruct (String.eqb k key'); [reflexivity | exact IH].
Qed.

(** Creating the key [key] leaves what is read under another key. *)
Lemma subscript_touched_other (entry : json K) (key key' : string) :
  key <> key' -> subscript (touched entry key) key' = subscript entry key'.
Proof.
  intro Hne. destruct entry as [| | | |l|m]; try reflexivity.
  - cbn [touched subscript assoc].
    destruct (String.eqb_spec key key'); [contradiction | reflexivity].
  - cbn [touched]. destruct (assoc m key) as [x |]; [reflexivity |].
    cbn [subscript]. rewrite assoc_app_other by exact Hne. reflexivity.
Qed.

(** X8. The departure contribution of an adapted model has the Null term
    alone and a zero factor on the diagonal; for every pair [i < j] it has
    the factor "Fij" of the override document on both sides of the diagonal,
    and on both sides the collection built from the record stored under
    "departure" in the entry [jj[i][j]]. *)
Theorem mutant_departure_structure
    (model : MultiFluid.t K (MultiFluidReducingFunction.t K) E1 E2) (jj : json K)
    (mfa : MultiFluidAdapter.t K (MultiFluidReducingFunction.t K) E1 E2
             (MultiFluidReducingFunction.t K) (DepartureTerms K)) :
  build_multifluid_mutant dump model jj = Ok mfa ->
  let N := List.length (MultiFluidReducingFunction.Tc (MultiFluid.redfunc model)) in
  let d := MultiFluidAdapter.depfunc mfa in
  (forall i, i < N ->
     DepartureContribution.funcs d i i = [NullEOSTerm]
     /\ DepartureContribution.F d i i = zero)
  /\ (forall i j, i < j -> j < N ->
        DepartureContribution.F d j i = DepartureContribution.F d i j
        /\ DepartureContribution.funcs d j i = DepartureContribution.funcs d i j
        /\ exists entry BIP dep,
            entry_of jj i j = Ok entry
            /\ subscript entry "BIP" = Ok BIP
            /\ number_at BIP "Fij" = Ok (DepartureContribution.F d i j)
            /\ subscript entry "departure" = Ok dep
            /\ build_departure_function dep
               = Ok (DepartureContribution.funcs d i j)).
Proof.
  intros Hbuild N d. subst N d.
  destruct (build_multifluid_mutant_inv _ _ _ Hbuild) as (s & Hrun & _ & _ & ->).
  cbn [DepartureContribution.F DepartureContribution.funcs].
  rewrite for_rangeM_pairs_diag in Hrun.
  assert (Hvisit : forall i j, i <= j ->
            j < List.length (MultiFluidReducingFunction.Tc (MultiFluid.redfunc model)) ->
            exists s1 s2,
              mutant_body (MultiFluid.redfunc model) jj i j s1 = Ok s2
              /\ ms_F s1 i j = zero /\ ms_funcs s1 i j = []
              /\ ms_funcs s1 j i = []
              /\ mutant_entries s i j = mutant_entries s2 i j
              /\ mutant_entries s j i = mutant_entries s2 j i).
  { intros i j Hij Hj.
    destruct (foldM_visited mutant_entries _
                (mutant_body_frame (MultiFluid.redfunc model) jj)
                (NoDup_pairs_diag _)
                (fun p Hp => ltac:(destruct p as [a b];
                                   apply in_pairs_diag in Hp; simpl; lia))
                _ Hrun i j ltac:(apply in_pairs_diag; lia))
      as (s1 & s2 & Hbody & H1 & H2 & H3 & H4).
    exists s1, s2. cbn [fst snd] in Hbody.
    unfold mutant_entries in H1, H2. cbn in H1, H2.
    inversion H1. inversion H2. repeat split; assumption. }
  split.
  - intros i Hi.
    destruct (Hvisit i i (Nat.le_refl i) Hi)
      as (s1 & s2 & Hbody & HF & Hf & _ & H3 & _).
    unfold mutant_body in Hbody. destruct s1 as [bT gT bV gV F funcs].
    rewrite Nat.eqb_refl in Hbody. inversion Hbody; subst s2.
    unfold mutant_entries in H3. cbn in H3, HF, Hf.
    rewrite mset_same in H3. inversion H3 as [[H31 H32 H33 H34 H35 H36]].
    rewrite H35, H36, HF, Hf. split; reflexivity.
  - intros i j Hij Hj.
    destruct (Hvisit i j (Nat.lt_le_incl _ _ Hij) Hj)
      as (s1 & s2 & Hbody & _ & _ & _ & H3 & H4).
    unfold mutant_body in Hbody. destruct s1 as [bT gT bV gV F funcs].
    destruct (Nat.eqb_spec i j) as [Heq | _]; [lia |].
    destruct (entry_of jj i j) as [entry | e] eqn:Hentry; [| discriminate].
    cbn [bind] in Hbody.
    destruct (subscript entry "BIP") as [BIP | e] eqn:HBIP; [| discriminate].
    cbn [bind] in Hbody.
    destruct (number_at BIP "betaT") as [xT | e]; [| discriminate].
    cbn [bind] in Hbody.
    destruct (number_at BIP "betaV") as [xV | e]; [| discriminate].
    cbn [bind] in Hbody.
    destruct (number_at BIP "gammaT") as [yT | e]; [| discriminate].
    cbn [bind] in Hbody.
    destruct (number_at BIP "gammaV") as [yV | e]; [| discriminate].
    cbn [bind] in Hbody.
    destruct (subscript (touched entry "BIP") "departure") as [dep | e] eqn:Hdep;
      [| discriminate].
    rewrite subscript_touched_other in Hdep by discriminate.
    cbn [bind] in Hbody.
    destruct (number_at BIP "Fij") as [xF | e] eqn:HxF; [| discriminate].
    cbn [bind] in Hbody.
    destruct (build_departure_function dep) as [f | e] eqn:Hf; [| discriminate].
    cbn [bind] in Hbody. inversion Hbody; subst s2. clear Hbody.
    unfold mutant_entries in H3, H4. cbn in H3, H4.
    assert (Hij' : (i, j) <> (j, i)) by (intro Heq; inversion Heq; lia).
    rewrite !mset_same in H4.
    rewrite !(mset_other _ _ Hij'), !mset_same in H3.
    inversion H3 as [[H31 H32 H33 H34 H35 H36]].
    inversion H4 as [[H41 H42 H43 H44 H45 H46]].
    rewrite H35, H36, H45, H46.
    split; [reflexivity |]. split; [reflexivity |].
    exists entry, BIP, dep. repeat split; assumption.
Qed.

(** X9. The reducing function of an adapted model keeps the critical
    arrays and the diagonal of the base model.  For every pair [i < j] it
    holds above the diagonal the four values of the override document, and
    below it the mirrored [gamma]s but the reciprocals of the base model's
    [betaT(i,j)] and [betaV(i,j)]. *)
Theorem mutant_reducing_structure
    (model : MultiFluid.t K (MultiFluidReducingFunction.t K) E1 E2) (jj : json K)
    (mfa : MultiFluidAdapter.t K (MultiFluidReducingFunction.t K) E1 E2
             (MultiFluidReducingFunction.t K) (DepartureTerms K)) :
  build_multifluid_mutant dump model jj = Ok mfa ->
  let red := MultiFluid.redfunc model in
  let newred := MultiFluidAdapter.redfunc mfa in
  let N := List.length (MultiFluidReducingFunction.Tc red) in
  MultiFluidReducingFunction.Tc newred = MultiFluidReducingFunction.Tc red
  /\ MultiFluidReducingFunction.vc newred = MultiFluidReducingFunction.vc red
  /\ (forall i, i < N ->
        MultiFluidReducingFunction.betaT newred i i
        = MultiFluidReducingFunction.betaT red i i
        /\ MultiFluidReducingFunction.gammaT newred i i
           = MultiFluidReducingFunction.gammaT red i i
        /\ MultiFluidReducingFunction.betaV newred i i
           = MultiFluidReducingFunction.betaV red i i
        /\ MultiFluidReducingFunction.gammaV newred i i
           = MultiFluidReducingFunction.gammaV red i i)
  /\ (forall i j, i < j -> j < N ->
        MultiFluidReducingFunction.betaT newred j i
        = (one / MultiFluidReducingFunction.betaT red i j)%K
        /\ MultiFluidReducingFunction.betaV newred j i
           = (one / MultiFluidReducingFunction.betaV red i j)%K
        /\ MultiFluidReducingFunction.gammaT newred j i
           = MultiFluidReducingFunction.gammaT newred i j
        /\ MultiFluidReducingFunction.gammaV newred j i
           = MultiFluidReducingFunction.gammaV newred i j
        /\ exists entry BIP,
            entry_of jj i j = Ok entry
            /\ subscript entry "BIP" = Ok BIP
            /\ number_at BIP "betaT"
               = Ok (MultiFluidReducingFunction.betaT newred i j)
            /\ number_at BIP "betaV"
               = Ok (MultiFluidReducingFunction.betaV newred i j)
            /\ number_at BIP "gammaT"
               = Ok (MultiFluidReducingFunction.gammaT newred i j)
            /\ number_at BIP "gammaV"
               = Ok (MultiFluidReducingFunction.gammaV newred i j)).
Proof.
  intros Hbuild red newred N.
  destruct (build_multifluid_mutant_inv _ _ _ Hbuild) as (s & Hrun & _ & Hred & _).
  subst newred N. rewrite Hred.
  destruct (make_params (ms_betaT s) (ms_gammaT s) (ms_betaV s) (ms_gammaV s)
              (MultiFluidReducingFunction.Tc (MultiFluid.redfunc model))
              (MultiFluidReducingFunction.vc (MultiFluid.redfunc model)))
    as (-> & -> & -> & -> & -> & ->).
  split; [reflexivity |]. split; [reflexivity |].
  rewrite for_rangeM_pairs_diag in Hrun.
  assert (Hvisit : forall i j, i <= j ->
            j < List.length (MultiFluidReducingFunction.Tc (MultiFluid.redfunc model)) ->
            exists s1 s2,
              mutant_body (MultiFluid.redfunc model) jj i j s1 = Ok s2
              /\ mutant_entries s1 i j
                 = mutant_entries
                     (mkMutantState
                        (MultiFluidReducingFunction.betaT (MultiFluid.redfunc model))
                        (MultiFluidReducingFunction.gammaT (MultiFluid.redfunc model))
                        (MultiFluidReducingFunction.betaV (MultiFluid.redfunc model))
                        (MultiFluidReducingFunction.gammaV (MultiFluid.redfunc model))
                        (mconst zero) (mconst [])) i j
              /\ mutant_entries s i j = mutant_entries s2 i j
              /\ mutant_entries s j i = mutant_entries s2 j i).
  { intros i j Hij Hj.
    destruct (foldM_visited mutant_entries _
                (mutant_body_frame (MultiFluid.redfunc model) jj)
                (NoDup_pairs_diag _)
                (fun p Hp => ltac:(destruct p as [a b];
                                   apply in_pairs_diag in Hp; simpl; lia))
                _ Hrun i j ltac:(apply in_pairs_diag; lia))
      as (s1 & s2 & Hbody & H1 & _ & H3 & H4).
    exists s1, s2. cbn [fst snd] in Hbody. repeat split; assumption. }
  split.
  - intros i Hi.
    destruct (Hvisit i i (Nat.le_refl i) Hi) as (s1 & s2 & Hbody & H1 & H3 & _).
    destruct s1 as [bT gT bV gV F funcs]. unfold mutant_body in Hbody.
    rewrite Nat.eqb_refl in Hbody. inversion Hbody; subst s2. clear Hbody.
    unfold mutant_entries in H1, H3. cbn in H1, H3.
    injection H1 as A1 A2 A3 A4 _ _. injection H3 as B1 B2 B3 B4 _ _.
    subst red. repeat split; congruence.
  - intros i j Hij Hj.
    destruct (Hvisit i j (Nat.lt_le_incl _ _ Hij) Hj) as (s1 & s2 & Hbody & _ & H3 & H4).
    destruct s1 as [bT gT bV gV F funcs]. unfold mutant_body in Hbody.
    destruct (Nat.eqb_spec i j) as [Heq | _]; [lia |].
    destruct (entry_of jj i j) as [entry | e] eqn:Hentry; [| discriminate].
    cbn [bind] in Hbody.
    destruct (subscript entry "BIP") as [BIP | e] eqn:HBIP; [| discriminate].
    cbn [bind] in Hbody.
    destruct (number_at BIP "betaT") as [xT | e] eqn:HxT; [| discriminate].
    cbn [bind] in Hbody.
    destruct (number_at BIP "betaV") as [xV | e] eqn:HxV; [| discriminate].
    cbn [bind] in Hbody.
    destruct (number_at BIP "gammaT") as [yT | e] eqn:HyT; [| discriminate].
    cbn [bind] in Hbody.
    destruct (number_at BIP "gammaV") as [yV | e] eqn:HyV; [| discriminate].
    cbn [bind] in Hbody.
    bind_ok Hbody. inversion Hbody; subst s2. clear Hbody.
    unfold mutant_entries in H3, H4. cbn in H3, H4.
    assert (Hij' : (i, j) <> (j, i)) by (intro Heq; inversion Heq; lia).
    rewrite !mset_same in H4.
    rewrite !(mset_other _ _ Hij'), !mset_same in H3.
    injection H3 as A1 A2 A3 A4 _ _. injection H4 as B1 B2 B3 B4 _ _.
    subst red.
    split; [exact B1 |]. split; [exact B3 |].
    split; [congruence |]. split; [congruence |].
    exists entry, BIP. repeat split; try assumption; congruence.
Qed.

(** X10. The invariant builder accepts binary models only.  In the model
    it returns, [lambdaT] and [lambdaV] are negated and [phiT] and [phiV]
    copied across the diagonal; on the diagonal [phiT] and [phiV] are 1 and
    [lambdaV] is 0, while [lambdaT] keeps the diagonal of the base model's
    [gammaT]. *)
Theorem invariant_mutant_structure
    (model : MultiFluid.t K (MultiFluidReducingFunction.t K) E1 E2) (jj : json K)
    (mfa : MultiFluidAdapter.t K (MultiFluidReducingFunction.t K) E1 E2
             (MultiFluidInvariantReducingFunction.t K) (DepartureTerms K)) :
  build_multifluid_mutant_invariant dump model jj = Ok mfa ->
  let newred := MultiFluidAdapter.redfunc mfa in
  List.length (MultiFluidReducingFunction.Tc (MultiFluid.redfunc model)) = 2
  /\ MultiFluidInvariantReducingFunction.lambdaT newred 1 0
     = (- MultiFluidInvariantReducingFunction.lambdaT newred 0 1)%K
  /\ MultiFluidInvariantReducingFunction.lambdaV newred 1 0
     = (- MultiFluidInvariantReducingFunction.lambdaV newred 0 1)%K
  /\ MultiFluidInvariantReducingFunction.phiT newred 1 0
     = MultiFluidInvariantReducingFunction.phiT newred 0 1
  /\ MultiFluidInvariantReducingFunction.phiV newred 1 0
     = MultiFluidInvariantReducingFunction.phiV newred 0 1
  /\ (forall i, i < 2 ->
        MultiFluidInvariantReducingFunction.phiT newred i i = one
        /\ MultiFluidInvariantReducingFunction.phiV newred i i = one
        /\ MultiFluidInvariantReducingFunction.lambdaV newred i i = zero
        /\ MultiFluidInvariantReducingFunction.lambdaT newred i i
           = MultiFluidReducingFunction.gammaT (MultiFluid.redfunc model) i i).
Proof.
  intros Hbuild newred. subst newred.
  destruct (invariant_mutant_antisymmetric dump _ _ Hbuild Nat.lt_0_1 Nat.lt_1_2)
    as (HlT & HlV & HpT & HpV).
  destruct (build_multifluid_mutant_invariant_inv _ _ _ Hbuild)
    as (HN & s & Hrun & HeT & HeV & HfT & HfV).
  split; [exact HN |].
  split; [exact HlT |]. split; [exact HlV |].
  split; [exact HpT |]. split; [exact HpV |].
  intros i Hi. rewrite HeT, HeV, HfT, HfV.
  rewrite for_rangeM_pairs_diag in Hrun.
  destruct (foldM_visited mutant_entries _ (invariant_body_frame jj)
              (NoDup_pairs_diag _)
              (fun p Hp => ltac:(destruct p as [a b];
                                 apply in_pairs_diag in Hp; simpl; lia))
              _ Hrun i i ltac:(apply in_pairs_diag; lia))
    as (s1 & s2 & Hbody & H1 & _ & H3 & _).
  cbn [fst snd] in Hbody. destruct s1 as [bT gT bV gV F funcs].
  unfold invariant_body in Hbody. rewrite Nat.eqb_refl in Hbody.
  inversion Hbody; subst s2. clear Hbody.
  unfold mutant_entries in H1, H3. cbn in H1, H3. unfold mconst in H1.
  inversion H1 as [[H11 H12 H13 H14 H15 H16]].
  inversion H3 as [[H31 H32 H33 H34 H35 H36]].
  repeat split; congruence.
Qed.
End AdapterMore.

Lemma mutant_departure_structure_witness :
  exists mfa,
    build_multifluid_mutant no_dump dummy_binary_model (override_entry 1 2 1 1 0)
    = Ok mfa
    /\ forall i, i < 2 ->
         DepartureContribution.funcs (MultiFluidAdapter.depfunc mfa) i i
         = [NullEOSTerm]
         /\ DepartureContribution.F (MultiFluidAdapter.depfunc mfa) i i = zero.
Proof.
  eexists. split; [vm_compute; reflexivity |].
  refine (proj1 (mutant_departure_structure no_dump dummy_binary_model
                   (override_entry 1 2 1 1 0) _)).
  vm_compute. reflexivity.
Defined.

Lemma mutant_reducing_structure_witness :
  exists mfa,
    build_multifluid_mutant no_dump dummy_binary_model (override_entry 4 3 8 5 0)
    = Ok mfa
    /\ MultiFluidReducingFunction.Tc (MultiFluidAdapter.redfunc mfa)
       = MultiFluidReducingFunction.Tc (MultiFluid.redfunc dummy_binary_model).
Proof.
  eexists. split; [vm_compute; reflexivity |].
  refine (proj1 (mutant_reducing_structure no_dump dummy_binary_model
                   (override_entry 4 3 8 5 0) _)).
  vm_compute. reflexivity.
Defined.

Lemma invariant_mutant_structure_witness :
  exists mfa,
    build_multifluid_mutant_invariant no_dump dummy_binary_model
      (invariant_override_entry 1 2 1 3 0) = Ok mfa
    /\ MultiFluidInvariantReducingFunction.lambdaT (MultiFluidAdapter.redfunc mfa) 1 0
       = (- MultiFluidInvariantReducingFunction.lambdaT
              (MultiFluidAdapter.redfunc mfa) 0 1)%K.
Proof.
  eexists. split; [vm_compute; reflexivity |].
  refine (proj1 (proj2 (invariant_mutant_structure no_dump dummy_binary_model
                          (invariant_override_entry 1 2 1 3 0) _))).
  vm_compute. reflexivity.
Defined.

(** ** What the evaluation reads *)

Section UpperTriangle.
Context {K : Type} {SK : Scalar K}.

Lemma Y_ext_upper (z Yc : list K) (beta beta' Yij Yij' : Matrix K) :
  (forall i j, i < j -> j < List.length z ->
     beta i j = beta' i j /\ Yij i j = Yij' i j) ->
  MultiFluidReducingFunction.Y z Yc beta Yij
  = MultiFluidReducingFunction.Y z Yc beta' Yij'.
Proof.
  intro Hagree. rewrite !Y_sums. f_equal. f_equal.
  apply map_ext_in. intros [i j] Hin. apply in_pairs_upper in Hin.
  destruct (Hagree i j) as [-> ->]; [lia | lia | reflexivity].
Qed.

(** X11. The reducing temperature and density read the mixing parameters
    above the diagonal only: two reducing functions constructed from
    parameter matrices that agree at every [(i, j)] with [i < j] give the same
    [Tr] and [rhor]. *)
Theorem reducing_function_reads_upper_triangle
    (betaT gammaT betaV gammaV betaT' gammaT' betaV' gammaV' : Matrix K)
    (Tc vc z : list K) :
  List.length z <= List.length Tc ->
  (forall i j, i < j -> j < List.length z ->
     betaT i j = betaT' i j /\ gammaT i j = gammaT' i j
     /\ betaV i j = betaV' i j /\ gammaV i j = gammaV' i j) ->
  get_Tr (MultiFluidReducingFunction.make betaT gammaT betaV gammaV Tc vc) z
  = get_Tr (MultiFluidReducingFunction.make betaT' gammaT' betaV' gammaV' Tc vc) z
  /\ get_rhor (MultiFluidReducingFunction.make betaT gammaT betaV gammaV Tc vc) z
     = get_rhor (MultiFluidReducingFunction.make betaT' gammaT' betaV' gammaV' Tc vc) z.
Proof.
  intros Hlen Hagree.
  change (@get_Tr K (MultiFluidReducingFunction.t K) _)
    with (@MultiFluidReducingFunction.get_Tr_ K _).
  change (@get_rhor K (MultiFluidReducingFunction.t K) _)
    with (@MultiFluidReducingFunction.get_rhor_ K _).
  unfold MultiFluidReducingFunction.get_Tr_, MultiFluidReducingFunction.get_rhor_.
  destruct (make_params betaT gammaT betaV gammaV Tc vc)
    as (-> & _ & -> & _ & -> & ->).
  destruct (make_params betaT' gammaT' betaV' gammaV' Tc vc)
    as (-> & _ & -> & _ & -> & ->).
  assert (Hentries : forall i j, i < j -> j < List.length z ->
            (betaT i j = betaT' i j
             /\ MultiFluidReducingFunction.YT
                  (MultiFluidReducingFunction.make betaT gammaT betaV gammaV Tc vc) i j
                = MultiFluidReducingFunction.YT
                    (MultiFluidReducingFunction.make betaT' gammaT' betaV' gammaV' Tc vc)
                    i j)
            /\ (betaV i j = betaV' i j
                /\ MultiFluidReducingFunction.Yv
                     (MultiFluidReducingFunction.make betaT gammaT betaV gammaV Tc vc) i j
                   = MultiFluidReducingFunction.Yv
                       (MultiFluidReducingFunction.make betaT' gammaT' betaV' gammaV'
                          Tc vc) i j)).
  { intros i j Hij Hj. destruct (Hagree i j Hij Hj) as (HbT & HgT & HbV & HgV).
    destruct (make_YT_Yv betaT gammaT betaV gammaV Tc vc Hij) as [-> ->]; [lia |].
    destruct (make_YT_Yv betaT' gammaT' betaV' gammaV' Tc vc Hij) as [-> ->]; [lia |].
    unfold YT_formula, Yv_formula. rewrite HbT, HgT, HbV, HgV.
    repeat split; reflexivity. }
  split.
  - apply Y_ext_upper. intros i j Hij Hj. apply Hentries; assumption.
  - f_equal. apply Y_ext_upper. intros i j Hij Hj. apply Hentries; assumption.
Qed.

(** X12. With fewer than two components no pair is visited: the departure
    contribution is zero and [alphar] is the corresponding-states sum plus
    zero, in any arithmetic. *)
Theorem single_component_has_no_departure
    {RF : Type} {RFI : ReducingFunction K RF}
    {E1 : Type} {EE1 : EOS K E1} {E2 : Type} {EE2 : EOS K E2}
    (m : MultiFluid.t K RF E1 E2) (T rho : K) (z : list K) :
  List.length z <= 1 ->
  DepartureContribution.alphar (MultiFluid.dep m)
    (tau_at (MultiFluid.redfunc m) T z) (delta_at (MultiFluid.redfunc m) rho z) z
  = zero
  /\ MultiFluid.alphar m T rho z
     = (corresponding_states_at (MultiFluid.redfunc m) (MultiFluid.corr m) T rho z
        + zero)%K.
Proof.
  intro Hlen.
  assert (Hdep : forall tau delta,
            DepartureContribution.alphar (MultiFluid.dep m) tau delta z = zero).
  { intros tau delta. rewrite departure_alphar_sum. unfold departure_sum.
    destruct z as [|z0 [|z1 z']]; [reflexivity | reflexivity |].
    cbn [List.length] in Hlen. lia. }
  split; [apply Hdep |].
  unfold MultiFluid.alphar, forceeval, corresponding_states_at, tau_at, delta_at.
  rewrite Hdep. reflexivity.
Qed.
End UpperTriangle.

Lemma reducing_function_reads_upper_triangle_witness :
  List.length [1 # 2; 1 # 2]%Q <= List.length [1; 1]%Q
  /\ get_Tr (MultiFluidReducingFunction.make (mconst 4%Q) (mconst 1%Q) (mconst 1%Q)
               (mconst 1%Q) [1; 1]%Q [1; 1]%Q) [1 # 2; 1 # 2]%Q
     = get_Tr (MultiFluidReducingFunction.make (mset (mconst 4%Q) 1 0 (1 # 2)%Q)
                 (mconst 1%Q) (mconst 1%Q) (mconst 1%Q) [1; 1]%Q [1; 1]%Q)
         [1 # 2; 1 # 2]%Q.
Proof.
  split; [apply Nat.le_refl |].
  refine (proj1 (reducing_function_reads_upper_triangle
                   (mconst 4%Q) (mconst 1%Q) (mconst 1%Q) (mconst 1%Q)
                   (mset (mconst 4%Q) 1 0 (1 # 2)%Q) (mconst 1%Q) (mconst 1%Q)
                   (mconst 1%Q) [1; 1]%Q [1; 1]%Q [1 # 2; 1 # 2]%Q
                   (Nat.le_refl 2) _)).
  intros i j Hij Hj. unfold mset, mconst.
  destruct (Nat.eqb_spec i 1) as [-> | _]; [| repeat split; reflexivity].
  destruct (Nat.eqb_spec j 0) as [-> | _]; [lia | repeat split; reflexivity].
Defined.

Lemma single_component_has_no_departure_witness :
  List.length [1%Q] <= 1
  /\ MultiFluid.alphar (build_dummy_multifluid_model ["A"%string]) 300%Q 2%Q [1%Q]
     = (corresponding_states_at
          (MultiFluid.redfunc (build_dummy_multifluid_model ["A"%string]))
          (MultiFluid.corr (build_dummy_multifluid_model ["A"%string]))
          300%Q 2%Q [1%Q] + zero)%K.
Proof.
  split; [apply Nat.le_refl |].
  refine (proj2 (single_component_has_no_departure
                   (build_dummy_multifluid_model ["A"%string]) 300%Q 2%Q [1%Q] _)).
  apply Nat.le_refl.
Defined.

(** ** Limits over the reals *)

Section RealLimits.
Local Open Scope R_scope.

(** A pure composition of three or more components has two absent
    components [i < j]: for that pair the quotient of [Y] is zero over zero. *)
Lemma pure_composition_two_absent (N k : nat) :
  (3 <= N)%nat ->
  exists i j, (i < j)%nat /\ (j < N)%nat
              /\ nth i (pure_composition N k) 0 = 0
              /\ nth j (pure_composition N k) 0 = 0.
Proof.
  intro HN.
  assert (Hzero : forall i, i <> k -> nth i (pure_composition N k) 0 = 0).
  { intros i Hik. rewrite nth_pure_composition.
    destruct (Nat.eqb_spec i k); [contradiction |].
    rewrite andb_false_r. reflexivity. }
  destruct k as [|[|k']].
  - exists 1%nat, 2%nat. repeat split; try lia; apply Hzero; lia.
  - exists 0%nat, 2%nat. repeat split; try lia; apply Hzero; lia.
  - exists 0%nat, 1%nat. repeat split; try lia; apply Hzero; lia.
Qed.

Lemma defined_quotients_at_most_two (N k : nat) (beta : Matrix R) :
  (forall i j, (i < j)%nat -> (j < N)%nat ->
     MultiFluidReducingFunction.square (beta i j) * nth i (pure_composition N k) 0
     + nth j (pure_composition N k) 0 <> 0) ->
  (N <= 2)%nat.
Proof.
  intro Hdef. destruct (Nat.le_gt_cases N 2) as [Hle | Hgt]; [exact Hle |].
  destruct (@pure_composition_two_absent N k Hgt) as (i & j & Hij & Hj & Hi0 & Hj0).
  exfalso. apply (Hdef i j Hij Hj). rewrite Hi0, Hj0. ring.
Qed.

(** X13. [Y] divides by [beta(i,j)^2 z_i + z_j] for every pair [i < j].  At
    the composition of pure component [k] these divisors are all non-zero
    only for a mixture of at most two components, and then the reducing
    temperature is [Tc_k] and, for [vc_k] not zero, the reducing density is
    [1 / vc_k].  (With three components or more a pair of absent components
    makes the code divide zero by zero.) *)
Theorem reducing_function_pure_limit (r : MultiFluidReducingFunction.t R) (N k : nat) :
  (k < N)%nat ->
  (forall i j, (i < j)%nat -> (j < N)%nat ->
     MultiFluidReducingFunction.square (MultiFluidReducingFunction.betaT r i j)
     * nth i (pure_composition N k) 0 + nth j (pure_composition N k) 0 <> 0
     /\ MultiFluidReducingFunction.square (MultiFluidReducingFunction.betaV r i j)
        * nth i (pure_composition N k) 0 + nth j (pure_composition N k) 0 <> 0) ->
  nth k (MultiFluidReducingFunction.vc r) 0 <> 0 ->
  (N <= 2)%nat
  /\ get_Tr r (pure_composition N k) = nth k (MultiFluidReducingFunction.Tc r) 0
  /\ get_rhor r (pure_composition N k) = 1 / nth k (MultiFluidReducingFunction.vc r) 0.
Proof.
  intros Hk Hdef Hvc.
  split.
  { apply (@defined_quotients_at_most_two N k (MultiFluidReducingFunction.betaT r)).
    intros i j Hij Hj. exact (proj1 (Hdef i j Hij Hj)). }
  change (@get_Tr R (MultiFluidReducingFunction.t R) _)
    with (@MultiFluidReducingFunction.get_Tr_ R _).
  change (@get_rhor R (MultiFluidReducingFunction.t R) _)
    with (@MultiFluidReducingFunction.get_rhor_ R _).
  unfold MultiFluidReducingFunction.get_Tr_, MultiFluidReducingFunction.get_rhor_.
  rewrite !Y_pure_composition by exact Hk. split; reflexivity.
Qed.

Lemma length_pure_composition (N k : nat) : List.length (pure_composition N k) = N.
Proof. unfold pure_composition. rewrite length_map, length_seq. reflexivity. Qed.

Lemma corresponding_states_pure {E : Type} {EE : EOS R E}
    (c : CorrespondingStatesContribution.t E) (tau delta : R) (N k : nat) :
  (k < N)%nat ->
  CorrespondingStatesContribution.alphar c tau delta (pure_composition N k)
  = CorrespondingStatesContribution.alphari c tau delta k.
Proof.
  intro Hk. rewrite corresponding_states_alphar_sum. unfold corresponding_states_sum.
  rewrite length_pure_composition.
  rewrite (sum_list_single (k := k)); [| exact Hk |].
  - cbn [mul zero Scalar_R]. rewrite nth_pure_composition.
    destruct (Nat.ltb_spec k N); [| lia]. rewrite Nat.eqb_refl. cbn [andb].
    unfold CorrespondingStatesContribution.alphari. cbn [zero Scalar_R]. ring.
  - intros i Hi Hik. cbn [mul zero Scalar_R]. rewrite nth_pure_composition.
    destruct (Nat.eqb_spec i k); [contradiction |].
    rewrite andb_false_r. ring.
Qed.

Lemma departure_pure {E : Type} {EE : EOS R E}
    (d : DepartureContribution.t R E) (tau delta : R) (N k : nat) :
  DepartureContribution.alphar d tau delta (pure_composition N k) = 0.
Proof.
  rewrite departure_alphar_sum. unfold departure_sum.
  apply sum_list_zeros. intros x Hx.
  apply in_map_iff in Hx. destruct Hx as [[i j] [<- Hin]].
  apply in_pairs_upper in Hin. cbn [mul zero Scalar_R].
  rewrite !nth_pure_composition.
  destruct (Nat.eqb_spec i k) as [-> | Hik];
    destruct (Nat.eqb_spec j k) as [-> | Hjk]; try lia;
    rewrite ?andb_false_r; ring.
Qed.

(** X14. Where the divisions are defined (at most two components, see
    X13; [T] and [vc_k] not zero), the mixture model at the composition of
    pure component [k] is the pure fluid: [alphar(T, rho, z)] is
    [EOS_k.alphar(tau, delta)] with [tau = Tc_k / T] and
    [delta = rho * vc_k]. *)
Theorem multifluid_pure_fluid_limit
    {E1 : Type} {EE1 : EOS R E1} {E2 : Type} {EE2 : EOS R E2}
    (m : MultiFluid.t R (MultiFluidReducingFunction.t R) E1 E2)
    (T rho : R) (N k : nat) :
  (k < N)%nat ->
  (forall i j, (i < j)%nat -> (j < N)%nat ->
     MultiFluidReducingFunction.square
       (MultiFluidReducingFunction.betaT (MultiFluid.redfunc m) i j)
     * nth i (pure_composition N k) 0 + nth j (pure_composition N k) 0 <> 0
     /\ MultiFluidReducingFunction.square
          (MultiFluidReducingFunction.betaV (MultiFluid.redfunc m) i j)
        * nth i (pure_composition N k) 0 + nth j (pure_composition N k) 0 <> 0) ->
  nth k (MultiFluidReducingFunction.vc (MultiFluid.redfunc m)) 0 <> 0 ->
  T <> 0 ->
  (N <= 2)%nat
  /\ MultiFluid.alphar m T rho (pure_composition N k)
     = CorrespondingStatesContribution.alphari (MultiFluid.corr m)
         (nth k (MultiFluidReducingFunction.Tc (MultiFluid.redfunc m)) 0 / T)
         (rho * nth k (MultiFluidReducingFunction.vc (MultiFluid.redfunc m)) 0) k.
Proof.
  intros Hk Hdef Hvc HT.
  split.
  { apply (@defined_quotients_at_most_two N k
             (MultiFluidReducingFunction.betaT (MultiFluid.redfunc m))).
    intros i j Hij Hj. exact (proj1 (Hdef i j Hij Hj)). }
  unfold MultiFluid.alphar, forceeval.
  change (@get_Tr R (MultiFluidReducingFunction.t R) _)
    with (@MultiFluidReducingFunction.get_Tr_ R _).
  change (@get_rhor R (MultiFluidReducingFunction.t R) _)
    with (@MultiFluidReducingFunction.get_rhor_ R _).
  unfold MultiFluidReducingFunction.get_Tr_, MultiFluidReducingFunction.get_rhor_.
  rewrite !Y_pure_composition by exact Hk.
  rewrite corresponding_states_pure by exact Hk.
  rewrite departure_pure. cbn [add div one Scalar_R].
  rewrite Rplus_0_r. f_equal. field. exact Hvc.
Qed.
End RealLimits.

(** At the pure compositions of the binary dummy model no divisor of [Y] is
    zero. *)
Lemma dummy_real_model_quotients (F01 : R) (k i j : nat) :
  (k < 2)%nat -> (i < j)%nat -> (j < 2)%nat ->
  (MultiFluidReducingFunction.square
     (MultiFluidReducingFunction.betaT (MultiFluid.redfunc (dummy_real_model F01)) i j)
   * nth i (pure_composition 2 k) 0 + nth j (pure_composition 2 k) 0 <> 0
   /\ MultiFluidReducingFunction.square
        (MultiFluidReducingFunction.betaV (MultiFluid.redfunc (dummy_real_model F01))
           i j)
      * nth i (pure_composition 2 k) 0 + nth j (pure_composition 2 k) 0 <> 0)%R.
Proof.
  intros Hk Hij Hj.
  assert (Hi : i = 0%nat) by lia. assert (Hj1 : j = 1%nat) by lia. subst i j.
  unfold dummy_real_model. cbn [MultiFluid.make MultiFluid.redfunc].
  destruct (make_params (mconst 1%R) (mconst 1%R) (mconst 1%R) (mconst 1%R)
              [1; 2]%R [1; 1]%R) as (-> & _ & -> & _).
  unfold MultiFluidReducingFunction.square, mconst. cbn [mul Scalar_R].
  destruct k as [|[|k']]; [| | lia];
    rewrite !nth_pure_composition; cbn; split; lra.
Qed.

Lemma reducing_function_pure_limit_witness :
  (2 <= 2)%nat
  /\ get_Tr (MultiFluid.redfunc (dummy_real_model 0%R)) (pure_composition 2 0)
     = nth 0 (MultiFluidReducingFunction.Tc (MultiFluid.redfunc (dummy_real_model 0%R)))
         0%R
  /\ get_rhor (MultiFluid.redfunc (dummy_real_model 0%R)) (pure_composition 2 0)
     = (1 / nth 0 (MultiFluidReducingFunction.vc
                     (MultiFluid.redfunc (dummy_real_model 0%R))) 0)%R.
Proof.
  apply (@reducing_function_pure_limit
           (MultiFluid.redfunc (dummy_real_model 0%R)) 2 0).
  - apply Nat.lt_0_2.
  - intros i j Hij Hj.
    exact (@dummy_real_model_quotients 0%R 0 i j Nat.lt_0_2 Hij Hj).
  - unfold dummy_real_model. cbn [MultiFluid.make MultiFluid.redfunc].
    destruct (make_params (mconst 1%R) (mconst 1%R) (mconst 1%R) (mconst 1%R)
                [1; 2]%R [1; 1]%R) as (_ & _ & _ & _ & _ & ->).
    cbn. lra.
Defined.

Lemma multifluid_pure_fluid_limit_witness :
  (2 <= 2)%nat
  /\ MultiFluid.alphar (dummy_real_model 1%R) 300%R 5%R (pure_composition 2 1)
     = CorrespondingStatesContribution.alphari (MultiFluid.corr (dummy_real_model 1%R))
         (nth 1 (MultiFluidReducingFunction.Tc
                   (MultiFluid.redfunc (dummy_real_model 1%R))) 0 / 300)%R
         (5 * nth 1 (MultiFluidReducingFunction.vc
                       (MultiFluid.redfunc (dummy_real_model 1%R))) 0)%R 1.
Proof.
  apply (@multifluid_pure_fluid_limit DummyEOS _ DummyEOS _ (dummy_real_model 1%R)
           300%R 5%R 2 1).
  - apply Nat.lt_1_2.
  - intros i j Hij Hj.
    exact (@dummy_real_model_quotients 1%R 1 i j Nat.lt_1_2 Hij Hj).
  - unfold dummy_real_model. cbn [MultiFluid.make MultiFluid.redfunc].
    destruct (make_params (mconst 1%R) (mconst 1%R) (mconst 1%R) (mconst 1%R)
                [1; 2]%R [1; 1]%R) as (_ & _ & _ & _ & _ & ->).
    cbn. lra.
  - lra.
Defined.

Section RealSums.
Local Open Scope R_scope.

(** X15. Where the interaction factors vanish above the diagonal, the
    departure contribution vanishes and [alphar] is the corresponding-states
    sum alone, whatever the departure functions. *)
Theorem zero_interaction_factors_switch_off_departure
    {RF : Type} {RFI : ReducingFunction R RF}
    {E1 : Type} {EE1 : EOS R E1} {E2 : Type} {EE2 : EOS R E2}
    (m : MultiFluid.t R RF E1 E2) (T rho : R) (z : list R) :
  (forall i j, (i < j)%nat -> (j < List.length z)%nat ->
     DepartureContribution.F (MultiFluid.dep m) i j = 0) ->
  MultiFluid.alphar m T rho z
  = corresponding_states_at (MultiFluid.redfunc m) (MultiFluid.corr m) T rho z.
Proof.
  intro HF.
  unfold MultiFluid.alphar, forceeval, corresponding_states_at, tau_at, delta_at.
  rewrite departure_alphar_sum. unfold departure_sum.
  rewrite sum_list_zeros.
  - cbn [add Scalar_R]. apply Rplus_0_r.
  - intros x Hx. apply in_map_iff in Hx. destruct Hx as [[i j] [<- Hin]].
    apply in_pairs_upper in Hin. rewrite HF by lia.
    cbn [mul zero Scalar_R]. ring.
Qed.

Lemma fold_left_Rplus_div (l : list R) (s acc : R) :
  fold_left Rplus (map (fun r => r / s) l) (acc / s) = fold_left Rplus l acc / s.
Proof.
  revert acc. induction l as [|x l IH]; intro acc; simpl.
  - reflexivity.
  - rewrite <- IH. f_equal. unfold Rdiv. ring.
Qed.

Lemma fold_left_Rplus_div0 (l : list R) (s : R) :
  fold_left Rplus (map (fun r => r / s) l) 0 = fold_left Rplus l 0 / s.
Proof.
  rewrite <- fold_left_Rplus_div. f_equal. unfold Rdiv. ring.
Qed.

(** X16. [alphar(T, rhovec)] evaluates [alphar(T, rho, z)] at the total
    density and at mole fractions [z], one per component, that add up to one
    when the densities do not sum to zero. *)
Theorem derived_mole_fractions_sum_to_one
    {RF : Type} {RFI : ReducingFunction R RF}
    {E1 : Type} {EE1 : EOS R E1} {E2 : Type} {EE2 : EOS R E2}
    (m : MultiFluid.t R RF E1 E2) (T : R) (rhovec : list R) :
  accumulate rhovec 0 <> 0 ->
  exists z,
    MultiFluid.alphar_rhovec m T rhovec None
    = MultiFluid.alphar m T (accumulate rhovec 0) z
    /\ List.length z = List.length rhovec
    /\ sum_list z = 1.
Proof.
  intro Hne. exists (map (fun r => r / accumulate rhovec 0) rhovec).
  split; [reflexivity |]. split; [apply length_map |].
  unfold sum_list, accumulate in *. cbn [add zero Scalar_R] in *.
  rewrite fold_left_Rplus_div0. unfold Rdiv. apply Rinv_r. exact Hne.
Qed.

(** X17. The dummy model of the header, given two component densities,
    evaluates to the total density over the temperature: its departure part
    is switched off by the zero factors, and its reducing temperature and
    density are both the first mole fraction. *)
Theorem dummy_model_value (components : list string) (T r0 r1 : R) :
  r0 <> 0 -> r0 + r1 <> 0 ->
  MultiFluid.alphar_rhovec (build_dummy_multifluid_model components) T [r0; r1] None
  = (r0 + r1) / T.
Proof.
  intros H0 Hs.
  unfold MultiFluid.alphar_rhovec, MultiFluid.alphar, forceeval, accumulate.
  cbn [fold_left map add zero div Scalar_R].
  unfold build_dummy_multifluid_model.
  cbn [MultiFluid.make MultiFluid.redfunc MultiFluid.corr MultiFluid.dep
       get_Tr get_rhor DummyReducingFunction_red nth].
  rewrite corresponding_states_alphar_sum, departure_alphar_sum.
  unfold corresponding_states_sum, departure_sum, sum_list, pairs_upper, mconst.
  cbn. unfold eos_alphar, DummyEOS_alphar. cbn [mul Scalar_R].
  replace (0 + r0 + r1) with (r0 + r1) by ring.
  unfold Rdiv. generalize (/ T). intro u.
  field. split; assumption.
Qed.
End RealSums.

Lemma zero_interaction_factors_switch_off_departure_witness :
  (forall i j, i < j -> j < List.length [/ 2; / 2]%R ->
     DepartureContribution.F (MultiFluid.dep (dummy_real_model 0%R)) i j = 0%R)
  /\ MultiFluid.alphar (dummy_real_model 0%R) 300%R 5%R [/ 2; / 2]%R
     = corresponding_states_at (MultiFluid.redfunc (dummy_real_model 0%R))
         (MultiFluid.corr (dummy_real_model 0%R)) 300%R 5%R [/ 2; / 2]%R.
Proof.
  split; [intros; reflexivity |].
  apply (zero_interaction_factors_switch_off_departure
           (dummy_real_model 0%R) 300%R 5%R [/ 2; / 2]%R).
  intros; reflexivity.
Defined.

Lemma derived_mole_fractions_sum_to_one_witness :
  accumulate [2; 3]%R 0%R <> 0%R
  /\ exists z,
       MultiFluid.alphar_rhovec (dummy_real_model 0) 300%R [2; 3]%R None
       = MultiFluid.alphar (dummy_real_model 0) 300%R (accumulate [2; 3]%R 0%R) z
       /\ List.length z = 2 /\ sum_list z = 1%R.
Proof.
  assert (Hne : accumulate [2; 3]%R 0%R <> 0%R).
  { unfold accumulate. cbn [fold_left add Scalar_R]. lra. }
  split; [exact Hne |].
  exact (derived_mole_fractions_sum_to_one (dummy_real_model 0) 300%R [2; 3]%R Hne).
Defined.

Lemma dummy_model_value_witness :
  1%R <> 0%R /\ (1 + 2)%R <> 0%R
  /\ MultiFluid.alphar_rhovec (build_dummy_multifluid_model ["A"; "B"]%string)
       300%R [1; 2]%R None = ((1 + 2) / 300)%R.
Proof.
  assert (H1 : 1%R <> 0%R) by lra.
  assert (H2 : (1 + 2)%R <> 0%R) by lra.
  split; [exact H1 |]. split; [exact H2 |].
  apply (dummy_model_value ["A"; "B"]%string 300%R (r0 := 1%R) (r1 := 2%R));
    assumption.
Defined.

(** ** Arrays written by index *)

Section SetNth.
Context {K : Type} {SK : Scalar K}.

Lemma length_set_nth (v : list K) (i : nat) (x : K) :
  List.length (set_nth v i x) = List.length v.
Proof.
  revert i. induction v as [|y v IH]; intro i; [reflexivity |].
  destruct i; cbn [set_nth List.length]; [reflexivity | rewrite IH; reflexivity].
Qed.

Lemma nth_set_nth_same (v : list K) (i : nat) (x d : K) :
  i < List.length v -> nth i (set_nth v i x) d = x.
Proof.
  revert i. induction v as [|y v IH]; intros i Hi; [cbn in Hi; lia |].
  destruct i; cbn [set_nth nth]; [reflexivity |].
  apply IH. cbn in Hi. lia.
Qed.

Lemma nth_set_nth_other (v : list K) (i k : nat) (x d : K) :
  k <> i -> nth k (set_nth v i x) d = nth k v d.
Proof.
  revert i k. induction v as [|y v IH]; intros i k Hne; [reflexivity |].
  destruct i, k; cbn [set_nth nth]; try reflexivity; [lia |].
  apply IH. lia.
Qed.
End SetNth.

(** ** Critical properties *)

Section TcvcProperties.
Context {K : Type} {SK : Scalar K}.
Variable files : string -> option (json K).
Variable coolprop_root : string.

Lemma Tcvc_body_inv (c : string) (Tc vc Tc' vc' : list K) (i i' : nat) :
  Tcvc_body files coolprop_root c (Tc, vc, i) = Ok (Tc', vc', i') ->
  exists j T rho,
    files (fluid_path coolprop_root c) = Some j
    /\ reducing_state j = Ok (T, rho)
    /\ Tc' = set_nth Tc i T /\ vc' = set_nth vc i (one / rho)%K /\ i' = i + 1.
Proof.
  unfold Tcvc_body, reducing_state. intro Hbody.
  destruct (files (fluid_path coolprop_root c)) as [j |]; [| discriminate].
  exists j.
  destruct (subscript j "EOS") as [EOS | e]; [| discriminate]. cbn [bind] in *.
  destruct (subscript_index EOS 0) as [EOS0 | e]; [| discriminate]. cbn [bind] in *.
  destruct (subscript EOS0 "STATES") as [STATES | e]; [| discriminate].
  cbn [bind] in *.
  destruct (subscript STATES "reducing") as [red | e]; [| discriminate].
  cbn [bind] in *.
  destruct (v <- subscript red "T" ;; get_double v) as [T | e]; [| discriminate].
  cbn [bind] in *.
  destruct (v <- subscript red "rhomolar" ;; get_double v) as [rho | e];
    [| discriminate].
  cbn [bind] in *. inversion Hbody; subst.
  exists T, rho. repeat split; reflexivity.
Qed.

Lemma Tcvc_loop (components : list string) :
  forall (Tc vc Tc' vc' : list K) (i i' : nat),
    foldM (Tcvc_body files coolprop_root) components (Tc, vc, i) = Ok (Tc', vc', i') ->
    List.length Tc' = List.length Tc /\ List.length vc' = List.length vc
    /\ (forall k, k < i -> nth k Tc' zero = nth k Tc zero
                           /\ nth k vc' zero = nth k vc zero)
    /\ (forall k, k < List.length components ->
          i + k < List.length Tc -> i + k < List.length vc ->
          exists j T rho,
            files (fluid_path coolprop_root (nth k components EmptyString)) = Some j
            /\ reducing_state j = Ok (T, rho)
            /\ nth (i + k) Tc' zero = T /\ nth (i + k) vc' zero = (one / rho)%K).
Proof.
  induction components as [|c rest IH]; intros Tc vc Tc' vc' i i' Hrun.
  - cbn [foldM] in Hrun. inversion Hrun; subst.
    repeat split; try reflexivity. intros k Hk. cbn in Hk. lia.
  - cbn [foldM] in Hrun.
    destruct (Tcvc_body files coolprop_root c (Tc, vc, i)) as [[[Tc1 vc1] i1] | e]
      eqn:Hbody; [| discriminate].
    cbn [bind] in Hrun.
    destruct (Tcvc_body_inv _ _ _ _ Hbody) as (j & T & rho & Hfile & Hred & -> & -> & ->).
    destruct (IH _ _ _ _ _ _ Hrun) as (HlT & Hlv & Hkeep & Hnew).
    rewrite !length_set_nth in HlT, Hlv.
    split; [exact HlT |]. split; [exact Hlv |]. split.
    + intros k Hk. destruct (Hkeep k ltac:(lia)) as [-> ->].
      rewrite !nth_set_nth_other by lia. split; reflexivity.
    + intros k Hk HkT Hkv. destruct k as [|k'].
      * exists j, T, rho. cbn [nth]. rewrite Nat.add_0_r in *.
        destruct (Hkeep i ltac:(lia)) as [-> ->].
        rewrite !nth_set_nth_same by assumption.
        repeat split; assumption.
      * cbn [List.length] in Hk. cbn [nth].
        replace (i + S k') with (i + 1 + k') in * by lia.
        apply Hnew; rewrite ?length_set_nth; lia.
Qed.

(** X18. When [get_Tcvc] returns, both arrays have one entry per component:
    the file of component [i] could be opened, [Tc[i]] is the temperature and
    [vc[i]] the reciprocal of the molar density of its reducing state. *)
Theorem get_Tcvc_entries (components : list string) (Tc vc : list K) :
  get_Tcvc files coolprop_root components = Ok (Tc, vc) ->
  List.length Tc = List.length components
  /\ List.length vc = List.length components
  /\ forall i, i < List.length components ->
       exists j T rho,
         files (fluid_path coolprop_root (nth i components EmptyString)) = Some j
         /\ reducing_state j = Ok (T, rho)
         /\ nth i Tc zero = T /\ nth i vc zero = (one / rho)%K.
Proof.
  unfold get_Tcvc. intro Hrun.
  destruct (foldM _ _ _) as [[[Tc' vc'] i'] | e] eqn:Hloop; [| discriminate].
  cbn [bind] in Hrun. inversion Hrun; subst Tc' vc'.
  destruct (Tcvc_loop _ _ _ _ Hloop) as (HlT & Hlv & _ & Hnew).
  rewrite repeat_length in HlT, Hlv.
  split; [exact HlT |]. split; [exact Hlv |].
  intros i Hi. apply (Hnew i Hi); rewrite repeat_length; cbn; exact Hi.
Qed.

Lemma Tcvc_body_state (c : string) (s1 s2 s1' : list K * list K * nat) :
  Tcvc_body files coolprop_root c s1 = Ok s1' ->
  exists s2', Tcvc_body files coolprop_root c s2 = Ok s2'.
Proof.
  destruct s1 as [[T1 v1] i1], s2 as [[T2 v2] i2], s1' as [[T1' v1'] i1'].
  intro Hbody.
  destruct (Tcvc_body_inv _ _ _ _ Hbody) as (j & T & rho & Hfile & Hred & _).
  unfold Tcvc_body. rewrite Hfile. unfold reducing_state in Hred.
  destruct (subscript j "EOS") as [EOS | e]; [| discriminate]. cbn [bind] in *.
  destruct (subscript_index EOS 0) as [EOS0 | e]; [| discriminate]. cbn [bind] in *.
  destruct (subscript EOS0 "STATES") as [STATES | e]; [| discriminate].
  cbn [bind] in *.
  destruct (subscript STATES "reducing") as [red | e]; [| discriminate].
  cbn [bind] in *.
  destruct (v <- subscript red "T" ;; get_double v) as [T' | e]; [| discriminate].
  cbn [bind] in *.
  destruct (v <- subscript red "rhomolar" ;; get_double v) as [rho' | e];
    [| discriminate].
  cbn [bind]. eexists. reflexivity.
Qed.

Lemma Tcvc_loop_state (components : list string) :
  forall s1 s2 s1',
    foldM (Tcvc_body files coolprop_root) components s1 = Ok s1' ->
    exists s2', foldM (Tcvc_body files coolprop_root) components s2 = Ok s2'.
Proof.
  induction components as [|c rest IH]; intros s1 s2 s1' Hrun.
  - exists s2. reflexivity.
  - cbn [foldM] in *.
    destruct (Tcvc_body files coolprop_root c s1) as [t1 | e] eqn:Hbody;
      [| discriminate].
    cbn [bind] in Hrun.
    destruct (Tcvc_body_state c s1 s2 Hbody) as [t2 ->]. cbn [bind].
    exact (IH _ t2 _ Hrun).
Qed.

(** X19. [get_Tcvc] stops at the first component whose file cannot be
    opened: when the components before it load, it throws
    [std::invalid_argument] with the path of that file, whatever follows. *)
Theorem get_Tcvc_missing_file (pre rest : list string) (c : string)
    (Tc vc : list K) :
  get_Tcvc files coolprop_root pre = Ok (Tc, vc) ->
  files (fluid_path coolprop_root c) = None ->
  get_Tcvc files coolprop_root (pre ++ c :: rest)
  = Err (invalid_argument
           (concat2 "Load path is invalid: " (fluid_path coolprop_root c))).
Proof.
  intros Hpre Hnone. unfold get_Tcvc in *.
  destruct (foldM _ pre _) as [s1' | e] eqn:Hloop; [| discriminate].
  set (N := List.length (pre ++ c :: rest)).
  destruct (Tcvc_loop_state pre _ (repeat zero N, repeat zero N, 0) Hloop)
    as [[[T2 v2] i2] Hloop2].
  rewrite foldM_app, Hloop2. cbn [bind foldM]. unfold Tcvc_body at 1.
  rewrite Hnone. reflexivity.
Qed.
End TcvcProperties.

Lemma get_Tcvc_entries_witness :
  get_Tcvc example_files "root" ["Methane"; "Ethane"]%string
  = Ok ([190; 305]%Q, [Qred (1 / 10); Qred (1 / 7)]%Q)
  /\ List.length [190; 305]%Q = 2.
Proof.
  split; [vm_compute; reflexivity |].
  exact (proj1 (@get_Tcvc_entries Q _ example_files "root"%string
                  ["Methane"; "Ethane"]%string _ _ eq_refl)).
Defined.

Lemma get_Tcvc_missing_file_witness :
  get_Tcvc example_files "root" ["Methane"; "Propane"; "Ethane"]%string
  = Err (invalid_argument "Load path is invalid: root/dev/fluids/Propane.json").
Proof.
  exact (@get_Tcvc_missing_file Q _ example_files "root"%string
           ["Methane"%string] ["Ethane"%string] "Propane"%string _ _
           eq_refl eq_refl).
Defined.

(** ** Power terms of the pure-fluid equations of state *)

Section PowerTermArrays.
Context {K : Type} {SK : Scalar K}.

Lemma c_from_l_loop (N : nat) (l : list K) (M : nat) :
  M <= N ->
  let c := fold_left
             (fun c i => if ltb zero (nth i l zero) then set_nth c i one else c)
             (seq 0 M) (repeat zero N) in
  List.length c = N
  /\ (forall i, i < M ->
        nth i c zero = if ltb zero (nth i l zero) then one else zero)
  /\ (forall i, M <= i -> nth i c zero = zero).
Proof.
  induction M as [|M IH]; intro HM.
  - cbn [seq fold_left]. rewrite repeat_length.
    split; [reflexivity |]. split; [intros i Hi; lia |].
    intros i _. apply nth_repeat.
  - destruct (IH ltac:(lia)) as (Hlen & Hdone & Hrest).
    rewrite seq_S, fold_left_app. cbn [fold_left Nat.add].
    set (c := fold_left _ (seq 0 M) (repeat zero N)) in *.
    destruct (ltb zero (nth M l zero)) eqn:Hpos.
    + rewrite length_set_nth. split; [exact Hlen |]. split.
      * intros i Hi. destruct (Nat.eq_dec i M) as [-> | Hne].
        -- rewrite nth_set_nth_same by lia. rewrite Hpos. reflexivity.
        -- rewrite nth_set_nth_other by exact Hne. apply Hdone. lia.
      * intros i Hi. rewrite nth_set_nth_other by lia. apply Hrest. lia.
    + split; [exact Hlen |]. split.
      * intros i Hi. destruct (Nat.eq_dec i M) as [-> | Hne].
        -- rewrite Hpos. apply Hrest. lia.
        -- apply Hdone. lia.
      * intros i Hi. apply Hrest. lia.
Qed.

Lemma c_from_l_indicator (N : nat) (l : list K) :
  List.length (c_from_l N l) = N
  /\ forall i, i < N ->
       nth i (c_from_l N l) zero = if ltb zero (nth i l zero) then one else zero.
Proof.
  unfold c_from_l, for_range. rewrite Nat.sub_0_r.
  destruct (@c_from_l_loop N l N (Nat.le_refl N)) as (Hlen & Hdone & _).
  split; assumption.
Qed.
End PowerTermArrays.

Section PowerTermReals.

Lemma integer_entries (l : list R) :
  non_integer_entry (map to_int l) l = false -> l = map IZR (map Rtrunc l).
Proof.
  unfold non_integer_entry. induction l as [|x l IH]; [reflexivity |].
  cbn [map combine existsb fst snd]. intro Hnone.
  apply Bool.orb_false_elim in Hnone. destruct Hnone as [Hx Hl].
  cbn [map]. f_equal; [| exact (IH Hl)].
  cbn in Hx. unfold Rltb in Hx.
  destruct (Rlt_dec 0 (Rabs (IZR (Rtrunc x) - x))) as [| Hnot]; [discriminate |].
  destruct (Req_dec (IZR (Rtrunc x) - x) 0) as [Heq | Hne]; [lra |].
  exfalso. apply Hnot. apply Rabs_pos_lt. exact Hne.
Qed.

(** X20. A power term built for a pure fluid has integer exponents [l]: [l]
    is exactly its integer copy [l_i].  The array [c] has the length of
    [term["n"]] and is the indicator of [l > 0] wherever [l] has an entry. *)
Theorem eos_build_power_exponents (term : json R) (eos : PowerEOSTerm R) :
  eos_build_power term = Ok eos ->
  pw_l eos = map IZR (pw_l_i eos)
  /\ (exists nj, subscript term "n" = Ok nj
                 /\ List.length (pw_c eos) = size nj)
  /\ forall i, i < List.length (pw_c eos) -> i < List.length (pw_l eos) ->
       nth i (pw_c eos) 0%R
       = if Rlt_dec 0 (nth i (pw_l eos) 0%R) then 1%R else 0%R.
Proof.
  unfold eos_build_power. intro Hbuild.
  destruct (subscript term "n") as [nj | e]; [| discriminate]. cbn [bind] in Hbuild.
  destruct (eigorzero _ _ "n") as [n | e]; [| discriminate]. cbn [bind] in Hbuild.
  destruct (eigorzero _ _ "t") as [t | e]; [| discriminate]. cbn [bind] in Hbuild.
  destruct (eigorzero _ _ "d") as [d | e]; [| discriminate]. cbn [bind] in Hbuild.
  destruct (subscript _ "l") as [lj | e]; [| discriminate]. cbn [bind] in Hbuild.
  assert (Hcl : exists c l,
             (if empty lj then Ok (repeat zero (size nj), repeat zero (size nj))
              else l <- toeig lj ;; Ok (c_from_l (size nj) l, l)) = Ok (c, l)
             /\ List.length c = size nj
             /\ forall i, i < List.length c -> i < List.length l ->
                  nth i c 0%R = if Rlt_dec 0 (nth i l 0%R) then 1%R else 0%R).
  { destruct (empty lj).
    - exists (repeat zero (size nj)), (repeat zero (size nj)).
      split; [reflexivity |]. rewrite repeat_length. split; [reflexivity |].
      intros i _ _. rewrite !nth_repeat. cbn.
      destruct (Rlt_dec 0 0) as [Hlt |]; [lra | reflexivity].
    - destruct (toeig lj) as [l | e]; [| discriminate]. cbn [bind].
      exists (c_from_l (size nj) l), l. split; [reflexivity |].
      destruct (c_from_l_indicator (size nj) l) as [Hlen Hind].
      split; [exact Hlen |]. intros i Hi _. rewrite Hlen in Hi.
      change (nth i (c_from_l (size nj) l) zero
              = if Rlt_dec 0 (nth i l 0%R) then 1%R else 0%R).
      rewrite (Hind i Hi). cbn. unfold Rltb.
      destruct (Rlt_dec 0 (nth i l 0%R)); reflexivity. }
  destruct Hcl as (c & l & Hcl & Hlen & Hind). rewrite Hcl in Hbuild.
  cbn [bind] in Hbuild.
  destruct (non_integer_entry (map to_int l) l) eqn:Hint; [discriminate |].
  inversion Hbuild; subst eos. cbn [pw_l pw_l_i pw_c].
  split; [exact (@integer_entries l Hint) |].
  split; [exists nj; split; [reflexivity | exact Hlen] | exact Hind].
Qed.
End PowerTermReals.

Lemma Rtrunc_IZR (z : Z) : Rtrunc (IZR z) = z.
Proof.
  unfold Rtrunc. destruct (Rle_dec 0 (IZR z)) as [Hpos | Hneg].
  - symmetry. apply Int_part_spec. lra.
  - rewrite <- opp_IZR. rewrite <- (Int_part_spec (IZR (- z)) (- z)%Z); [lia | lra].
Qed.

Lemma real_power_term_built : eos_build_power real_power_term = Ok real_power_eos.
Proof.
  unfold eos_build_power, real_power_term, real_power_eos.
  cbn. rewrite !Rtrunc_IZR.
  replace (IZR 0 - 0)%R with 0%R by lra. replace (IZR 2 - 2)%R with 0%R by lra.
  rewrite Rabs_R0. unfold Rltb.
  destruct (Rlt_dec 0 0) as [H00 |]; [lra |].
  destruct (Rlt_dec 0 2) as [| H02]; [| lra].
  reflexivity.
Qed.

Lemma eos_build_power_exponents_witness :
  pw_l real_power_eos = map IZR (pw_l_i real_power_eos).
Proof.
  exact (proj1 (@eos_build_power_exponents real_power_term real_power_eos
                  real_power_term_built)).
Defined.

(** ** The terms of a pure fluid *)

Section EOSTermsMore.
Context {K : Type} {SK : Scalar K}.

Lemma build_term_inv (term : json K) (container container' : EOSTerms K) :
  build_term term container = Ok container' ->
  exists type e,
    term_type term = Ok type /\ built_from type e = true
    /\ container' = container ++ [e].
Proof.
  unfold build_term, add_term. intro Hbuild.
  destruct (term_type term) as [type | err]; [| discriminate].
  cbn [bind] in Hbuild. exists type.
  destruct (String.eqb type "ResidualHelmholtzPower") eqn:H1.
  { destruct (eos_build_power term) as [e | err]; [| discriminate].
    inversion Hbuild. exists (Power e). cbn [built_from]. auto. }
  destruct (String.eqb type "ResidualHelmholtzGaussian") eqn:H2.
  { destruct (build_gaussian term) as [e | err]; [| discriminate].
    inversion Hbuild. exists (Gaussian e). cbn [built_from]. auto. }
  destruct (String.eqb type "ResidualHelmholtzNonAnalytic") eqn:H3.
  { destruct (build_na term) as [e | err]; [| discriminate].
    inversion Hbuild. exists (NonAnalytic e). cbn [built_from]. auto. }
  destruct (String.eqb type "ResidualHelmholtzLemmon2005") eqn:H4.
  { destruct (build_Lemmon2005 term) as [e | err]; [| discriminate].
    inversion Hbuild. exists (Lemmon2005 e). cbn [built_from]. auto. }
  destruct (String.eqb type "ResidualHelmholtzGaoB") eqn:H5.
  { destruct (build_GaoB term) as [e | err]; [| discriminate].
    inversion Hbuild. exists (GaoB e). cbn [built_from]. auto. }
  destruct (String.eqb type "ResidualHelmholtzExponential") eqn:H6.
  { destruct (build_exponential term) as [e | err]; [| discriminate].
    inversion Hbuild. exists (Exponential e). cbn [built_from]. auto. }
  discriminate.
Qed.

Lemma build_terms_loop (terms : list (json K)) :
  forall container container' : EOSTerms K,
    foldM build_term terms container = Ok container' ->
    exists es,
      container' = container ++ es
      /\ Forall2 (fun term e => exists type,
                    term_type term = Ok type /\ built_from type e = true)
           terms es.
Proof.
  induction terms as [|term rest IH]; intros container container' Hrun.
  - cbn [foldM] in Hrun. inversion Hrun. exists []. rewrite app_nil_r.
    split; [reflexivity | constructor].
  - cbn [foldM] in Hrun.
    destruct (build_term term container) as [c1 | err] eqn:Hbuild; [| discriminate].
    cbn [bind] in Hrun.
    destruct (build_term_inv _ _ Hbuild) as (type & e & Htype & Htag & ->).
    destruct (IH _ _ Hrun) as (es & -> & Hall).
    exists (e :: es). rewrite <- app_assoc. split; [reflexivity |].
    constructor; [exists type; split; assumption | exact Hall].
Qed.

(** X21. [get_EOS_terms] returns one term per record of the array, in the
    order of the records, each of the variant its record's type names; no
    GERG-2004 term and no Null term is among them. *)
Theorem get_EOS_terms_one_term_per_record (alphar : json K) (terms : EOSTerms K) :
  get_EOS_terms alphar = Ok terms ->
  Forall2 (fun term e => exists type,
             term_type term = Ok type /\ built_from type e = true)
    (items alphar) terms.
Proof.
  unfold get_EOS_terms. intro Hrun.
  destruct (foldM check_type (items alphar) tt) as [u | err]; [| discriminate].
  cbn [bind] in Hrun.
  destruct (build_terms_loop _ _ Hrun) as (es & -> & Hall). exact Hall.
Qed.

Lemma check_types_pass (pre : list (json K)) :
  Forall (fun term => exists type,
            term_type term = Ok type /\ isallowed allowed_types type = true) pre ->
  foldM check_type pre tt = Ok tt.
Proof.
  induction 1 as [|term pre (type & Htype & Hallowed) _ IH]; [reflexivity |].
  cbn [foldM]. unfold check_type at 1. rewrite Htype. cbn [bind].
  rewrite Hallowed. cbn [negb bind]. exact IH.
Qed.

(** X22. The type tags are all checked before any term is built: the first
    record whose type is not one of the six allowed makes [get_EOS_terms]
    throw "Bad type:" with the list of allowed types, whatever the arrays
    of the records before it and whatever follows it. *)
Theorem get_EOS_terms_rejects_unknown_type
    (alphar : json K) (pre rest : list (json K)) (bad : json K) (type : string) :
  items alphar = pre ++ bad :: rest ->
  Forall (fun term => exists type',
            term_type term = Ok type' /\ isallowed allowed_types type' = true) pre ->
  term_type bad = Ok type ->
  isallowed allowed_types type = false ->
  get_EOS_terms alphar = Err (invalid_argument (bad_type_message type)).
Proof.
  intros Hitems Hpre Htype Hbad. unfold get_EOS_terms.
  rewrite Hitems, foldM_app, (check_types_pass Hpre). cbn [bind foldM].
  unfold check_type at 1. rewrite Htype. cbn [bind]. rewrite Hbad.
  reflexivity.
Qed.
End EOSTermsMore.

Lemma get_EOS_terms_one_term_per_record_witness :
  exists terms,
    get_EOS_terms two_terms = Ok terms
    /\ Forall2 (fun term e => exists type,
                  term_type term = Ok type /\ built_from type e = true)
         (items two_terms) terms.
Proof.
  eexists. split; [vm_compute; reflexivity |].
  exact (@get_EOS_terms_one_term_per_record Q _ two_terms _ eq_refl).
Defined.

Lemma get_EOS_terms_rejects_unknown_type_witness :
  eos_build_power fractional_power_term
  = Err (invalid_argument "Non-integer entry in l found")
  /\ get_EOS_terms unknown_type_terms
     = Err (invalid_argument (bad_type_message "ResidualHelmholtzUnknown")).
Proof.
  split; [vm_compute; reflexivity |].
  refine (@get_EOS_terms_rejects_unknown_type Q _ unknown_type_terms
            [fractional_power_term]
            [] (JObj [("type", JStr "ResidualHelmholtzUnknown")]%string)
            "ResidualHelmholtzUnknown"%string eq_refl _ eq_refl eq_refl).
  constructor; [| constructor].
  exists "ResidualHelmholtzPower"%string. split; reflexivity.
Defined.

(** ** The invariant reducing function *)

Section AllPairs.

Lemma for_range_pairs_all {St : Type} (N : nat) (body : nat -> nat -> St -> St)
    (s : St) :
  for_range 0 N (fun i => for_range 0 N (body i)) s
  = fold_left (fun s p => body (fst p) (snd p) s) (pairs_all N) s.
Proof.
  unfold for_range, pairs_all.
  rewrite fold_left_flat_map, Nat.sub_0_r.
  apply fold_left_ext_in. intros s' i _.
  rewrite fold_left_map_list. reflexivity.
Qed.

Lemma in_pairs_all (N i j : nat) : In (i, j) (pairs_all N) <-> i < N /\ j < N.
Proof.
  unfold pairs_all. rewrite in_flat_map. split.
  - intros [i' [Hi' Hin]]. apply in_map_iff in Hin.
    destruct Hin as [j' [Heq Hj']]. inversion Heq; subst.
    apply in_seq in Hi', Hj'. lia.
  - intros [Hi Hj]. exists i. split; [apply in_seq; lia |].
    apply in_map. apply in_seq. lia.
Qed.

(** Writing [v i j] at [(i, j)] and at [(j, i)] for every pair of a list
    leaves [v] at every pair of the list when [v] is symmetric. *)
Lemma symmetric_writes {A B : Type} (v : nat -> nat -> A) (w : nat -> nat -> B)
    (l : list (nat * nat)) (M0 : Matrix A) (W0 : Matrix B) :
  (forall i j, v i j = v j i) -> (forall i j, w i j = w j i) ->
  let s := fold_left
             (fun (s : Matrix A * Matrix B) p =>
                let '(M, W) := s in
                let M := mset M (fst p) (snd p) (v (fst p) (snd p)) in
                let M := mset M (snd p) (fst p) (v (fst p) (snd p)) in
                let W := mset W (fst p) (snd p) (w (fst p) (snd p)) in
                let W := mset W (snd p) (fst p) (w (fst p) (snd p)) in
                (M, W))
             l (M0, W0) in
  forall a b, In (a, b) l -> fst s a b = v a b /\ snd s a b = w a b.
Proof.
  intros Hv Hw. induction l as [|p l IH] using rev_ind; intros s a b Hin.
  - destruct Hin.
  - subst s. rewrite fold_left_app. cbn [fold_left].
    destruct (fold_left _ l (M0, W0)) as [M W] eqn:Hfold.
    cbn [fst snd] in *. unfold mset.
    destruct p as [i j]. cbn [fst snd].
    destruct ((a =? j) && (b =? i)) eqn:Hmirror.
    + apply andb_true_iff in Hmirror. destruct Hmirror as [Ha Hb].
      apply Nat.eqb_eq in Ha, Hb. subst a b. split; [apply Hv | apply Hw].
    + destruct ((a =? i) && (b =? j)) eqn:Hhere.
      * apply andb_true_iff in Hhere. destruct Hhere as [Ha Hb].
        apply Nat.eqb_eq in Ha, Hb. subst a b. split; reflexivity.
      * apply in_app_or in Hin. destruct Hin as [Hin | [Heq | []]].
        -- exact (IH a b Hin).
        -- inversion Heq; subst. rewrite !Nat.eqb_refl in Hhere. discriminate.
Qed.
End AllPairs.

Section InvariantReducingFunction.
Local Open Scope R_scope.

Lemma invariant_Y_sum (z : list R) (phi lambda Yij : Matrix R) :
  MultiFluidInvariantReducingFunction.Y z phi lambda Yij
  = sum_list
      (map (fun p : nat * nat =>
              nth (fst p) z 0 * nth (snd p) z 0
              * (phi (fst p) (snd p) + nth (snd p) z 0 * lambda (fst p) (snd p))
              * Yij (fst p) (snd p))
         (pairs_all (List.length z))).
Proof.
  unfold MultiFluidInvariantReducingFunction.Y.
  rewrite for_range_pairs_all. unfold sum_list.
  rewrite <- accumulate_sum. reflexivity.
Qed.

Lemma invariant_make_entries (phiT lambdaT phiV lambdaV : Matrix R) (Tc vc : list R)
    (a b : nat) :
  (a < List.length Tc)%nat -> (b < List.length Tc)%nat ->
  let r := MultiFluidInvariantReducingFunction.make phiT lambdaT phiV lambdaV Tc vc in
  MultiFluidInvariantReducingFunction.YT r a b = sqrt (nth a Tc 0 * nth b Tc 0)
  /\ MultiFluidInvariantReducingFunction.Yv r a b
     = 1 / 8 * MultiFluidInvariantReducingFunction.cube
                 (Rcbrt (nth a vc 0) + Rcbrt (nth b vc 0)).
Proof.
  intros Ha Hb. unfold MultiFluidInvariantReducingFunction.make.
  rewrite for_range_pairs_all.
  pose proof (@symmetric_writes R R
                (fun i j => sqrt (nth i Tc 0 * nth j Tc 0))
                (fun i j => 1 / 8 * MultiFluidInvariantReducingFunction.cube
                                      (Rcbrt (nth i vc 0) + Rcbrt (nth j vc 0)))
                (pairs_all (List.length Tc)) (mconst 0) (mconst 0)) as Hwrites.
  cbn zeta in Hwrites.
  assert (Hv : forall i j, sqrt (nth i Tc 0 * nth j Tc 0)
                           = sqrt (nth j Tc 0 * nth i Tc 0)).
  { intros i j. rewrite Rmult_comm. reflexivity. }
  assert (Hw : forall i j,
             1 / 8 * MultiFluidInvariantReducingFunction.cube
                       (Rcbrt (nth i vc 0) + Rcbrt (nth j vc 0))
             = 1 / 8 * MultiFluidInvariantReducingFunction.cube
                         (Rcbrt (nth j vc 0) + Rcbrt (nth i vc 0))).
  { intros i j. rewrite Rplus_comm. reflexivity. }
  specialize (Hwrites Hv Hw a b (proj2 (in_pairs_all _ _ _) (conj Ha Hb))).
  cbn [zero one of_int sqrt_ cbrt mul add div Scalar_R].
  match type of Hwrites with
  | fst ?s _ _ = _ /\ _ => match goal with
                           | |- context [let '(_, _) := ?s' in _] =>
                               change s' with s; destruct s as [YT Yv]
                           end
  end.
  exact Hwrites.
Qed.

(** X23. The reducing temperature and density of the invariant reducing
    function are the double sums over all ordered pairs [(i, j)] of
    [z_i z_j (phi_ij + z_j lambda_ij) Y_ij] with [Y_ij = sqrt(Tc_i Tc_j)] for
    the temperature and [(cbrt(vc_i) + cbrt(vc_j))^3 / 8] for the volume. *)
Theorem invariant_reducing_function_formulas
    (phiT lambdaT phiV lambdaV : Matrix R) (Tc vc z : list R) :
  (List.length z <= List.length Tc)%nat ->
  let r := MultiFluidInvariantReducingFunction.make phiT lambdaT phiV lambdaV Tc vc in
  get_Tr r z
  = sum_list
      (map (fun p : nat * nat =>
              let (i, j) := p in
              nth i z 0 * nth j z 0 * (phiT i j + nth j z 0 * lambdaT i j)
              * sqrt (nth i Tc 0 * nth j Tc 0))
         (pairs_all (List.length z)))
  /\ get_rhor r z
     = 1 / sum_list
             (map (fun p : nat * nat =>
                     let (i, j) := p in
                     nth i z 0 * nth j z 0 * (phiV i j + nth j z 0 * lambdaV i j)
                     * (1 / 8 * ((Rcbrt (nth i vc 0) + Rcbrt (nth j vc 0))
                                 * (Rcbrt (nth i vc 0) + Rcbrt (nth j vc 0))
                                 * (Rcbrt (nth i vc 0) + Rcbrt (nth j vc 0)))))
                (pairs_all (List.length z))).
Proof.
  intros Hz r.
  change (@get_Tr R (MultiFluidInvariantReducingFunction.t R) _)
    with (@MultiFluidInvariantReducingFunction.get_Tr_ R _).
  change (@get_rhor R (MultiFluidInvariantReducingFunction.t R) _)
    with (@MultiFluidInvariantReducingFunction.get_rhor_ R _).
  unfold MultiFluidInvariantReducingFunction.get_Tr_,
    MultiFluidInvariantReducingFunction.get_rhor_.
  rewrite !invariant_Y_sum. cbn [one div Scalar_R].
  assert (Hphi : MultiFluidInvariantReducingFunction.phiT r = phiT
                 /\ MultiFluidInvariantReducingFunction.lambdaT r = lambdaT
                 /\ MultiFluidInvariantReducingFunction.phiV r = phiV
                 /\ MultiFluidInvariantReducingFunction.lambdaV r = lambdaV).
  { subst r. unfold MultiFluidInvariantReducingFunction.make.
    destruct (for_range _ _ _ _) as [YT Yv]. repeat split; reflexivity. }
  destruct Hphi as (-> & -> & -> & ->).
  split; [| f_equal]; f_equal; apply map_ext_in; intros [i j] Hin;
    apply in_pairs_all in Hin; destruct Hin as [Hi Hj]; cbn [fst snd];
    destruct (@invariant_make_entries phiT lambdaT phiV lambdaV Tc vc i j
                ltac:(lia) ltac:(lia)) as [HYT HYv]; fold r in HYT, HYv.
  - rewrite HYT. reflexivity.
  - rewrite HYv. reflexivity.
Qed.
End InvariantReducingFunction.

Section InvariantPureLimit.
Local Open Scope R_scope.

Lemma invariant_Y_pure_composition (N k : nat) (phi lambda Yij : Matrix R) :
  (k < N)%nat ->
  MultiFluidInvariantReducingFunction.Y (pure_composition N k) phi lambda Yij
  = (phi k k + lambda k k) * Yij k k.
Proof.
  intro Hk. rewrite invariant_Y_sum, length_pure_composition.
  unfold pairs_all, sum_list. rewrite flat_map_concat_map.
  set (term := fun p : nat * nat => _).
  assert (Hrow : forall i,
             fold_left Rplus (map term (map (pair i) (seq 0 N))) 0
             = if (i =? k)%nat then (phi k k + lambda k k) * Yij k k else 0).
  { intro i. rewrite map_map.
    destruct (Nat.eqb_spec i k) as [-> | Hik].
    - change (sum_list (map (fun j => term (k, j)) (seq 0 N))
              = (phi k k + lambda k k) * Yij k k).
      rewrite (sum_list_single (k := k)); [| exact Hk |].
      + subst term. cbn [fst snd]. rewrite nth_pure_composition.
        destruct (Nat.ltb_spec k N); [| lia]. rewrite Nat.eqb_refl. cbn [andb].
        ring.
      + intros j Hj Hjk. subst term. cbn [fst snd].
        rewrite (nth_pure_composition N k j).
        destruct (Nat.eqb_spec j k); [contradiction |].
        rewrite andb_false_r. ring.
    - apply fold_left_Rplus_zeros. intros x Hx.
      apply in_map_iff in Hx. destruct Hx as [j [<- _]].
      subst term. cbn [fst snd]. rewrite (nth_pure_composition N k i).
      destruct (Nat.eqb_spec i k); [contradiction |].
      rewrite andb_false_r. ring. }
  change (fold_left add (map term (List.concat (map (fun i => map (pair i) (seq 0 N))
                                             (seq 0 N)))) zero)
    with (fold_left Rplus (map term (List.concat (map (fun i => map (pair i) (seq 0 N))
                                               (seq 0 N)))) 0).
  assert (Hsplit : forall (rows : list nat) (acc : R),
             fold_left Rplus
               (map term (List.concat (map (fun i => map (pair i) (seq 0 N)) rows))) acc
             = fold_left Rplus
                 (map (fun i => if (i =? k)%nat
                                then (phi k k + lambda k k) * Yij k k else 0) rows)
                 acc).
  { induction rows as [|i rows IH]; intro acc; [reflexivity |].
    cbn [map List.concat]. rewrite map_app, fold_left_app. cbn [fold_left].
    rewrite <- IH. f_equal. rewrite <- Hrow.
    generalize (map term (map (pair i) (seq 0 N))). intro xs.
    revert acc. clear. induction xs as [|x xs IHx]; intro acc; cbn [fold_left].
    - ring.
    - rewrite IHx, (IHx (0 + x)). ring. }
  rewrite Hsplit.
  change (sum_list (map (fun i => if (i =? k)%nat
                                  then (phi k k + lambda k k) * Yij k k else 0)
                      (seq 0 N))
          = (phi k k + lambda k k) * Yij k k).
  rewrite (sum_list_single (k := k)); [| exact Hk |].
  - rewrite Nat.eqb_refl. reflexivity.
  - intros i _ Hik. destruct (Nat.eqb_spec i k); [contradiction | reflexivity].
Qed.

Lemma Rcbrt_cube (x : R) : 0 < x -> Rcbrt x * Rcbrt x * Rcbrt x = x.
Proof.
  intro Hx. unfold Rcbrt. destruct (Rlt_dec 0 x) as [_ | Hn]; [| contradiction].
  rewrite <- !Rpower_plus. replace (/ 3 + / 3 + / 3) with 1 by lra.
  apply Rpower_1. exact Hx.
Qed.

(** X24. At the composition of pure component [k] the invariant reducing
    function gives [(phiT_kk + lambdaT_kk) Tc_k] and the reciprocal of
    [(phiV_kk + lambdaV_kk) vc_k]: the pure-fluid values only when the
    diagonal parameters add up to one. *)
Theorem invariant_reducing_function_pure_limit
    (phiT lambdaT phiV lambdaV : Matrix R) (Tc vc : list R) (k : nat) :
  (k < List.length Tc)%nat -> 0 <= nth k Tc 0 -> 0 < nth k vc 0 ->
  let r := MultiFluidInvariantReducingFunction.make phiT lambdaT phiV lambdaV Tc vc in
  let z := pure_composition (List.length Tc) k in
  get_Tr r z = (phiT k k + lambdaT k k) * nth k Tc 0
  /\ get_rhor r z = 1 / ((phiV k k + lambdaV k k) * nth k vc 0).
Proof.
  intros Hk HT Hv r z.
  change (@get_Tr R (MultiFluidInvariantReducingFunction.t R) _)
    with (@MultiFluidInvariantReducingFunction.get_Tr_ R _).
  change (@get_rhor R (MultiFluidInvariantReducingFunction.t R) _)
    with (@MultiFluidInvariantReducingFunction.get_rhor_ R _).
  unfold MultiFluidInvariantReducingFunction.get_Tr_,
    MultiFluidInvariantReducingFunction.get_rhor_.
  subst z. rewrite !invariant_Y_pure_composition by exact Hk.
  destruct (@invariant_make_entries phiT lambdaT phiV lambdaV Tc vc k k Hk Hk)
    as [HYT HYv].
  fold r in HYT, HYv. rewrite HYT, HYv.
  assert (Hphi : MultiFluidInvariantReducingFunction.phiT r = phiT
                 /\ MultiFluidInvariantReducingFunction.lambdaT r = lambdaT
                 /\ MultiFluidInvariantReducingFunction.phiV r = phiV
                 /\ MultiFluidInvariantReducingFunction.lambdaV r = lambdaV).
  { subst r. unfold MultiFluidInvariantReducingFunction.make.
    destruct (for_range _ _ _ _) as [YT Yv]. repeat split; reflexivity. }
  destruct Hphi as (-> & -> & -> & ->).
  rewrite sqrt_square by exact HT. split; [reflexivity |].
  cbn [one div Scalar_R]. f_equal. f_equal.
  unfold MultiFluidInvariantReducingFunction.cube. cbn [mul Scalar_R].
  pose proof (Rcbrt_cube Hv) as Hcube.
  set (c := Rcbrt (nth k vc 0)) in *.
  replace ((c + c) * (c + c) * (c + c)) with (8 * (c * c * c)) by ring.
  rewrite Hcube. field.
Qed.
End InvariantPureLimit.

Lemma invariant_reducing_function_formulas_witness :
  get_Tr
    (MultiFluidInvariantReducingFunction.make (mconst 1%R) (mconst 0%R) (mconst 1%R)
       (mconst 0%R) [1; 4]%R [1; 1]%R) [1; 0]%R
  = sum_list
      (map (fun p : nat * nat =>
              let (i, j) := p in
              (nth i [1; 0] 0 * nth j [1; 0] 0 * (1 + nth j [1; 0] 0 * 0)
               * sqrt (nth i [1; 4] 0 * nth j [1; 4] 0))%R)
         (pairs_all 2)).
Proof.
  refine (proj1 (@invariant_reducing_function_formulas (mconst 1%R) (mconst 0%R)
                   (mconst 1%R) (mconst 0%R) [1; 4]%R [1; 1]%R [1; 0]%R _)).
  cbn. lia.
Defined.

Lemma invariant_reducing_function_pure_limit_witness :
  get_Tr
    (MultiFluidInvariantReducingFunction.make (mconst 1%R) (mconst 1%R) (mconst 1%R)
       (mconst 0%R) [1; 4]%R [1; 1]%R) (pure_composition 2 1)
  = ((1 + 1) * 4)%R.
Proof.
  refine (proj1 (@invariant_reducing_function_pure_limit (mconst 1%R) (mconst 1%R)
                   (mconst 1%R) (mconst 0%R) [1; 4]%R [1; 1]%R 1 _ _ _)).
  - cbn. lia.
  - cbn. lra.
  - cbn. lra.
Defined.

(** ** Estimated parameters *)

Section EstimateFlag.
Context {K : Type} {SK : Scalar K}.

Lemma foldM_total {I St : Type} (body : I -> St -> result St) (l : list I) :
  (forall i s, exists s', body i s = Ok s') ->
  forall s, exists s', foldM body l s = Ok s'.
Proof.
  intro Hbody. induction l as [|i l IH]; intro s.
  - exists s. reflexivity.
  - cbn [foldM]. destruct (Hbody i s) as [s1 ->]. cbn [bind]. apply IH.
Qed.

Lemma estimate_interaction_double (collection : json K) (components : list string)
    (flags : json K) :
  contains flags "estimate" = true ->
  MultiFluidReducingFunction.get_binary_interaction_double collection components flags
  = Ok (one, one, one, one).
Proof.
  intro Hest.
  unfold MultiFluidReducingFunction.get_binary_interaction_double,
    MultiFluidReducingFunction.get_BIPdep.
  rewrite Hest. reflexivity.
Qed.

(** X25. With the flag "estimate" the catalog is never consulted and the
    builders cannot fail: for every pair [i < j] the matrices hold
    [beta = gamma = 1] above the diagonal, [1 / 1] and [1] below it, and
    [F = 0] on both sides. *)
Theorem estimate_flag_gives_unit_parameters (collection : json K)
    (components : list string) (flags : json K) :
  contains flags "estimate" = true ->
  exists betaT gammaT betaV gammaV F,
    MultiFluidReducingFunction.get_BIP_matrices collection components flags
    = Ok (betaT, gammaT, betaV, gammaV)
    /\ MultiFluidReducingFunction.get_F_matrix collection components flags = Ok F
    /\ forall i j, i < j -> j < List.length components ->
         betaT i j = one /\ betaT j i = (one / one)%K
         /\ gammaT i j = one /\ gammaT j i = one
         /\ betaV i j = one /\ betaV j i = (one / one)%K
         /\ gammaV i j = one /\ gammaV j i = one
         /\ F i j = zero /\ F j i = zero.
Proof.
  intro Hest.
  assert (HBIP : exists s,
             MultiFluidReducingFunction.get_BIP_matrices collection components flags
             = Ok s).
  { unfold MultiFluidReducingFunction.get_BIP_matrices.
    rewrite for_rangeM_pairs_upper. apply foldM_total.
    intros [i j] [[[bT gT] bV] gV]. cbn [fst snd].
    unfold MultiFluidReducingFunction.BIP_matrices_body.
    rewrite (estimate_interaction_double _ _ _ Hest). cbn [bind].
    eexists. reflexivity. }
  assert (HF : exists F,
             MultiFluidReducingFunction.get_F_matrix collection components flags
             = Ok F).
  { unfold MultiFluidReducingFunction.get_F_matrix. cbv zeta.
    rewrite for_rangeM_with_diagonal. apply foldM_total.
    intros [i j] F. cbn [fst snd].
    destruct (i =? j); [eexists; reflexivity |].
    unfold MultiFluidReducingFunction.F_matrix_body,
      MultiFluidReducingFunction.get_BIPdep.
    rewrite Hest. cbn. eexists. reflexivity. }
  destruct HBIP as [[[[betaT gammaT] betaV] gammaV] HBIP]. destruct HF as [F HF].
  exists betaT, gammaT, betaV, gammaV, F.
  split; [exact HBIP |]. split; [exact HF |].
  intros i j Hij Hj.
  assert (Hij' : (i, j) <> (j, i)) by (intro Heq; inversion Heq; lia).
  unfold MultiFluidReducingFunction.get_BIP_matrices in HBIP.
  rewrite for_rangeM_pairs_upper in HBIP.
  destruct (foldM_visited BIP_entries _
              (BIP_body_frame collection components flags)
              (NoDup_pairs_upper (List.length components))
              (fun p Hp => ltac:(destruct p as [a b];
                                 apply in_pairs_upper in Hp; simpl; lia))
              _ HBIP i j ltac:(apply in_pairs_upper; lia))
    as (s1 & s2 & Hbody & _ & _ & H3 & H4).
  cbn [fst snd] in Hbody. destruct s1 as [[[bT gT] bV] gV].
  unfold MultiFluidReducingFunction.BIP_matrices_body in Hbody.
  rewrite (estimate_interaction_double _ _ _ Hest) in Hbody.
  cbn [bind] in Hbody. inversion Hbody; subst s2. clear Hbody.
  unfold BIP_entries in H3, H4.
  rewrite !mset_same in H4.
  rewrite !(mset_other _ _ Hij'), !mset_same in H3.
  injection H3 as A1 A2 A3 A4. injection H4 as B1 B2 B3 B4.
  unfold MultiFluidReducingFunction.get_F_matrix in HF. cbv zeta in HF.
  rewrite for_rangeM_with_diagonal in HF.
  destruct (foldM_visited (fun s : Matrix K => s) _
              (F_body_frame collection components flags)
              (NoDup_pairs_diag (List.length components))
              (fun p Hp => ltac:(destruct p as [a b];
                                 apply in_pairs_diag in Hp; simpl; lia))
              _ HF i j ltac:(apply in_pairs_diag; lia))
    as (F1 & F2 & HbodyF & _ & _ & HF3 & HF4).
  cbn [fst snd] in HbodyF.
  destruct (Nat.eqb_spec i j) as [Heq | _]; [lia |].
  unfold MultiFluidReducingFunction.F_matrix_body,
    MultiFluidReducingFunction.get_BIPdep in HbodyF.
  rewrite Hest in HbodyF. cbn in HbodyF. inversion HbodyF; subst F2.
  rewrite HF3, HF4, (mset_other _ _ Hij'), !mset_same.
  repeat split; first [assumption | reflexivity].
Qed.
End EstimateFlag.

Lemma estimate_flag_gives_unit_parameters_witness :
  exists betaT gammaT betaV gammaV F,
    MultiFluidReducingFunction.get_BIP_matrices (JArr []) two_components
      estimate_flags
    = Ok (betaT, gammaT, betaV, gammaV)
    /\ MultiFluidReducingFunction.get_F_matrix (JArr []) two_components
         estimate_flags = Ok F
    /\ forall i j, i < j -> j < List.length two_components ->
         betaT i j = 1%Q /\ betaT j i = (one / one)%K
         /\ gammaT i j = 1%Q /\ gammaT j i = 1%Q
         /\ betaV i j = 1%Q /\ betaV j i = (one / one)%K
         /\ gammaV i j = 1%Q /\ gammaV j i = 1%Q
         /\ F i j = 0%Q /\ F j i = 0%Q.
Proof.
  exact (@estimate_flag_gives_unit_parameters Q _ (JArr []) two_components
           estimate_flags eq_refl).
Defined.

(** ** Array lengths of the checked terms *)

Section CheckedLengths.
Context {K : Type} {SK : Scalar K}.

Lemma field_length (term : json K) (ks : list string) (n : nat) (k : string)
    (xs : list K) :
  (forall k', In k' ks -> exists v, at_ term k' = Ok v /\ size v = n) ->
  In k ks -> field term k = Ok xs -> List.length xs = n.
Proof.
  intros Hall Hk Hfield. destruct (Hall k Hk) as (v & Hat & Hsize).
  unfold field in Hfield. unfold at_ in Hat. unfold subscript in Hfield.
  destruct term as [| | | |l|m]; try discriminate.
  destruct (assoc m k) as [v' |]; [| discriminate].
  inversion Hat; subst v'. cbn [bind] in Hfield.
  rewrite <- Hsize. exact (toeig_length _ Hfield).
Qed.

Lemma require_true (cond : result bool) (msg : string) (u : unit) :
  require cond msg = Ok u -> cond = Ok true.
Proof.
  unfold require. destruct cond as [[|] | e]; cbn [bind]; try discriminate.
  reflexivity.
Qed.

Ltac field_lengths Hall :=
  repeat match goal with
         | H : field ?term ?k = Ok ?xs |- _ =>
             let L := fresh "L" in
             assert (L : List.length xs = _)
               by (eapply field_length; [exact Hall | | exact H]; cbn; tauto);
             clear H
         end.

Lemma build_term_lengths (term : json K) (container container' : EOSTerms K) :
  build_term term container = Ok container' ->
  exists e, container' = container ++ [e]
            /\ (is_power e = false ->
                exists n, Forall (fun xs => List.length xs = n) (term_arrays e)).
Proof.
  unfold build_term, add_term. intro Hbuild.
  destruct (term_type term) as [type | err]; [| discriminate].
  cbn [bind] in Hbuild.
  destruct (String.eqb type "ResidualHelmholtzPower").
  { destruct (eos_build_power term) as [e | err]; [| discriminate].
    inversion Hbuild. exists (Power e). split; [reflexivity |]. discriminate. }
  destruct (String.eqb type "ResidualHelmholtzGaussian").
  { destruct (build_gaussian term) as [e | err] eqn:He; [| discriminate].
    inversion Hbuild. exists (Gaussian e). split; [reflexivity |]. intros _.
    unfold build_gaussian in He. bind_ok He.
    apply require_true, all_same_length_sizes in E6. destruct E6 as [n Hall].
    exists n. inversion He; subst e. cbn [term_arrays ga_n ga_t ga_d ga_eta
      ga_beta ga_gamma ga_epsilon].
    field_lengths Hall. repeat constructor; assumption. }
  destruct (String.eqb type "ResidualHelmholtzNonAnalytic").
  { destruct (build_na term) as [e | err] eqn:He; [| discriminate].
    inversion Hbuild. exists (NonAnalytic e). split; [reflexivity |]. intros _.
    unfold build_na in He. bind_ok He.
    apply require_true, all_same_length_sizes in E7. destruct E7 as [n Hall].
    exists n. inversion He; subst e. cbn [term_arrays na_n na_A na_B na_C na_D
      na_a na_b na_beta].
    field_lengths Hall. repeat constructor; assumption. }
  destruct (String.eqb type "ResidualHelmholtzLemmon2005").
  { destruct (build_Lemmon2005 term) as [e | err] eqn:He; [| discriminate].
    inversion Hbuild. exists (Lemmon2005 e). split; [reflexivity |]. intros _.
    unfold build_Lemmon2005 in He. bind_ok He.
    apply require_true, all_same_length_sizes in E4. destruct E4 as [n Hall].
    exists n. destruct (non_integer_entry _ _); [discriminate |].
    inversion He; subst e. cbn [term_arrays le_n le_t le_d le_l le_m].
    field_lengths Hall. repeat constructor; assumption. }
  destruct (String.eqb type "ResidualHelmholtzGaoB").
  { destruct (build_GaoB term) as [e | err] eqn:He; [| discriminate].
    inversion Hbuild. exists (GaoB e). split; [reflexivity |]. intros _.
    unfold build_GaoB in He. bind_ok He.
    apply require_true, all_same_length_sizes in E7. destruct E7 as [n Hall].
    exists n. inversion He; subst e. cbn [term_arrays gb_n gb_t gb_d gb_eta
      gb_beta gb_gamma gb_epsilon gb_b].
    field_lengths Hall. repeat constructor; rewrite ?length_map; assumption. }
  destruct (String.eqb type "ResidualHelmholtzExponential").
  { destruct (build_exponential term) as [e | err] eqn:He; [| discriminate].
    inversion Hbuild. exists (Exponential e). split; [reflexivity |]. intros _.
    unfold build_exponential in He. bind_ok He.
    apply require_true, all_same_length_sizes in E4. destruct E4 as [n Hall].
    exists n. inversion He; subst e. cbn [term_arrays ex_n ex_t ex_d ex_g ex_l].
    field_lengths Hall. repeat constructor; assumption. }
  discriminate.
Qed.

(** X26. Every term [get_EOS_terms] builds, the power terms apart, holds
    coefficient arrays of one length: only [build_power] skips the length
    check. *)
Theorem get_EOS_terms_checked_lengths (alphar : json K) (terms : EOSTerms K) :
  get_EOS_terms alphar = Ok terms ->
  forall e, In e terms -> is_power e = false ->
    exists n, Forall (fun xs => List.length xs = n) (term_arrays e).
Proof.
  unfold get_EOS_terms. intro Hrun.
  destruct (foldM check_type (items alphar) tt) as [u | err]; [| discriminate].
  cbn [bind] in Hrun.
  assert (Hloop : forall (l : list (json K)) (c c' : EOSTerms K),
             foldM build_term l c = Ok c' ->
             (forall e, In e c -> is_power e = false ->
                exists n, Forall (fun xs => List.length xs = n) (term_arrays e)) ->
             forall e, In e c' -> is_power e = false ->
               exists n, Forall (fun xs => List.length xs = n) (term_arrays e)).
  { induction l as [|term rest IH]; intros c c' Hfold Hc.
    - inversion Hfold; subst c'. exact Hc.
    - cbn [foldM] in Hfold.
      destruct (build_term term c) as [c1 | err] eqn:Hbuild; [| discriminate].
      cbn [bind] in Hfold.
      destruct (build_term_lengths _ _ Hbuild) as (e1 & -> & He1).
      apply (IH _ _ Hfold). intros e Hin.
      apply in_app_or in Hin. destruct Hin as [Hin | [<- | []]].
      + apply Hc. exact Hin.
      + exact He1. }
  apply (Hloop _ _ _ Hrun). intros e [].
Qed.
End CheckedLengths.

Lemma get_EOS_terms_checked_lengths_witness :
  exists terms e,
    get_EOS_terms two_terms = Ok terms /\ nth_error terms 1 = Some e
    /\ exists n, Forall (fun xs => List.length xs = n) (term_arrays e).
Proof.
  eexists. eexists. split; [vm_compute; reflexivity |].
  split; [reflexivity |].
  eapply (@get_EOS_terms_checked_lengths Q _ two_terms);
    [vm_compute; reflexivity | right; left; reflexivity | reflexivity].
Defined.
